(** * Indoor positioning from RSSI readings: a verification development

    A shallow embedding of the position-estimation core of the repository
    ([config.py], [position_estimator.py], [fingerprint_engine.py],
    [web_track.py], with the interpolation of [realtime_track.py] and the
    simulated scanner of [ble_scanner.py]) and proofs of its specification.

    Conventions of the embedding.
    - Python floats are idealised as the real numbers [R]: [10 ** x] is
      [Rpower 10 x], [math.sqrt] is [sqrt], comparisons are the decidable
      order of [R].  Rounding error, overflow and NaN are outside the model.
    - A Python [dict] that is iterated is an association list in insertion
      order ([dict_set] is item assignment); a [dict] that is only looked up
      is a [gmap].
    - Exceptions are explicit: code that can raise lives in the [result]
      monad, and [a / b] with a run-time divisor is the checked [py_div].
    - Mutable list objects live in a store ([heap]) and are named by
      locations, so that aliasing is visible. *)

From Stdlib Require Import Reals Lra Lia ZArith.
From stdpp Require Import gmap strings list sorting.

(** ** Decidable order on the reals, in stdpp's [Decision] style *)

#[global] Instance Rlt_decision : RelDecision Rlt := Rlt_dec.
#[global] Instance Rle_decision : RelDecision Rle := Rle_dec.
#[global] Instance Rgt_decision : RelDecision Rgt := Rgt_dec.
#[global] Instance Rge_decision : RelDecision Rge := Rge_dec.
#[global] Instance Req_decision : EqDecision R := Req_dec_T.

(** ** Exceptions *)

Inductive exn : Type :=
  | KeyError (key : string)
  | ZeroDivisionError
  | IndexError
  | TypeError.

Inductive result (A : Type) : Type :=
  | Ok (a : A)
  | Raise (e : exn).
Arguments Ok {A} a.
Arguments Raise {A} e.

#[global] Instance result_ret : MRet result := fun _ a => Ok a.
#[global] Instance result_bind : MBind result := fun _ _ f m =>
  match m with
  | Ok a => f a
  | Raise e => Raise e
  end.

(** [try: body except: handler] *)
Definition try_except {A} (body : result A) (handler : exn → result A) : result A :=
  match body with
  | Ok a => Ok a
  | Raise e => handler e
  end.

(** Python's true division [a / b]. *)
Definition py_div (a b : R) : result R :=
  if decide (b = 0%R) then Raise ZeroDivisionError else Ok (a / b)%R.

(** Monadic left fold: a [for] loop whose body may raise. *)
Fixpoint foldM {A B} (f : B → A → result B) (acc : B) (l : list A) : result B :=
  match l with
  | [] => Ok acc
  | x :: l' => acc' ← f acc x; foldM f acc' l'
  end.

(** [l[i]] for a non-negative index, and [l[-1]]. *)
Definition py_index {A} (l : list A) (i : nat) : result A :=
  match l !! i with
  | Some x => Ok x
  | None => Raise IndexError
  end.

Definition py_last {A} (l : list A) : result A :=
  match last l with
  | Some x => Ok x
  | None => Raise IndexError
  end.

(** [sum(l)]: the running total starts at 0 and adds from the left. *)
Definition py_sum (l : list R) : R := foldl Rplus 0%R l.

(** ** Extended reals: [float('inf')] next to finite values *)

Inductive xreal : Type :=
  | Fin (r : R)
  | PInf.

Definition xlt (a b : xreal) : Prop :=
  match a, b with
  | Fin x, Fin y => (x < y)%R
  | Fin _, PInf => True
  | PInf, _ => False
  end.

#[global] Instance xlt_decision : RelDecision xlt.
Proof.
  intros [x|] [y|]; simpl; [apply Rlt_dec | left; exact I | right; tauto | right; tauto].
Defined.

#[global] Instance xreal_eq_dec : EqDecision xreal.
Proof. solve_decision. Defined.

(** ** Insertion-ordered dictionaries *)

(** [d[k] = v]: an existing key keeps its place, a new key goes last. *)
Fixpoint dict_set {V} (k : string) (v : V) (d : list (string * V)) : list (string * V) :=
  match d with
  | [] => [(k, v)]
  | (k', v') :: d' =>
      if decide (k = k') then (k, v) :: d' else (k', v') :: dict_set k v d'
  end.

(** [d.get(k)] *)
Fixpoint dict_get {V} (k : string) (d : list (string * V)) : option V :=
  match d with
  | [] => None
  | (k', v') :: d' => if decide (k = k') then Some v' else dict_get k d'
  end.

(** ** Stable sorting by a key, as [list.sort(key=...)] and [sorted] do

    Python's sort is stable; for a total preorder on keys the stably sorted
    arrangement of a list is unique, so insertion sort computes the same
    list as the library's merge sort. *)

Section StableSort.
Context {A K : Type} (key : A → K) (lt : K → K → Prop) `{!RelDecision lt}.

(** [x] stood before every element of [l]: it goes before the first
    element whose key is not strictly smaller. *)
Fixpoint insert_sorted (x : A) (l : list A) : list A :=
  match l with
  | [] => [x]
  | y :: l' =>
      if decide (lt (key y) (key x)) then y :: insert_sorted x l'
      else x :: y :: l'
  end.

Fixpoint sort_by (l : list A) : list A :=
  match l with
  | [] => []
  | x :: l' => insert_sorted x (sort_by l')
  end.
End StableSort.

(** [l[:k]] for any integer [k] (a negative [k] counts from the end). *)
Definition py_prefix {A} (k : Z) (l : list A) : list A :=
  if decide (0 ≤ k)%Z then take (Z.to_nat k) l
  else take (length l - Z.to_nat (- k)) l.

(** ** [round(x)] and [round(x, ndigits)]: round half to even *)

Definition py_round (x : R) : Z :=
  let f := Int_part x in
  let d := (x - IZR f)%R in
  if decide (d < 1 / 2)%R then f
  else if decide (1 / 2 < d)%R then (f + 1)%Z
  else if Z.even f then f else (f + 1)%Z.

Definition py_round_n (x : R) (ndigits : nat) : R :=
  (IZR (py_round (x * 10 ^ ndigits)) / 10 ^ ndigits)%R.

(** * config.py *)

Module Config.
Local Open Scope R_scope.

Definition TX_POWER : R := -59.
Definition PATH_LOSS_EXPONENT : R := 2.5.
Definition RSSI_MIN : R := -100.

Definition MIN_AP_FOR_TRILATERATION : nat := 3.
Definition MAX_DISTANCE : R := 30.0.

Definition MAP_WIDTH : R := 75.0.
Definition MAP_HEIGHT : R := 22.0.

Record bounds : Type := mk_bounds {
  min_x : R;
  max_x : R;
  min_y : R;
  max_y : R
}.

Definition MAP_BOUNDS : bounds :=
  {| min_x := -2; max_x := MAP_WIDTH; min_y := -3; max_y := MAP_HEIGHT |}.

(** [AP_POSITIONS = {name: ap["position"] for name, ap in ARUBA_APS.items()}] *)
Definition AP_POSITIONS : gmap string (R * R) :=
  list_to_map
    [ ("AP-12", (5.0, 3.5));
      ("AP-11", (25.3, 3.5));
      ("AP-XX", (38.2, 3.5));
      ("AP-09", (47.3, 3.5));
      ("AP-07", (58.7, 3.5));
      ("AP-13", (67.0, 16.5));
      ("AP-7413", (9.1, 3.1)) ].

(** Log-distance path-loss model. *)
Definition rssi_to_distance (rssi : R) : R :=
  if decide (rssi >= 0 ∨ rssi < RSSI_MIN) then MAX_DISTANCE
  else
    let distance := Rpower 10 ((TX_POWER - rssi) / (10 * PATH_LOSS_EXPONENT)) in
    Rmin distance MAX_DISTANCE.
End Config.

(** * position_estimator.py *)

Module Estimator.
Import Config.
Local Open Scope R_scope.

Definition position : Type := R * R.

(** [(x, y, timestamp)] *)
Definition history_entry : Type := R * R * R.

(** List objects are named by locations of a store. *)
Definition loc : Type := positive.
Abbreviation heap := (gmap loc (list history_entry)).

(** The attributes of a [PositionEstimator] object; [position_history]
    refers to a list object of the store. *)
Record PositionEstimator : Type := mk_estimator {
  method : string;
  last_position : option position;
  position_history : loc
}.

Definition set_last_position (self : PositionEstimator) (p : option position)
  : PositionEstimator :=
  {| method := method self;
     last_position := p;
     position_history := position_history self |}.

(** [AP_POSITIONS[ap_name]] *)
Definition lookup_ap (ap_name : string) : result position :=
  match AP_POSITIONS !! ap_name with
  | Some p => Ok p
  | None => Raise (KeyError ap_name)
  end.

(** The first loop of [estimate]: RSSI to distance, keeping the known
    access points heard above -100 dBm and nearer than [MAX_DISTANCE]. *)
Definition distance_step (distances : list (string * R)) (item : string * R)
  : list (string * R) :=
  let '(ap_name, rssi) := item in
  if decide (rssi > -100 ∧ is_Some (AP_POSITIONS !! ap_name)) then
    let dist := rssi_to_distance rssi in
    if decide (dist < MAX_DISTANCE) then dict_set ap_name dist distances
    else distances
  else distances.

Definition compute_distances (rssi_dict : list (string * R)) : list (string * R) :=
  foldl distance_step [] rssi_dict.

Definition centroid_step (acc : R * R * R) (item : string * R) : result (R * R * R) :=
  let '(total_weight, weighted_x, weighted_y) := acc in
  let '(ap_name, distance) := item in
  if decide (distance > 0) then
    weight ← py_div 1 (distance ^ 2);
    '(ap_x, ap_y) ← lookup_ap ap_name;
    mret (total_weight + weight, weighted_x + ap_x * weight, weighted_y + ap_y * weight)
  else mret acc.

Definition _weighted_centroid (distances : list (string * R)) : result (option position) :=
  '(total_weight, weighted_x, weighted_y) ← foldM centroid_step (0, 0, 0) distances;
  if decide (total_weight > 0) then
    x ← py_div weighted_x total_weight;
    y ← py_div weighted_y total_weight;
    mret (Some (x, y))
  else mret None.

(** The linearised system of the three circle equations; [np.linalg.det]
    and [np.linalg.solve] on the 2x2 matrix are the determinant and
    Cramer's rule. *)
Definition solve_circles (p1 p2 p3 : position * R) : result (option position) :=
  let '((x1, y1), r1) := p1 in
  let '((x2, y2), r2) := p2 in
  let '((x3, y3), r3) := p3 in
  let a11 := 2 * (x2 - x1) in
  let a12 := 2 * (y2 - y1) in
  let a21 := 2 * (x3 - x1) in
  let a22 := 2 * (y3 - y1) in
  let b1 := r1 ^ 2 - r2 ^ 2 - x1 ^ 2 + x2 ^ 2 - y1 ^ 2 + y2 ^ 2 in
  let b2 := r1 ^ 2 - r3 ^ 2 - x1 ^ 2 + x3 ^ 2 - y1 ^ 2 + y3 ^ 2 in
  let det := a11 * a22 - a12 * a21 in
  if decide (det = 0) then mret None
  else
    x ← py_div (b1 * a22 - a12 * b2) det;
    y ← py_div (a11 * b2 - b1 * a21) det;
    mret (Some (x, y)).

Definition _trilateration (distances : list (string * R)) : result (option position) :=
  let sorted_aps := take 3 (sort_by snd Rlt distances) in
  if decide (length sorted_aps < 3)%nat then _weighted_centroid distances
  else
    points ← mapM (λ '(ap_name, dist), p ← lookup_ap ap_name; mret (p, dist)) sorted_aps;
    try_except
      (match points with
       | p1 :: p2 :: p3 :: _ =>
           solved ← solve_circles p1 p2 p3;
           match solved with
           | Some p => mret (Some p)
           | None => _weighted_centroid distances
           end
       | _ => Raise IndexError
       end)
      (λ _, _weighted_centroid distances).

Section WithMinimizer.
(** [scipy.optimize.minimize(objective, initial, method='Nelder-Mead').x],
    an external routine: any function of the objective and the seed. *)
Variable minimize : (position → result R) → position → result position.

Definition objective (distances : list (string * R)) (pos : position) : result R :=
  let '(x, y) := pos in
  foldM (λ total_error '(ap_name, measured_dist),
           '(ap_x, ap_y) ← lookup_ap ap_name;
           let estimated_dist := sqrt ((x - ap_x) ^ 2 + (y - ap_y) ^ 2) in
           mret (total_error + (estimated_dist - measured_dist) ^ 2))
        0 distances.

Definition _least_squares (distances : list (string * R)) : result (option position) :=
  initial ← _weighted_centroid distances;
  let initial :=
    match initial with
    | Some p => p
    | None => (max_x MAP_BOUNDS / 2, max_y MAP_BOUNDS / 2)
    end in
  p ← minimize (objective distances) initial;
  mret (Some p).

(** The clamp into the map bounds. *)
Definition clamp (p : position) : position :=
  (Rmax (min_x MAP_BOUNDS) (Rmin (fst p) (max_x MAP_BOUNDS)),
   Rmax (min_y MAP_BOUNDS) (Rmin (snd p) (max_y MAP_BOUNDS))).

(** [estimate] returns the position and the estimator after the call. *)
Definition estimate (self : PositionEstimator) (rssi_dict : list (string * R))
  : result (option position * PositionEstimator) :=
  let distances := compute_distances rssi_dict in
  if decide (length distances < MIN_AP_FOR_TRILATERATION)%nat then
    mret (last_position self, self)
  else
    position ←
      (if decide (method self = "weighted_centroid") then _weighted_centroid distances
       else if decide (method self = "trilateration") then _trilateration distances
       else if decide (method self = "least_squares") then _least_squares distances
       else _weighted_centroid distances);
    match position with
    | Some p =>
        let position := clamp p in
        mret (Some position, set_last_position self (Some position))
    | None => mret (None, self)
    end.
End WithMinimizer.

(** The region of [MAP_BOUNDS]. *)
Definition in_bounds (p : position) : Prop :=
  min_x MAP_BOUNDS <= fst p <= max_x MAP_BOUNDS ∧
  min_y MAP_BOUNDS <= snd p <= max_y MAP_BOUNDS.

(** An entry of a reading that passes the filter of [estimate]. *)
Definition valid_entry (item : string * R) : Prop :=
  snd item > -100 ∧ is_Some (AP_POSITIONS !! fst item) ∧
  rssi_to_distance (snd item) < MAX_DISTANCE.

#[global] Instance valid_entry_dec (item : string * R) : Decision (valid_entry item).
Proof. unfold valid_entry. apply _. Defined.

(** An entry of the distance table: a known access point at a positive distance. *)
Definition beacon_ok (item : string * R) : Prop :=
  is_Some (AP_POSITIONS !! item.1) ∧ 0 < item.2.

(** [PositionEstimator(method)]: a new object with a new, empty history list. *)
Definition init (m : string) (h : heap) : PositionEstimator * heap :=
  let l := fresh (dom h) in
  ({| method := m; last_position := None; position_history := l |}, <[l := []]> h).

(** [self.position_history.append((x, y, timestamp))] *)
Definition add_to_history (self : PositionEstimator) (x y timestamp : R) (h : heap) : heap :=
  alter (λ items, items ++ [(x, y, timestamp)]) (position_history self) h.

(** [return self.position_history.copy()]: a new list object with the
    same items; the result is its location. *)
Definition get_trajectory (self : PositionEstimator) (h : heap) : option (loc * heap) :=
  items ← h !! position_history self;
  let l := fresh (dom h) in
  Some (l, <[l := items]> h).

(** [self.position_history = []; self.last_position = None] *)
Definition clear_history (self : PositionEstimator) (h : heap) : PositionEstimator * heap :=
  let l := fresh (dom h) in
  ({| method := method self; last_position := None; position_history := l |},
   <[l := []]> h).

(** The estimator objects a program can hold: made by the constructor
    and changed by the methods only. *)
Inductive reachable (minimize : (position → result R) → position → result position)
  : PositionEstimator → Prop :=
  | reach_init m h : reachable minimize (init m h).1
  | reach_estimate self rssi_dict out self' :
      reachable minimize self →
      estimate minimize self rssi_dict = Ok (out, self') →
      reachable minimize self'
  | reach_clear self h :
      reachable minimize self → reachable minimize (clear_history self h).1.

(** Any in-place mutation of the list object at [l] ([append], [pop],
    [clear], item assignment, [sort], ...) *)
Definition mutate_list (l : loc) (f : list history_entry → list history_entry) (h : heap)
  : heap :=
  alter f l h.
End Estimator.

(** * fingerprint_engine.py *)

Module Fingerprint.
Local Open Scope R_scope.

(** A record of [fingerprint_db]; a record without a ["pattern"] key
    reads as the empty pattern ([data.get("pattern", [])]). *)
Record fingerprint : Type := mk_fingerprint {
  fp_location : string;
  fp_pattern : list R;
  fp_samples : Z
}.

(** An entry of the list [distances] built by the matcher. *)
Record candidate : Type := mk_candidate {
  location : string;
  distance : xreal;
  similarity : R;
  pattern : list R
}.

(** [not l] for a list *)
Definition empty_list {A} (l : list A) : Prop := length l = 0%nat.

#[global] Instance empty_list_dec {A} (l : list A) : Decision (empty_list l).
Proof. unfold empty_list. apply _. Defined.

Definition euclidean_distance (pattern1 pattern2 : list R) : xreal :=
  if decide (empty_list pattern1 ∨ empty_list pattern2) then PInf
  else
    let min_len := Nat.min (length pattern1) (length pattern2) in
    let sum_sq :=
      foldl (λ sum_sq i, sum_sq + (nth i pattern1 0 - nth i pattern2 0) ^ 2)
            0 (seq 0 min_len) in
    Fin (sqrt sum_sq).

Definition cosine_similarity (pattern1 pattern2 : list R) : result R :=
  if decide (empty_list pattern1 ∨ empty_list pattern2) then mret 0
  else
    let min_len := Nat.min (length pattern1) (length pattern2) in
    let dot_product :=
      py_sum (map (λ i, nth i pattern1 0 * nth i pattern2 0) (seq 0 min_len)) in
    let norm1 := sqrt (py_sum (map (λ x, x ^ 2) (take min_len pattern1))) in
    let norm2 := sqrt (py_sum (map (λ x, x ^ 2) (take min_len pattern2))) in
    if decide (norm1 = 0 ∨ norm2 = 0) then mret 0
    else py_div dot_product (norm1 * norm2).

(** The confidence step function of the best candidate's distance. *)
Definition confidence_of (d : xreal) : R :=
  if decide (xlt d (Fin 5)) then 0.95
  else if decide (xlt d (Fin 10)) then 0.8
  else if decide (xlt d (Fin 20)) then 0.6
  else 0.3.

Definition score (current_pattern : list R) (entry : string * fingerprint)
  : result candidate :=
  let '(location, data) := entry in
  let stored_pattern := fp_pattern data in
  let dist := euclidean_distance current_pattern stored_pattern in
  similarity ← cosine_similarity current_pattern stored_pattern;
  mret {| location := location; distance := dist;
          similarity := similarity; pattern := stored_pattern |}.

(** [fingerprint_db] is the dictionary's items in insertion order. *)
Definition estimate_location_knn
    (fingerprint_db : list (string * fingerprint)) (current_pattern : list R) (k : Z)
  : result (option string * R * list candidate) :=
  if decide (empty_list fingerprint_db ∨ empty_list current_pattern) then
    mret (None, 0, [])
  else
    distances ← mapM (score current_pattern) fingerprint_db;
    let distances := sort_by distance xlt distances in
    let top_k := py_prefix k distances in
    match top_k with
    | [] => mret (None, 0, [])
    | best_match :: _ =>
        mret (Some (location best_match), confidence_of (distance best_match), top_k)
    end.

(** [score] without the monad. *)
Definition scored (current_pattern : list R) (entry : string * fingerprint) : candidate :=
  {| location := entry.1;
     distance := euclidean_distance current_pattern (fp_pattern entry.2);
     similarity :=
       match cosine_similarity current_pattern (fp_pattern entry.2) with
       | Ok s => s
       | Raise _ => 0
       end;
     pattern := fp_pattern entry.2 |}.
End Fingerprint.

(** * web_track.py *)

Module WebTrack.
Import Fingerprint.
Local Open Scope R_scope.

(** [(room, rssi, position)], 7413 = 0 m *)
Definition CALIBRATION : list (string * R * R) :=
  [ ("7413", -44, 0.0);
    ("7418", -54, 8.0);
    ("7419", -60, 12.0);
    ("7420", -65, 18.0);
    ("7422", -65, 28.0);
    ("7423", -68, 38.0);
    ("7424", -68, 48.0);
    ("7404", -69, 55.0);
    ("7429", -74, 65.0) ].

Definition ROOM_POSITIONS : list (string * R) :=
  [ ("7414", -5.0);
    ("7413", 0.0);
    ("STAIR", 5.0);
    ("EV", 10.0);
    ("7412", 15.0);
    ("7411", 20.0);
    ("7410", 25.0);
    ("7409", 30.0);
    ("7408", 35.0);
    ("7407", 40.0);
    ("7406", 45.0);
    ("7405", 50.0);
    ("7404", 55.0);
    ("7403", 60.0);
    ("7401", 65.0) ].

Definition RSSI_BUFFER_SIZE : nat := 10.
Definition POSITION_BUFFER_SIZE : nat := 8.
Definition DIRECTION_THRESHOLD : R := 5.0.
Definition MIN_POSITION_CHANGE : R := 1.0.

(** A trajectory point. *)
Record point : Type := mk_point {
  p_time : R;
  p_rssi : Z;
  p_position : R;
  p_room : option string;
  p_method : string;
  p_confidence : option R
}.

(** The module's global variables. *)
Record state : Type := mk_state {
  active : bool;
  start_time : option R;
  trajectory : list point;
  current : option point;
  rssi_buffer : list R;
  position_buffer : list R;
  last_stable_position : R;
  last_reported_position : R
}.

(** The values of the globals when the module is loaded. *)
Definition initial_state : state :=
  {| active := false; start_time := None; trajectory := []; current := None;
     rssi_buffer := []; position_buffer := [];
     last_stable_position := 0; last_reported_position := 0 |}.

(** The loop of [rssi_to_position] over [range(len(rssi_list) - 1)];
    [None] when the loop ends without returning. *)
Fixpoint interpolate (rssi : R) (rssi_list pos_list : list R) (indices : list nat)
  : result (option R) :=
  match indices with
  | [] => mret None
  | i :: rest =>
      hi ← py_index rssi_list i;
      lo ← py_index rssi_list (i + 1);
      if decide (hi >= rssi ∧ rssi >= lo) then
        ratio ← py_div (hi - rssi) (hi - lo);
        p ← py_index pos_list i;
        q ← py_index pos_list (i + 1);
        mret (Some (p + ratio * (q - p)))
      else interpolate rssi rssi_list pos_list rest
  end.

Definition rssi_to_position (rssi : R) : result R :=
  let rssi_list := map (λ c, snd (fst c)) CALIBRATION in
  let pos_list := map (λ c, snd c) CALIBRATION in
  first_rssi ← py_index rssi_list 0;
  if decide (rssi >= first_rssi) then py_index pos_list 0
  else
    last_rssi ← py_last rssi_list;
    if decide (rssi <= last_rssi) then
      last_pos ← py_last pos_list;
      mret (last_pos + (last_rssi - rssi) * 1.0)
    else
      found ← interpolate rssi rssi_list pos_list (seq 0 (length rssi_list - 1));
      match found with
      | Some p => mret p
      | None => mret 0
      end.

Definition get_nearest_room (pos : R) : string :=
  snd (foldl (λ '(min_dist, nearest) '(room, room_pos),
                let dist := Rabs (pos - room_pos) in
                if decide (xlt (Fin dist) min_dist) then (Fin dist, room)
                else (min_dist, nearest))
             (PInf, "7413"%string) ROOM_POSITIONS).

(** [buffer.append(x)], then [buffer.pop(0)] when longer than [size] *)
Definition push_bounded (size : nat) (buffer : list R) (x : R) : list R :=
  let buffer := buffer ++ [x] in
  if decide (size < length buffer)%nat then drop 1 buffer else buffer.

(** [round(item["distance"], 2)]; rounding leaves [inf] as it is. *)
Definition round_xreal (d : xreal) (ndigits : nat) : xreal :=
  match d with
  | Fin r => Fin (py_round_n r ndigits)
  | PInf => PInf
  end.

(** The fingerprint step of a cycle: [(fp_location, fp_confidence,
    fp_candidates)], which stay [(None, 0, [])] unless the matcher ran
    and returned. *)
Definition fingerprint_step (FINGERPRINT_AVAILABLE : bool)
    (fingerprint_db : list (string * fingerprint)) (current_pattern : list R)
  : option string * R * list (string * xreal) :=
  if decide (FINGERPRINT_AVAILABLE = true ∧ (3 ≤ length fingerprint_db)%nat) then
    match
      (if decide (¬ empty_list current_pattern) then
         '(fp_location, fp_confidence, top_k) ←
           estimate_location_knn fingerprint_db current_pattern 3;
         mret (fp_location, fp_confidence,
               map (λ item, (location item, round_xreal (distance item) 2)) top_k)
       else mret (None, 0, []))
    with
    | Ok r => r
    | Raise _ => (None, 0, [])
    end
  else (None, 0, []).

(** [if fp_location] *)
Definition truthy (fp_location : option string) : Prop :=
  match fp_location with
  | Some l => l ≠ ""%string
  | None => False
  end.

#[global] Instance truthy_dec (l : option string) : Decision (truthy l).
Proof. destruct l; simpl; apply _. Defined.

(** The JSON answer of [/api/status]. *)
Record status : Type := mk_status {
  s_wifi_available : bool;
  s_rssi : Z;
  s_raw_rssi : R;
  s_position : R;
  s_room : option string;
  s_direction : string;
  s_method : string;
  s_fp_available : bool;
  s_fp_location : option string;
  s_fp_confidence : R;
  s_fp_candidates : list (string * xreal);
  s_fallback_position : R;
  s_fallback_room : string;
  s_tracking : bool;
  s_trajectory_count : nat
}.

(** [sum(buffer) / len(buffer)] of a buffer that is not empty. *)
Definition mean (buffer : list R) : R := py_sum buffer / INR (length buffer).

(** A rolling buffer and its unweighted mean:
    [buffer.append(x)], the pop, [sum(buffer) / len(buffer)]. *)
Definition smooth (size : nat) (buffer : list R) (x : R) : result (list R * R) :=
  let buffer := push_bounded size buffer x in
  mean ← py_div (py_sum buffer) (INR (length buffer));
  mret (buffer, mean).

(** Minimum-change hysteresis: [(rssi_pos, last_reported_position)]. *)
Definition stabilise (smoothed_pos last_reported_position : R) : R * R :=
  if decide (Rabs (smoothed_pos - last_reported_position) < MIN_POSITION_CHANGE)
  then (last_reported_position, last_reported_position)
  else (smoothed_pos, smoothed_pos).

(** The final decision: [(final_room, final_pos, method)]. *)
Definition fuse (fp_location : option string) (fp_confidence : R)
    (rssi_room : string) (rssi_pos : R) : option string * R * string :=
  if decide (truthy fp_location ∧ fp_confidence >= 0.75)
  then (fp_location,
        default rssi_pos (l ← fp_location; dict_get l ROOM_POSITIONS),
        "fingerprint"%string)
  else (Some rssi_room, rssi_pos, "rssi"%string).

(** Direction hysteresis: [(direction, last_stable_position)]. *)
Definition detect_direction (final_pos last_stable_position : R) : string * R :=
  let diff := final_pos - last_stable_position in
  if decide (Rabs diff >= DIRECTION_THRESHOLD)
  then (if decide (diff > 0) then "forward"%string else "backward"%string, final_pos)
  else ("stay"%string, last_stable_position).

(** The trajectory while tracking: [(trajectory, current)]. *)
Definition record_point (st : state) (now smoothed_rssi final_pos : R)
    (final_room : option string) (method : string) (fp_confidence : R)
  : result (list point * option point) :=
  if active st then
    match start_time st with
    | Some t0 =>
        let elapsed := now - t0 in
        let point :=
          {| p_time := py_round_n elapsed 1;
             p_rssi := py_round smoothed_rssi;
             p_position := py_round_n final_pos 1;
             p_room := final_room;
             p_method := method;
             p_confidence :=
               if decide (method = "fingerprint"%string)
               then Some (py_round_n fp_confidence 2) else None |} in
        mret (trajectory st ++ [point], Some point)
    | None => Raise TypeError
    end
  else mret (trajectory st, current st).

(** One cycle of [/api/status].  [wifi_rssi] is [interface.rssiValue()]
    when an interface exists, [current_pattern] what [scan_rssi_pattern(15)]
    returns, [now] is [time.time()]. *)
Definition get_status (FINGERPRINT_AVAILABLE : bool)
    (fingerprint_db : list (string * fingerprint))
    (wifi_rssi : option R) (current_pattern : list R) (now : R) (st : state)
  : result (status * state) :=
  let raw_rssi := default (-50) wifi_rssi in
  '(rssi_buffer, smoothed_rssi) ← smooth RSSI_BUFFER_SIZE (rssi_buffer st) raw_rssi;
  let '(fp_location, fp_confidence, fp_candidates) :=
    fingerprint_step FINGERPRINT_AVAILABLE fingerprint_db current_pattern in
  raw_pos ← rssi_to_position smoothed_rssi;
  '(position_buffer, smoothed_pos) ←
    smooth POSITION_BUFFER_SIZE (position_buffer st) raw_pos;
  let '(rssi_pos, last_reported_position) :=
    stabilise smoothed_pos (last_reported_position st) in
  let rssi_room := get_nearest_room rssi_pos in
  let '(final_room, final_pos, method) :=
    fuse fp_location fp_confidence rssi_room rssi_pos in
  let '(direction, last_stable_position) :=
    detect_direction final_pos (last_stable_position st) in
  '(trajectory, current) ←
    record_point st now smoothed_rssi final_pos final_room method fp_confidence;
  mret
    ({| s_wifi_available := bool_decide (is_Some wifi_rssi);
        s_rssi := py_round smoothed_rssi;
        s_raw_rssi := raw_rssi;
        s_position := py_round_n final_pos 1;
        s_room := final_room;
        s_direction := direction;
        s_method := method;
        s_fp_available :=
          bool_decide (FINGERPRINT_AVAILABLE = true ∧ (3 ≤ length fingerprint_db)%nat);
        s_fp_location := fp_location;
        s_fp_confidence := py_round_n fp_confidence 2;
        s_fp_candidates := fp_candidates;
        s_fallback_position := py_round_n rssi_pos 1;
        s_fallback_room := rssi_room;
        s_tracking := active st;
        s_trajectory_count := length trajectory |},
     {| active := active st;
        start_time := start_time st;
        trajectory := trajectory;
        current := current;
        rssi_buffer := rssi_buffer;
        position_buffer := position_buffer;
        last_stable_position := last_stable_position;
        last_reported_position := last_reported_position |}).

(** [/api/start], [/api/stop], [/api/clear] *)
Definition start_tracking (now : R) (st : state) : state :=
  {| active := true; start_time := Some now; trajectory := []; current := current st;
     rssi_buffer := rssi_buffer st; position_buffer := position_buffer st;
     last_stable_position := last_stable_position st;
     last_reported_position := last_reported_position st |}.

Definition stop_tracking (st : state) : state :=
  {| active := false; start_time := start_time st; trajectory := trajectory st;
     current := current st;
     rssi_buffer := rssi_buffer st; position_buffer := position_buffer st;
     last_stable_position := last_stable_position st;
     last_reported_position := last_reported_position st |}.

Definition clear_trajectory (st : state) : state :=
  {| active := active st; start_time := start_time st; trajectory := [];
     current := current st;
     rssi_buffer := rssi_buffer st; position_buffer := position_buffer st;
     last_stable_position := last_stable_position st;
     last_reported_position := last_reported_position st |}.
End WebTrack.

(** * Sample data for the worked examples *)

Module Samples.
Import Config Estimator Fingerprint WebTrack.
Local Open Scope R_scope.

(** A stand-in for the external minimiser: it returns its seed. *)
Definition seed_minimizer (objective : position → result R) (initial : position)
  : result position := Ok initial.

Definition fresh_estimator : PositionEstimator := (init "weighted_centroid" ∅).1.

Definition three_beacons : list (string * R) :=
  [("AP-12", -59); ("AP-11", -59); ("AP-XX", -59)].

Definition two_beacons : list (string * R) := [("AP-12", -59); ("AP-11", -59)].

(** An estimator that trilaterates, and a reading of three access points
    that are not on one line, each heard at the reference power. *)
Definition trilateration_estimator : PositionEstimator := (init "trilateration" ∅).1.

Definition spread_beacons : list (string * R) :=
  [("AP-12", -59); ("AP-7413", -59); ("AP-13", -59)].

(** The store after [e = PositionEstimator(); e.add_to_history(1, 2, 3)]. *)
Definition sample_heap : heap :=
  add_to_history fresh_estimator 1 2 3 (init "weighted_centroid" ∅).2.

(** Two rooms that were recorded with the same signature. *)
Definition room_a : fingerprint :=
  {| fp_location := "7411"; fp_pattern := [50; 60]; fp_samples := 10 |}.
Definition room_b : fingerprint :=
  {| fp_location := "7412"; fp_pattern := [50; 60]; fp_samples := 10 |}.
Definition twin_db : list (string * fingerprint) := [("7411", room_a); ("7412", room_b)].

(** Three rooms with signatures of their own. *)
Definition corridor_db : list (string * fingerprint) :=
  [ ("7411", {| fp_location := "7411"; fp_pattern := [50; 60]; fp_samples := 10 |});
    ("7409", {| fp_location := "7409"; fp_pattern := [70; 80]; fp_samples := 10 |});
    ("7405", {| fp_location := "7405"; fp_pattern := [90; 95]; fp_samples := 10 |}) ].

(** Three records, the first one stored under the empty label. *)
Definition unnamed_db : list (string * fingerprint) :=
  [ ("", {| fp_location := ""; fp_pattern := [50; 60]; fp_samples := 10 |});
    ("7411", {| fp_location := "7411"; fp_pattern := [70; 80]; fp_samples := 10 |});
    ("7412", {| fp_location := "7412"; fp_pattern := [90; 95]; fp_samples := 10 |}) ].
End Samples.

(** * position_estimator.py: the module-level helper *)

Module Geometry.
Import Estimator.
Local Open Scope R_scope.

Definition calculate_distance (pos1 pos2 : position) : R :=
  sqrt ((pos1.1 - pos2.1) ^ 2 + (pos1.2 - pos2.2) ^ 2).
End Geometry.

(** * fingerprint_engine.py: scanning, collection and the store *)

Module FingerprintStore.
Import Fingerprint.
Local Open Scope R_scope.

(** [if rssi and rssi > -100] *)
Definition usable (rssi : Z) : Prop := rssi ≠ 0%Z ∧ (-100 < rssi)%Z.

#[global] Instance usable_dec (rssi : Z) : Decision (usable rssi).
Proof. unfold usable. apply _. Defined.

(** The order of [rssi_list.sort(reverse=True)]: the stronger signal first. *)
Definition stronger (a b : Z) : Prop := (b < a)%Z.

#[global] Instance stronger_dec : RelDecision stronger.
Proof. intros a b. unfold stronger. apply _. Defined.

(** [scan_rssi_pattern(top_n)].  [networks] is [None] when there is no
    interface or the scan raised, and otherwise the [rssiValue()] of the
    networks that the interface listed. *)
Definition scan_rssi_pattern (networks : option (list Z)) (top_n : Z) : list Z :=
  match networks with
  | None => []
  | Some networks =>
      let rssi_list := filter usable networks in
      let rssi_list := sort_by (λ rssi : Z, rssi) stronger rssi_list in
      py_prefix top_n rssi_list
  end.

(** One rank of the averaged pattern: the values of the patterns that are
    long enough, and the rounded mean when there is a value. *)
Definition average_rank (all_patterns : list (list Z)) (i : nat) : result (option Z) :=
  let values := omap (λ p : list Z, p !! i) all_patterns in
  if decide (empty_list values) then mret None
  else
    avg ← py_div (IZR (foldl Z.add 0%Z values)) (INR (length values));
    mret (Some (py_round avg)).

Definition average_pattern (all_patterns : list (list Z)) (top_n : Z) : result (list Z) :=
  foldM (λ avg_pattern i,
           r ← average_rank all_patterns i;
           mret (match r with
                 | Some v => avg_pattern ++ [v]
                 | None => avg_pattern
                 end))
        [] (seq 0 (Z.to_nat top_n)).

(** [collect_fingerprint(location, samples, top_n)]; [scans] are the
    patterns that the [samples] calls of [scan_rssi_pattern] returned. *)
Definition collect_fingerprint (location : string) (scans : list (list Z)) (top_n : Z)
  : result (option fingerprint) :=
  let all_patterns := filter (λ p : list Z, ¬ empty_list p) scans in
  if decide (empty_list all_patterns) then mret None
  else
    avg_pattern ← average_pattern all_patterns top_n;
    mret (Some {| fp_location := location;
                  fp_pattern := IZR <$> avg_pattern;
                  fp_samples := Z.of_nat (length scans) |}).

(** [fingerprint_db[location] = fingerprint] (the write to disk is not modelled) *)
Definition add_fingerprint (fingerprint_db : list (string * fingerprint))
    (location : string) (fp : fingerprint) : list (string * fingerprint) :=
  dict_set location fp fingerprint_db.

Record db_stats : Type := mk_db_stats {
  stats_count : nat;
  stats_locations : list string;
  stats_total_samples : option Z
}.

Definition get_db_stats (fingerprint_db : list (string * fingerprint)) : db_stats :=
  if decide (empty_list fingerprint_db) then
    {| stats_count := 0; stats_locations := []; stats_total_samples := None |}
  else
    {| stats_count := length fingerprint_db;
       stats_locations := fingerprint_db.*1;
       stats_total_samples := Some (foldl Z.add 0%Z (fp_samples <$> fingerprint_db.*2)) |}.
End FingerprintStore.

(** * web_track.py: sessions and the statistics of a saved trajectory *)

Module Session.
Import Fingerprint WebTrack.
Local Open Scope R_scope.

(** The states a running server can be in: the globals as loaded, changed
    by the endpoints only, one request at a time. *)
Inductive reachable_state : state → Prop :=
  | reach_initial : reachable_state initial_state
  | reach_status avail db wifi_rssi scan now st out st' :
      reachable_state st →
      get_status avail db wifi_rssi scan now st = Ok (out, st') →
      reachable_state st'
  | reach_start now st : reachable_state st → reachable_state (start_tracking now st)
  | reach_stop st : reachable_state st → reachable_state (stop_tracking st)
  | reach_clear_trajectory st : reachable_state st → reachable_state (clear_trajectory st).

(** [min(l)] and [max(l)] of a list that is not empty: the first smallest
    and the first largest item. *)
Definition py_min (l : list R) : option R :=
  match l with
  | [] => None
  | x :: l' => Some (foldl (λ m y, if decide (y < m) then y else m) x l')
  end.

Definition py_max (l : list R) : option R :=
  match l with
  | [] => None
  | x :: l' => Some (foldl (λ m y, if decide (y > m) then y else m) x l')
  end.

(** [list(dict.fromkeys(l))]: the items of [l] without repetition, in the
    order of their first occurrence. *)
Definition py_fromkeys {A} `{EqDecision A} (l : list A) : list A :=
  foldl (λ keys k, if decide (k ∈ keys) then keys else keys ++ [k]) [] l.

Record track_stats : Type := mk_track_stats {
  min_position : R;
  max_position : R;
  total_distance : R;
  rooms_visited : list (option string);
  point_count : nat
}.

(** The [stats] of [save_trajectory]; [None] is the empty dictionary. *)
Definition trajectory_stats (traj : list point) : option track_stats :=
  if decide (empty_list traj) then None
  else
    let positions := p_position <$> traj in
    lo ← py_min positions;
    hi ← py_max positions;
    Some {| min_position := lo;
            max_position := hi;
            total_distance := hi - lo;
            rooms_visited := py_fromkeys (p_room <$> traj);
            point_count := length traj |}.
End Session.

(** * realtime_track.py *)

Module RealtimeTrack.
Local Open Scope R_scope.

Definition CALIBRATION : list (string * R * R) :=
  [ ("7413", -38, 0.0);
    ("7411", -56, 16.2);
    ("7408", -58, 27.2);
    ("7405", -63, 38.2);
    ("7401", -68, 51.7) ].

Definition ROOM_POSITIONS : list (string * R) :=
  [ ("7413", 0.0);
    ("7412", 12.2);
    ("7411", 16.2);
    ("7410", 19.8);
    ("7409", 23.5);
    ("7408", 27.2);
    ("7407", 30.9);
    ("7406", 34.6);
    ("7405", 38.2);
    ("7404", 41.9);
    ("7403", 45.5);
    ("7401", 49.6) ].

(** The same text as in web_track.py, over this file's table. *)
Definition rssi_to_position (rssi : R) : result R :=
  let rssi_list := map (λ c, snd (fst c)) CALIBRATION in
  let pos_list := map (λ c, snd c) CALIBRATION in
  first_rssi ← py_index rssi_list 0;
  if decide (rssi >= first_rssi) then py_index pos_list 0
  else
    last_rssi ← py_last rssi_list;
    if decide (rssi <= last_rssi) then
      last_pos ← py_last pos_list;
      mret (last_pos + (last_rssi - rssi) * 1.0)
    else
      found ← WebTrack.interpolate rssi rssi_list pos_list (seq 0 (length rssi_list - 1));
      match found with
      | Some p => mret p
      | None => mret 0
      end.

(** [return nearest, min_dist] *)
Definition get_nearest_room (pos : R) : string * xreal :=
  let '(min_dist, nearest) :=
    foldl (λ '(min_dist, nearest) '(room, room_pos),
             let dist := Rabs (pos - room_pos) in
             if decide (xlt (Fin dist) min_dist) then (Fin dist, room)
             else (min_dist, nearest))
          (PInf, "7413"%string) ROOM_POSITIONS in
  (nearest, min_dist).

End RealtimeTrack.

(** * ble_scanner.py: the simulated scanner *)

Module Simulator.
Import Config Estimator.
Local Open Scope R_scope.

(** [math.log10] *)
Definition log10 (x : R) : R := ln x / ln 10.

(** The RSSI that [SimulatedScanner.scan_sync] produces for one access
    point; [noise] is the draw of [random.gauss(0, 3)]. *)
Definition simulated_rssi (current_position ap : position) (noise : R) : R :=
  let '(x, y) := current_position in
  let '(ap_x, ap_y) := ap in
  let distance := sqrt ((x - ap_x) ^ 2 + (y - ap_y) ^ 2) in
  let distance := if decide (distance < 0.5) then 0.5 else distance in
  let tx_power := -59 in
  let path_loss := 2.5 in
  let rssi := tx_power - 10 * path_loss * log10 distance in
  let rssi := rssi + noise in
  Rmax (Rmin rssi (-30)) RSSI_MIN.

End Simulator.

(** * config.py: the nearest room *)

Module Rooms.
Import Estimator Fingerprint.
Local Open Scope R_scope.

Section WithCentroids.
(** [ROOM_CENTROIDS], the items of the dictionary read from
    room/rooms_coords_7415_origin.json, a file that is not part of the
    sources: any table. *)
Variable ROOM_CENTROIDS : list (string * position).

Definition get_nearest_room (x y : R) : option string :=
  if decide (empty_list ROOM_CENTROIDS) then None
  else
    snd (foldl (λ '(min_dist, nearest_room) '(room_num, centroid),
                  let dist := sqrt ((x - centroid.1) ^ 2 + (y - centroid.2) ^ 2) in
                  if decide (xlt (Fin dist) min_dist) then (Fin dist, Some room_num)
                  else (min_dist, nearest_room))
               (PInf, None) ROOM_CENTROIDS).
End WithCentroids.

End Rooms.

(** * More sample data *)

Module MoreSamples.
Import Config Estimator Fingerprint WebTrack.
Local Open Scope R_scope.

(** The distances from the point (5, 3.1) to AP-12, AP-7413 and AP-11. *)
Definition corner_table : list (string * R) :=
  [("AP-12", 0.4); ("AP-7413", 4.1); ("AP-11", sqrt 412.25)].
End MoreSamples.

(* ===================================================================== *)
(** * Properties *)
(* ===================================================================== *)

(** ** Basic facts about the Python primitives *)

Section Primitives.
Local Open Scope R_scope.

Lemma py_div_ok (a b : R) : b ≠ 0 → py_div a b = Ok (a / b).
Proof. intros Hb. unfold py_div. by rewrite decide_False. Qed.

Lemma foldM_cons_ok {A B} (f : B → A → result B) (acc acc' : B) (x : A) (l : list A) :
  f acc x = Ok acc' → foldM f acc (x :: l) = foldM f acc' l.
Proof. intros Hstep. simpl. by rewrite Hstep. Qed.

Example dict_set_existing :
  dict_set "b" 9%nat [("a", 1%nat); ("b", 2%nat); ("c", 3%nat)]
  = [("a", 1%nat); ("b", 9%nat); ("c", 3%nat)].
Proof. reflexivity. Qed.

Example dict_set_new :
  dict_set "z" 9%nat [("a", 1%nat); ("b", 2%nat)]
  = [("a", 1%nat); ("b", 2%nat); ("z", 9%nat)].
Proof. reflexivity. Qed.

Example py_prefix_examples :
  py_prefix 3 [1; 2; 3; 4; 5]%nat = [1; 2; 3]%nat ∧
  py_prefix (-2) [1; 2; 3; 4; 5]%nat = [1; 2; 3]%nat ∧
  py_prefix 0 [1; 2]%nat = [] ∧
  py_prefix (-7) [1; 2]%nat = [].
Proof. repeat split; reflexivity. Qed.

(** Equal keys keep the order in which they stood. *)
Example sort_by_is_stable :
  sort_by fst Nat.lt [(2, "a"); (1, "b"); (2, "c"); (1, "d"); (0, "e")]%nat
  = [(0, "e"); (1, "b"); (1, "d"); (2, "a"); (2, "c")]%nat.
Proof. reflexivity. Qed.

Lemma py_round_IZR (z : Z) : py_round (IZR z) = z.
Proof.
  unfold py_round.
  replace (Int_part (IZR z)) with z by (apply Int_part_spec; lra).
  rewrite decide_True by lra. reflexivity.
Qed.

(** Ties go to the even neighbour: [round(2.5) == 2], [round(3.5) == 4]. *)
Example py_round_half_even : py_round (5 / 2) = 2%Z ∧ py_round (7 / 2) = 4%Z.
Proof.
  unfold py_round. split.
  - replace (Int_part (5 / 2)) with 2%Z by (apply Int_part_spec; lra).
    rewrite decide_False by lra. rewrite decide_False by lra. reflexivity.
  - replace (Int_part (7 / 2)) with 3%Z by (apply Int_part_spec; lra).
    rewrite decide_False by lra. rewrite decide_False by lra. reflexivity.
Qed.
End Primitives.

(** ** Stable sorting *)

Section StableSortProperties.
Context {A K : Type} (key : A → K) (lt : K → K → Prop) `{!RelDecision lt}.

Lemma insert_sorted_perm (x : A) (l : list A) : insert_sorted key lt x l ≡ₚ x :: l.
Proof.
  induction l as [| y l IH]; simpl; [done |].
  case_decide; [| done].
  rewrite IH. apply Permutation_swap.
Qed.

Lemma sort_by_perm (l : list A) : sort_by key lt l ≡ₚ l.
Proof.
  induction l as [| x l IH]; simpl; [done |].
  by rewrite insert_sorted_perm, IH.
Qed.

(** An element that no later element beats, and that beats every earlier
    element strictly, comes first. *)
Lemma sort_by_head (l1 : list A) (x : A) (l2 : list A) :
  (∀ y, y ∈ l1 → lt (key x) (key y)) →
  (∀ y, y ∈ l2 → ¬ lt (key y) (key x)) →
  ∃ rest, sort_by key lt (l1 ++ x :: l2) = x :: rest.
Proof.
  intros Hbefore Hafter.
  induction l1 as [| a l1 IH]; simpl.
  - destruct (sort_by key lt l2) as [| y s] eqn:Hs; simpl; [by eexists |].
    rewrite decide_False; [by eexists |].
    apply Hafter. rewrite <- (sort_by_perm l2), Hs. left.
  - destruct IH as [rest ->].
    { intros y Hy. apply Hbefore. by right. }
    simpl. rewrite decide_True by (apply Hbefore; left).
    by eexists.
Qed.

Lemma py_prefix_cons (k : Z) (x : A) (l : list A) :
  (0 < k)%Z → py_prefix k (x :: l) = x :: take (Z.to_nat (k - 1)) l.
Proof.
  intros Hk. unfold py_prefix. rewrite decide_True by lia.
  replace (Z.to_nat k) with (S (Z.to_nat (k - 1))) by lia. reflexivity.
Qed.
End StableSortProperties.

(** The first element of a list with a decidable property. *)
Lemma first_match_split {A} (P : A → Prop) `{!∀ x, Decision (P x)} (l : list A) :
  Exists P l →
  ∃ l1 x l2, l = l1 ++ x :: l2 ∧ P x ∧ ∀ y, y ∈ l1 → ¬ P y.
Proof.
  induction l as [| a l IH]; intros Hex; [by apply Exists_nil in Hex |].
  destruct (decide (P a)) as [Ha | Hna].
  - exists [], a, l. split; [done |]. split; [done |]. intros y Hy. by apply elem_of_nil in Hy.
  - apply Exists_cons in Hex as [Ha | Hex]; [done |].
    destruct (IH Hex) as (l1 & x & l2 & -> & Hx & Hl1).
    exists (a :: l1), x, l2. split; [done |]. split; [done |].
    intros y [-> | Hy]%elem_of_cons; auto.
Qed.

(** ** The distance model *)

Section DistanceModel.
Import Config.
Local Open Scope R_scope.

Lemma Rpower_10_three_halves : 30 <= Rpower 10 (3 / 2).
Proof.
  replace (3 / 2) with (1 + / 2) by lra.
  rewrite Rpower_plus, Rpower_1, Rpower_sqrt by lra.
  assert (H3 : 3 <= sqrt 10).
  { rewrite <- (sqrt_square 3) by lra. apply sqrt_le_1; lra. }
  lra.
Qed.

Lemma Rpower_10_mono (a b : R) : a <= b → Rpower 10 a <= Rpower 10 b.
Proof. intros Hab. apply Rle_Rpower; lra. Qed.

Lemma Rpower_10_pos (a : R) : 0 < Rpower 10 a.
Proof. unfold Rpower. apply exp_pos. Qed.

Lemma Rpower_10_minus_three : Rpower 10 (-3) = / 1000.
Proof.
  replace (-3) with (- INR 3) by (simpl; lra).
  rewrite Rpower_Ropp, Rpower_pow by lra. f_equal. simpl. lra.
Qed.

(** Inside the open interval the model is the clamped power law. *)
Lemma rssi_to_distance_inside (rssi : R) :
  RSSI_MIN <= rssi → rssi < 0 →
  rssi_to_distance rssi = Rmin (Rpower 10 ((TX_POWER - rssi) / 25)) MAX_DISTANCE.
Proof.
  intros Hlo Hhi. unfold rssi_to_distance.
  case_decide as Hc; [destruct Hc; lra |].
  unfold PATH_LOSS_EXPONENT. do 2 f_equal. lra.
Qed.

(** C5: every RSSI that is non-negative, or at or below the floor
    [RSSI_MIN = -100], is mapped to exactly [MAX_DISTANCE = 30]. *)
Theorem rssi_to_distance_out_of_range (rssi : R) :
  rssi >= 0 ∨ rssi <= RSSI_MIN → rssi_to_distance rssi = MAX_DISTANCE.
Proof.
  intros Hr. unfold rssi_to_distance.
  case_decide as Hc; [reflexivity |].
  assert (Heq : rssi = RSSI_MIN).
  { unfold RSSI_MIN in *. destruct Hr as [Hr | Hr]; [exfalso; apply Hc; by left |].
    destruct (Rlt_dec rssi (-100)) as [Hlt | Hge]; [exfalso; apply Hc; by right | lra]. }
  subst rssi. simpl. apply Rmin_right.
  unfold TX_POWER, RSSI_MIN, PATH_LOSS_EXPONENT, MAX_DISTANCE.
  pose proof Rpower_10_three_halves as H30.
  pose proof (Rpower_10_mono (3 / 2) ((-59 - -100) / (10 * 2.5))) as Hmono.
  lra.
Qed.

Lemma rssi_to_distance_out_of_range_witness :
  rssi_to_distance (-100) = MAX_DISTANCE ∧ rssi_to_distance 0 = MAX_DISTANCE.
Proof.
  split.
  - apply (rssi_to_distance_out_of_range (-100)). right. unfold RSSI_MIN. lra.
  - apply (rssi_to_distance_out_of_range 0). left. lra.
Defined.

(** C6: between the floor and 0 the modelled distance never increases
    when the signal gets stronger. *)
Theorem rssi_to_distance_antitone (r1 r2 : R) :
  RSSI_MIN < r1 → r1 < r2 → r2 < 0 →
  rssi_to_distance r1 >= rssi_to_distance r2.
Proof.
  intros H1 H12 H2.
  rewrite !rssi_to_distance_inside by lra.
  apply Rle_ge, Rle_min_compat_r, Rpower_10_mono.
  unfold TX_POWER. lra.
Qed.

Lemma rssi_to_distance_antitone_witness :
  rssi_to_distance (-70) >= rssi_to_distance (-50).
Proof.
  apply (rssi_to_distance_antitone (-70) (-50)); unfold RSSI_MIN; lra.
Defined.

(** C7: the model has a positive sub-metre floor: no RSSI whatsoever is
    mapped below it, so no distance is zero or negative. *)
Theorem rssi_to_distance_floor :
  ∃ floor : R, 0 < floor ∧ floor < 1 ∧
    ∀ rssi : R, floor <= rssi_to_distance rssi.
Proof.
  exists (/ 1000). split; [lra |]. split; [lra |].
  intros rssi. unfold rssi_to_distance.
  case_decide as Hc; [unfold MAX_DISTANCE; lra |].
  simpl. apply Rmin_glb; [| unfold MAX_DISTANCE; lra].
  rewrite <- Rpower_10_minus_three. apply Rpower_10_mono.
  unfold TX_POWER, PATH_LOSS_EXPONENT.
  assert (rssi < 0) by (destruct (Rlt_dec rssi 0); [done | exfalso; apply Hc; left; lra]).
  lra.
Qed.
End DistanceModel.

(** ** The geometric estimator *)

Section EstimatorProperties.
Import Config Estimator.
Local Open Scope R_scope.

Variable minimize : (position → result R) → position → result position.

Lemma dict_set_length_le {V} (k : string) (v : V) (d : list (string * V)) :
  (length (dict_set k v d) ≤ S (length d))%nat.
Proof.
  induction d as [| [k' v'] d IH]; simpl; [lia |].
  case_decide; simpl; lia.
Qed.

Lemma distance_step_valid (distances : list (string * R)) (item : string * R) :
  distance_step distances item =
    if decide (valid_entry item)
    then dict_set item.1 (rssi_to_distance item.2) distances
    else distances.
Proof.
  destruct item as [ap_name rssi]. unfold distance_step, valid_entry. simpl.
  repeat case_decide; try reflexivity; tauto.
Qed.

Lemma distance_step_filtered (distances : list (string * R)) (item : string * R) :
  ¬ valid_entry item → distance_step distances item = distances.
Proof. intros Hn. rewrite distance_step_valid. by rewrite decide_False. Qed.

(** The distance table never has more entries than the reading has
    entries passing the filter. *)
Lemma compute_distances_length (rssi_dict : list (string * R)) :
  (length (compute_distances rssi_dict) ≤ length (filter valid_entry rssi_dict))%nat.
Proof.
  unfold compute_distances.
  enough (Hgen : ∀ acc, (length (foldl distance_step acc rssi_dict)
                          ≤ length acc + length (filter valid_entry rssi_dict))%nat)
    by (specialize (Hgen []); simpl in Hgen; lia).
  induction rssi_dict as [| item rest IH]; intros acc; [simpl; lia |].
  change (foldl distance_step acc (item :: rest))
    with (foldl distance_step (distance_step acc item) rest).
  etransitivity; [apply IH |].
  rewrite distance_step_valid, filter_cons.
  case_decide; simpl; [| lia].
  pose proof (dict_set_length_le item.1 (rssi_to_distance item.2) acc). lia.
Qed.

Lemma dict_set_fresh {V} (k : string) (v : V) (d : list (string * V)) :
  k ∉ d.*1 → dict_set k v d = d ++ [(k, v)].
Proof.
  induction d as [| [k' v'] d IH]; simpl; [done |].
  intros Hk. apply not_elem_of_cons in Hk as [Hne Hk].
  rewrite decide_False by done. by rewrite IH.
Qed.

(** For a reading with distinct keys, as the items of a dictionary are, the
    distance table has exactly one entry per entry passing the filter, in
    the order of the reading. *)
Lemma compute_distances_distinct (rssi_dict : list (string * R)) :
  NoDup rssi_dict.*1 →
  compute_distances rssi_dict
  = (λ item, (item.1, rssi_to_distance item.2)) <$> filter valid_entry rssi_dict.
Proof.
  unfold compute_distances.
  enough (Hgen : ∀ acc, NoDup rssi_dict.*1 → (∀ k, k ∈ acc.*1 → k ∉ rssi_dict.*1) →
            foldl distance_step acc rssi_dict
            = acc ++ ((λ item, (item.1, rssi_to_distance item.2))
                        <$> filter valid_entry rssi_dict)).
  { intros Hnodup. apply (Hgen [] Hnodup). intros k Hk. by apply elem_of_nil in Hk. }
  induction rssi_dict as [| item rest IH]; intros acc Hnodup Hdisj.
  - simpl. by rewrite app_nil_r.
  - change (foldl distance_step acc (item :: rest))
      with (foldl distance_step (distance_step acc item) rest).
    rewrite fmap_cons in Hnodup. apply NoDup_cons in Hnodup as [Hitem Hnodup].
    rewrite distance_step_valid, filter_cons.
    case_decide as Hvalid.
    + rewrite dict_set_fresh.
      2: { intros Hin. apply (Hdisj _ Hin). rewrite fmap_cons. left. }
      rewrite IH; [by rewrite <- app_assoc | done |].
      intros k Hk. rewrite fmap_app in Hk. apply elem_of_app in Hk as [Hk | Hk].
      * specialize (Hdisj k Hk). rewrite fmap_cons in Hdisj.
        by apply not_elem_of_cons in Hdisj as [_ ?].
      * simpl in Hk. apply list_elem_of_singleton in Hk. by subst k.
    + apply IH; [done |].
      intros k Hk. specialize (Hdisj k Hk). rewrite fmap_cons in Hdisj.
      by apply not_elem_of_cons in Hdisj as [_ ?].
Qed.

(** So for such a reading the test [len(distances) < MIN_AP_FOR_TRILATERATION]
    counts the entries passing the filter. *)
Lemma insufficient_iff_few_valid (rssi_dict : list (string * R)) :
  NoDup rssi_dict.*1 →
  (length (compute_distances rssi_dict) < MIN_AP_FOR_TRILATERATION)%nat
  ↔ (length (filter valid_entry rssi_dict) < MIN_AP_FOR_TRILATERATION)%nat.
Proof.
  intros Hnodup. by rewrite compute_distances_distinct, length_fmap.
Qed.

(** C2: when fewer than [MIN_AP_FOR_TRILATERATION] entries of the reading
    are known access points with a valid distance below [MAX_DISTANCE],
    [estimate] returns normally, with the cached last-known position
    ([None] when nothing was cached) and the estimator unchanged. *)
Theorem estimate_insufficient_beacons (self : PositionEstimator)
    (rssi_dict : list (string * R)) :
  (length (filter valid_entry rssi_dict) < MIN_AP_FOR_TRILATERATION)%nat →
  estimate minimize self rssi_dict = Ok (last_position self, self).
Proof.
  intros Hfew. unfold estimate.
  pose proof (compute_distances_length rssi_dict) as Hlen.
  rewrite decide_True by lia. reflexivity.
Qed.

(** An entry that the filter rejects leaves no trace in the distance table. *)
Lemma compute_distances_ignores_filtered (before after : list (string * R))
    (ap_name : string) (rssi : R) :
  rssi <= -100 ∨ AP_POSITIONS !! ap_name = None →
  compute_distances (before ++ (ap_name, rssi) :: after)
  = compute_distances (before ++ after).
Proof.
  intros Hfiltered.
  unfold compute_distances. rewrite !foldl_app.
  change (foldl distance_step ?acc ((ap_name, rssi) :: after))
    with (foldl distance_step (distance_step acc (ap_name, rssi)) after).
  rewrite distance_step_filtered; [reflexivity |].
  unfold valid_entry. simpl. intros (Hgt & Hknown & _).
  destruct Hfiltered as [Hle | Hnone]; [lra |].
  rewrite Hnone in Hknown. by destruct Hknown.
Qed.

(** C8: an entry that the filter of [estimate] rejects, wherever it stands
    in the reading, changes neither the returned position nor the
    estimator after the call. *)
Theorem estimate_ignores_filtered (self : PositionEstimator)
    (before after : list (string * R)) (ap_name : string) (rssi : R) :
  rssi <= -100 ∨ AP_POSITIONS !! ap_name = None →
  estimate minimize self (before ++ (ap_name, rssi) :: after)
  = estimate minimize self (before ++ after).
Proof.
  intros Hfiltered. unfold estimate.
  by rewrite (compute_distances_ignores_filtered before after ap_name rssi Hfiltered).
Qed.

(** The same for the assignment [rssi_dict[ap_name] = rssi] of a new key. *)
Lemma estimate_ignores_assignment (self : PositionEstimator)
    (rssi_dict : list (string * R)) (ap_name : string) (rssi : R) :
  ap_name ∉ rssi_dict.*1 →
  rssi <= -100 ∨ AP_POSITIONS !! ap_name = None →
  estimate minimize self (dict_set ap_name rssi rssi_dict)
  = estimate minimize self rssi_dict.
Proof.
  intros Hnew Hfiltered. rewrite dict_set_fresh by done. unfold estimate.
  rewrite (compute_distances_ignores_filtered rssi_dict [] ap_name rssi Hfiltered).
  by rewrite app_nil_r.
Qed.

Lemma clamp_in_bounds (p : position) : in_bounds (clamp p).
Proof.
  unfold in_bounds, clamp, MAP_BOUNDS, MAP_WIDTH, MAP_HEIGHT. simpl.
  split; split.
  - apply Rmax_l.
  - apply Rmax_lub; [lra | apply Rmin_r].
  - apply Rmax_l.
  - apply Rmax_lub; [lra | apply Rmin_r].
Qed.

(** What [estimate] leaves in the cache is what it returned, whenever it
    returned a position. *)
Lemma estimate_cached (self self' : PositionEstimator)
    (rssi_dict : list (string * R)) (p : position) :
  estimate minimize self rssi_dict = Ok (Some p, self') →
  last_position self' = Some p ∧ (in_bounds p ∨ last_position self = Some p).
Proof.
  unfold estimate. case_decide as Hfew.
  - intros [= Hp <-]. split; [exact Hp | right; exact Hp].
  - destruct (if decide (method self = "weighted_centroid") then _ else _)
      as [[q |] | e]; simpl; intros [= <- <-].
    split; [reflexivity | left; apply clamp_in_bounds].
Qed.

(** The cache of a reachable estimator is empty or inside the bounds. *)
Lemma reachable_cache_in_bounds (self : PositionEstimator) :
  reachable minimize self →
  ∀ p, last_position self = Some p → in_bounds p.
Proof.
  induction 1 as [m h | self rssi_dict out self' Hreach IH Hest | self h Hreach IH];
    intros p Hp; [discriminate Hp | | discriminate Hp].
  destruct out as [q |].
  - apply estimate_cached in Hest as (Hq & [Hin | Hold]).
    + congruence.
    + rewrite Hq in Hp. injection Hp as <-. by apply IH.
  - revert Hest. unfold estimate. case_decide.
    + intros [= _ <-]. by apply IH.
    + destruct (if decide (method self = "weighted_centroid") then _ else _)
        as [[q |] | e]; simpl; intros [= <-]. by apply IH.
Qed.

(** *** Never rejected: with enough beacons a position is always produced *)

Lemma rssi_to_distance_pos (rssi : R) : 0 < rssi_to_distance rssi.
Proof.
  unfold rssi_to_distance. case_decide; [unfold MAX_DISTANCE; lra |].
  apply Rmin_glb_lt; [apply exp_pos | unfold MAX_DISTANCE; lra].
Qed.

Lemma dict_set_Forall {V} (P : string * V → Prop) (k : string) (v : V)
    (d : list (string * V)) :
  P (k, v) → Forall P d → Forall P (dict_set k v d).
Proof.
  intros Hkv. induction 1 as [| [k' v'] d Hhd Htl IH]; simpl.
  - by apply Forall_singleton.
  - case_decide; by apply Forall_cons.
Qed.

Lemma compute_distances_ok (rssi_dict : list (string * R)) :
  Forall beacon_ok (compute_distances rssi_dict).
Proof.
  unfold compute_distances.
  enough (Hgen : ∀ acc, Forall beacon_ok acc →
                        Forall beacon_ok (foldl distance_step acc rssi_dict))
    by (apply Hgen, Forall_nil_2).
  induction rssi_dict as [| item rest IH]; intros acc Hacc; [done |].
  change (foldl distance_step acc (item :: rest))
    with (foldl distance_step (distance_step acc item) rest).
  apply IH. rewrite distance_step_valid.
  case_decide as Hvalid; [| done].
  apply dict_set_Forall; [| done].
  destruct Hvalid as (_ & Hknown & _). split; [done | apply rssi_to_distance_pos].
Qed.

Lemma lookup_ap_known (ap_name : string) (p : position) :
  AP_POSITIONS !! ap_name = Some p → lookup_ap ap_name = Ok p.
Proof. intros Hp. unfold lookup_ap. by rewrite Hp. Qed.

Lemma centroid_step_ok (tw wx wy : R) (ap_name : string) (d : R) (p : position) :
  d > 0 → AP_POSITIONS !! ap_name = Some p →
  centroid_step (tw, wx, wy) (ap_name, d)
  = Ok (tw + 1 / d ^ 2, wx + p.1 * (1 / d ^ 2), wy + p.2 * (1 / d ^ 2)).
Proof.
  intros Hd Hp. unfold centroid_step.
  rewrite decide_True by done.
  rewrite py_div_ok by (apply pow_nonzero; lra).
  rewrite (lookup_ap_known _ _ Hp). by destruct p.
Qed.

(** The loop of [_weighted_centroid] never raises on a distance table, and
    every entry adds a positive weight. *)
Lemma centroid_loop_ok (distances : list (string * R)) :
  Forall beacon_ok distances →
  ∀ tw wx wy, ∃ tw' wx' wy',
    foldM centroid_step (tw, wx, wy) distances = Ok (tw', wx', wy') ∧
    tw <= tw' ∧ (distances ≠ [] → tw < tw').
Proof.
  induction 1 as [| [ap_name d] distances [[p Hp] Hd] Hrest IH]; intros tw wx wy.
  - exists tw, wx, wy. simpl. split; [done |]. split; [lra | done].
  - simpl in Hp, Hd.
    rewrite (foldM_cons_ok _ _ _ _ _ (centroid_step_ok tw wx wy ap_name d p Hd Hp)).
    destruct (IH (tw + 1 / d ^ 2) (wx + p.1 * (1 / d ^ 2)) (wy + p.2 * (1 / d ^ 2)))
      as (tw' & wx' & wy' & -> & Hle & _).
    exists tw', wx', wy'. split; [done |].
    assert (0 < 1 / d ^ 2).
    { apply Rdiv_lt_0_compat; [lra | apply pow_lt; lra]. }
    split; [lra | intros _; lra].
Qed.

Lemma weighted_centroid_returns (distances : list (string * R)) :
  Forall beacon_ok distances → distances ≠ [] →
  ∃ p, _weighted_centroid distances = Ok (Some p).
Proof.
  intros Hok Hne. unfold _weighted_centroid.
  destruct (centroid_loop_ok distances Hok 0 0 0) as (tw & wx & wy & -> & _ & Hpos).
  specialize (Hpos Hne). simpl.
  rewrite decide_True by lra. rewrite !py_div_ok by lra. by eexists.
Qed.

Lemma mapM_result_ok {A B} (f : A → result B) (l : list A) :
  Forall (λ x, ∃ y, f x = Ok y) l →
  ∃ ys, mapM f l = Ok ys ∧ length ys = length l.
Proof.
  induction 1 as [| x l [y Hy] Hl (ys & IH & Hlen)]; simpl.
  - by exists [].
  - rewrite Hy. simpl. rewrite IH. simpl. exists (y :: ys). simpl. by rewrite Hlen.
Qed.

Lemma solve_circles_ok (p1 p2 p3 : position * R) :
  ∃ r, solve_circles p1 p2 p3 = Ok r.
Proof.
  destruct p1 as [[x1 y1] r1], p2 as [[x2 y2] r2], p3 as [[x3 y3] r3].
  unfold solve_circles. case_decide as Hdet; [by eexists |].
  rewrite !py_div_ok by done. by eexists.
Qed.

Lemma trilateration_returns (distances : list (string * R)) :
  Forall beacon_ok distances → distances ≠ [] →
  ∃ p, _trilateration distances = Ok (Some p).
Proof.
  intros Hok Hne. unfold _trilateration.
  pose proof (weighted_centroid_returns distances Hok Hne) as [c Hc].
  case_decide as Hshort; [by exists c |].
  destruct (mapM_result_ok
              (λ '(ap_name, dist), p ← lookup_ap ap_name; mret (p, dist))
              (take 3 (sort_by snd Rlt distances))) as (points & -> & Hlen).
  { apply Forall_take. rewrite (sort_by_perm snd Rlt distances).
    eapply Forall_impl; [exact Hok |].
    intros [ap_name d] [[p Hp] _]. simpl in Hp.
    rewrite (lookup_ap_known _ _ Hp). by eexists. }
  simpl.
  destruct points as [| p1 [| p2 [| p3 points]]]; simpl in Hlen; try lia.
  destruct (solve_circles_ok p1 p2 p3) as [[q |] ->]; simpl.
  - by exists q.
  - rewrite Hc. by exists c.
Qed.

(** With at least [MIN_AP_FOR_TRILATERATION] entries in the distance table
    the centroid and trilateration methods always produce a position, which
    [estimate] clamps, returns and caches. *)
Lemma estimate_returns_clamped (self : PositionEstimator) (rssi_dict : list (string * R)) :
  method self ≠ "least_squares"%string →
  (MIN_AP_FOR_TRILATERATION ≤ length (compute_distances rssi_dict))%nat →
  ∃ p, estimate minimize self rssi_dict
       = Ok (Some (clamp p), set_last_position self (Some (clamp p))).
Proof.
  intros Hmethod Henough. unfold estimate.
  rewrite decide_False by lia.
  pose proof (compute_distances_ok rssi_dict) as Hok.
  assert (Hne : compute_distances rssi_dict ≠ []).
  { intros Hnil. rewrite Hnil in Henough. unfold MIN_AP_FOR_TRILATERATION in Henough.
    simpl in Henough. lia. }
  destruct (weighted_centroid_returns _ Hok Hne) as [c Hc].
  destruct (trilateration_returns _ Hok Hne) as [t Ht].
  repeat case_decide; try done; rewrite ?Hc, ?Ht; simpl; by eexists.
Qed.

(** C1 (estimator): clamped, never rejected.  For an estimator made by
    the constructor and changed by its methods only:
    - every position that [estimate] returns, computed in this call or
      taken from the cache, lies inside [MAP_BOUNDS], and it is the
      position the estimator holds in its cache afterwards;
    - with at least [MIN_AP_FOR_TRILATERATION] entries in the distance
      table, whatever position [q] the selected method computes, inside
      the map or not, [estimate] returns and caches the point with the
      coordinates [max(min_x, min(q[0], max_x))] and
      [max(min_y, min(q[1], max_y))]: it does not answer [None] and does
      not raise;
    - and then the centroid and trilateration methods (every method but
      the external least-squares one) do compute a position, so a
      position is returned. *)
Theorem estimate_within_bounds (self : PositionEstimator)
    (rssi_dict : list (string * R)) :
  reachable minimize self →
  (∀ p self', estimate minimize self rssi_dict = Ok (Some p, self') →
     in_bounds p ∧ last_position self' = Some p) ∧
  ((MIN_AP_FOR_TRILATERATION ≤ length (compute_distances rssi_dict))%nat →
   (∀ q : position,
      (method self = "trilateration"%string ∧
       _trilateration (compute_distances rssi_dict) = Ok (Some q)) ∨
      (method self = "least_squares"%string ∧
       _least_squares minimize (compute_distances rssi_dict) = Ok (Some q)) ∨
      (method self ≠ "trilateration"%string ∧ method self ≠ "least_squares"%string ∧
       _weighted_centroid (compute_distances rssi_dict) = Ok (Some q)) →
      let p := (Rmax (min_x MAP_BOUNDS) (Rmin q.1 (max_x MAP_BOUNDS)),
                Rmax (min_y MAP_BOUNDS) (Rmin q.2 (max_y MAP_BOUNDS))) in
      estimate minimize self rssi_dict = Ok (Some p, set_last_position self (Some p))) ∧
   (method self ≠ "least_squares"%string →
    ∃ p, estimate minimize self rssi_dict
         = Ok (Some p, set_last_position self (Some p)))).
Proof.
  intros Hreach. split.
  - intros p self' Hest.
    destruct (estimate_cached _ _ _ _ Hest) as [Hcache [Hin | Hold]].
    + by split.
    + split; [| exact Hcache]. by apply (reachable_cache_in_bounds self).
  - intros Henough. split.
    + intros q Hq. cbv zeta. unfold estimate. rewrite decide_False by lia.
      destruct Hq as [[Hm Hq] | [[Hm Hq] | (Hm1 & Hm2 & Hq)]].
      * rewrite Hm. rewrite decide_False by done. rewrite decide_True by done.
        by rewrite Hq.
      * rewrite Hm. rewrite !decide_False by done. rewrite decide_True by done.
        by rewrite Hq.
      * case_decide; [by rewrite Hq |]. rewrite !decide_False by done.
        by rewrite Hq.
    + intros Hmethod.
      destruct (estimate_returns_clamped self rssi_dict Hmethod Henough) as [p Hp].
      by exists (clamp p).
Qed.
End EstimatorProperties.

(** *** Worked readings *)

Section EstimatorExamples.
Import Config Estimator Samples.
Local Open Scope R_scope.

Lemma rssi_to_distance_at_tx_power : rssi_to_distance (-59) = 1.
Proof.
  unfold rssi_to_distance, RSSI_MIN.
  rewrite decide_False by (intros [H | H]; lra).
  unfold TX_POWER, PATH_LOSS_EXPONENT, MAX_DISTANCE. simpl.
  replace ((-59 - -59) / (10 * 2.5)) with 0 by lra.
  rewrite Rpower_O by lra. apply Rmin_left. lra.
Qed.

Lemma valid_at_tx_power (ap_name : string) :
  is_Some (AP_POSITIONS !! ap_name) → valid_entry (ap_name, -59).
Proof.
  intros Hknown. unfold valid_entry. simpl.
  rewrite rssi_to_distance_at_tx_power. unfold MAX_DISTANCE.
  split; [lra |]. split; [done | lra].
Qed.

Lemma compute_distances_three_beacons :
  compute_distances three_beacons = [("AP-12", 1); ("AP-11", 1); ("AP-XX", 1)].
Proof.
  unfold compute_distances, three_beacons.
  change (foldl distance_step [] [?a; ?b; ?c])
    with (distance_step (distance_step (distance_step [] a) b) c).
  rewrite !distance_step_valid.
  rewrite !decide_True by (apply valid_at_tx_power; eexists; reflexivity).
  simpl. rewrite rssi_to_distance_at_tx_power. reflexivity.
Qed.

Lemma centroid_three_beacons :
  _weighted_centroid [("AP-12", 1); ("AP-11", 1); ("AP-XX", 1)]
  = Ok (Some (68.5 / 3, 3.5)).
Proof.
  unfold _weighted_centroid.
  erewrite !foldM_cons_ok by (apply centroid_step_ok; [lra | reflexivity]).
  simpl.
  rewrite decide_True by lra.
  rewrite !py_div_ok by lra. simpl.
  do 2 f_equal. f_equal; lra.
Qed.

Lemma estimate_three_beacons :
  estimate seed_minimizer fresh_estimator three_beacons
  = Ok (Some (clamp (68.5 / 3, 3.5)),
        set_last_position fresh_estimator (Some (clamp (68.5 / 3, 3.5)))).
Proof.
  unfold estimate.
  rewrite compute_distances_three_beacons.
  rewrite decide_False by (unfold MIN_AP_FOR_TRILATERATION; simpl; lia).
  rewrite decide_True by reflexivity.
  rewrite centroid_three_beacons. reflexivity.
Qed.

Lemma compute_distances_spread_beacons :
  compute_distances spread_beacons = [("AP-12", 1); ("AP-7413", 1); ("AP-13", 1)].
Proof.
  unfold compute_distances, spread_beacons.
  change (foldl distance_step [] [?a; ?b; ?c])
    with (distance_step (distance_step (distance_step [] a) b) c).
  rewrite !distance_step_valid.
  rewrite !decide_True by (apply valid_at_tx_power; eexists; reflexivity).
  simpl. rewrite rssi_to_distance_at_tx_power. reflexivity.
Qed.

(** The three circles of radius 1 m around AP-12, AP-7413 and AP-13 have
    no common point; the linearised system puts the position about 80 m
    above the map. *)
Lemma trilateration_spread_beacons :
  _trilateration [("AP-12", 1); ("AP-7413", 1); ("AP-13", 1)]
  = Ok (Some (5213.62 / 312.4, 31895.72 / 312.4)).
Proof.
  unfold _trilateration. simpl.
  repeat (rewrite (decide_False (P := 1 < 1)) by lra; simpl).
  rewrite (lookup_ap_known "AP-12" (5.0, 3.5)) by reflexivity.
  rewrite (lookup_ap_known "AP-7413" (9.1, 3.1)) by reflexivity.
  rewrite (lookup_ap_known "AP-13" (67.0, 16.5)) by reflexivity.
  simpl. rewrite decide_False by lra.
  rewrite !py_div_ok by lra. simpl.
  do 2 f_equal. f_equal; lra.
Qed.

(** The reading of [spread_beacons] exercises the clamp: the position
    computed is outside the map, the one returned is on its upper edge. *)
Lemma estimate_within_bounds_witness :
  estimate seed_minimizer trilateration_estimator spread_beacons
  = Ok (Some (5213.62 / 312.4, 22),
        set_last_position trilateration_estimator (Some (5213.62 / 312.4, 22))) ∧
  in_bounds (5213.62 / 312.4, 22) ∧
  ¬ in_bounds (5213.62 / 312.4, 31895.72 / 312.4).
Proof.
  destruct (estimate_within_bounds seed_minimizer trilateration_estimator spread_beacons)
    as [Hall Hclamp]; [apply reach_init |].
  destruct Hclamp as [Hclamp _].
  { rewrite compute_distances_spread_beacons.
    unfold MIN_AP_FOR_TRILATERATION. simpl. lia. }
  specialize (Hclamp (5213.62 / 312.4, 31895.72 / 312.4)).
  cbv zeta in Hclamp. unfold MAP_BOUNDS, MAP_WIDTH, MAP_HEIGHT in Hclamp.
  cbn [fst snd min_x max_x min_y max_y] in Hclamp.
  rewrite (Rmin_left (5213.62 / 312.4)), (Rmax_right (-2)) in Hclamp by lra.
  rewrite (Rmin_right (31895.72 / 312.4)), (Rmax_right (-3)) in Hclamp by lra.
  replace 22.0 with 22 in Hclamp by lra.
  assert (Hest : estimate seed_minimizer trilateration_estimator spread_beacons
                 = Ok (Some (5213.62 / 312.4, 22),
                       set_last_position trilateration_estimator
                         (Some (5213.62 / 312.4, 22)))).
  { apply Hclamp. left. split; [reflexivity |].
    rewrite compute_distances_spread_beacons. apply trilateration_spread_beacons. }
  split; [exact Hest |]. split; [exact (proj1 (Hall _ _ Hest)) |].
  unfold in_bounds, MAP_BOUNDS, MAP_WIDTH, MAP_HEIGHT. simpl. lra.
Defined.

(** A first call with two beacons returns nothing; after the estimate on
    three beacons the same reading returns the cached position, and the
    estimator stays as it was. *)
Lemma estimate_insufficient_beacons_witness :
  estimate seed_minimizer fresh_estimator two_beacons = Ok (None, fresh_estimator) ∧
  estimate seed_minimizer
    (set_last_position fresh_estimator (Some (clamp (68.5 / 3, 3.5)))) two_beacons
  = Ok (Some (clamp (68.5 / 3, 3.5)),
        set_last_position fresh_estimator (Some (clamp (68.5 / 3, 3.5)))).
Proof.
  assert (Hfew : (length (filter valid_entry two_beacons) < MIN_AP_FOR_TRILATERATION)%nat).
  { pose proof (length_filter valid_entry two_beacons) as Hle.
    unfold MIN_AP_FOR_TRILATERATION. simpl in Hle. lia. }
  split.
  - apply (estimate_insufficient_beacons seed_minimizer fresh_estimator two_beacons Hfew).
  - apply (estimate_insufficient_beacons seed_minimizer
             (set_last_position fresh_estimator (Some (clamp (68.5 / 3, 3.5))))
             two_beacons Hfew).
Defined.

Lemma estimate_ignores_filtered_witness :
  estimate seed_minimizer fresh_estimator
    (two_beacons ++ ("AP-XX", -100) :: [("AP-09", -59)])
  = estimate seed_minimizer fresh_estimator (two_beacons ++ [("AP-09", -59)]).
Proof.
  apply (estimate_ignores_filtered seed_minimizer fresh_estimator
           two_beacons [("AP-09", -59)] "AP-XX" (-100)).
  left. lra.
Defined.
End EstimatorExamples.

(** ** The position history and its copies *)

Section HistoryAliasing.
Import Estimator.

Lemma fresh_not_allocated (h : heap) (l : loc) :
  is_Some (h !! l) → l ≠ fresh (dom h).
Proof.
  intros Hl ->. apply elem_of_dom in Hl. by apply is_fresh in Hl.
Qed.

(** C10: [get_trajectory] returns a new list object holding the items of
    the history; whatever is then done to that object in place, the list
    object of [position_history], and every other object that existed,
    stays as it was.  The other attributes are values of the record
    [self], which no operation on the store can reach. *)
Theorem get_trajectory_is_copy (self : PositionEstimator) (h : heap) :
  is_Some (h !! position_history self) →
  ∃ (l : loc) (h' : heap),
    get_trajectory self h = Some (l, h') ∧
    l ≠ position_history self ∧
    h' !! l = h !! position_history self ∧
    ∀ f : list history_entry → list history_entry,
      mutate_list l f h' !! position_history self = h !! position_history self ∧
      ∀ l' : loc, is_Some (h !! l') → mutate_list l f h' !! l' = h !! l'.
Proof.
  intros Halloc. pose proof Halloc as [items Hitems].
  exists (fresh (dom h)), (<[fresh (dom h) := items]> h).
  assert (Hframe : ∀ f l', is_Some (h !! l') →
            mutate_list (fresh (dom h)) f (<[fresh (dom h) := items]> h) !! l' = h !! l').
  { intros f l' Hl'. apply fresh_not_allocated in Hl'. unfold mutate_list.
    rewrite lookup_alter_ne by done. by rewrite lookup_insert_ne. }
  split; [| split; [| split]].
  - unfold get_trajectory. by rewrite Hitems.
  - intros Heq. by apply (fresh_not_allocated h (position_history self)).
  - by rewrite lookup_insert_eq.
  - intros f. split; [by apply Hframe | by apply Hframe].
Qed.
End HistoryAliasing.

Section HistoryExamples.
Import Estimator Samples.
Local Open Scope R_scope.

Lemma sample_heap_history :
  sample_heap !! position_history fresh_estimator = Some [(1, 2, 3)].
Proof.
  unfold sample_heap, add_to_history, fresh_estimator, init. simpl.
  rewrite lookup_alter_eq, lookup_insert_eq. reflexivity.
Qed.

Lemma get_trajectory_is_copy_witness :
  ∃ (l : loc) (h' : heap),
    get_trajectory fresh_estimator sample_heap = Some (l, h') ∧
    l ≠ position_history fresh_estimator ∧
    h' !! l = sample_heap !! position_history fresh_estimator ∧
    ∀ f : list history_entry → list history_entry,
      mutate_list l f h' !! position_history fresh_estimator
      = sample_heap !! position_history fresh_estimator ∧
      ∀ l' : loc, is_Some (sample_heap !! l') →
        mutate_list l f h' !! l' = sample_heap !! l'.
Proof.
  apply (get_trajectory_is_copy fresh_estimator sample_heap).
  eexists. apply sample_heap_history.
Defined.
End HistoryExamples.

(** ** The calibrated interpolation *)

Section Interpolation.
Import WebTrack.
Local Open Scope R_scope.

(** A segment that did not match, once the RSSI is known to lie below
    its upper end, puts the RSSI below its lower end. *)
Ltac below_segment :=
  match goal with
  | H : ¬ (?hi >= ?r ∧ ?r >= ?lo) |- _ =>
      assert (r < lo) by (apply Rnot_ge_lt; intro; apply H; split; lra); clear H
  end.

(** The position returned when the loop stops in a segment of positive width. *)
Ltac in_segment :=
  rewrite py_div_ok by lra; simpl; eexists; split; [reflexivity |];
  match goal with
  | H : ?hi >= ?r ∧ ?r >= ?lo |- 0 <= _ + ?ratio * _ =>
      assert (0 <= ratio) by (apply Rmult_le_pos; [| apply Rlt_le, Rinv_0_lt_compat]; lra);
      nra
  end.

(** The three cases of [rssi_to_position], segment by segment. *)
Lemma rssi_to_position_cases (rssi : R) :
  ∃ pos : R, rssi_to_position rssi = Ok pos ∧ 0 <= pos.
Proof.
  unfold rssi_to_position, CALIBRATION. simpl.
  case_decide as Hfirst; [eexists; split; [reflexivity | lra] |].
  case_decide as Hlast; [eexists; split; [reflexivity | lra] |].
  apply Rnot_ge_lt in Hfirst. apply Rnot_le_lt in Hlast.
  repeat case_decide; repeat below_segment; try lra; in_segment.
Qed.

(** Below the weakest calibration point the position grows by one metre
    per dB, without a bound. *)
Lemma rssi_to_position_weak (rssi : R) :
  rssi <= -74 → rssi_to_position rssi = Ok (65.0 + (-74 - rssi) * 1.0).
Proof.
  intros Hweak. unfold rssi_to_position, CALIBRATION. simpl.
  rewrite decide_False by lra. by rewrite decide_True by lra.
Qed.

(** C9: the calibrated RSSI-to-position interpolation returns a
    non-negative position for every real RSSI and never raises; the two
    zero-width segments of the table (at -65 and at -68) are never the
    first segment that matches, so no division by zero happens. *)
Theorem rssi_to_position_total (rssi : R) :
  ∃ pos : R, rssi_to_position rssi = Ok pos ∧ 0 <= pos.
Proof. apply rssi_to_position_cases. Qed.
End Interpolation.

(** ** The pattern matcher *)

Section PatternMatcher.
Import Fingerprint.
Local Open Scope R_scope.

Lemma sum_sq_self (pattern1 : list R) (indices : list nat) (acc : R) :
  foldl (λ sum_sq i, sum_sq + (nth i pattern1 0 - nth i pattern1 0) ^ 2) acc indices = acc.
Proof.
  revert acc. induction indices as [| i indices IH]; intros acc; simpl; [done |].
  rewrite IH. lra.
Qed.

Lemma euclidean_distance_self (pattern1 : list R) :
  ¬ empty_list pattern1 → euclidean_distance pattern1 pattern1 = Fin 0.
Proof.
  intros Hne. unfold euclidean_distance.
  rewrite decide_False by tauto. cbv zeta.
  by rewrite sum_sq_self, sqrt_0.
Qed.

Lemma euclidean_distance_nonneg (pattern1 pattern2 : list R) :
  ¬ xlt (euclidean_distance pattern1 pattern2) (Fin 0).
Proof.
  unfold euclidean_distance. case_decide; simpl; [tauto |].
  apply Rle_not_lt, sqrt_pos.
Qed.

(** A distance that is not 0 is strictly above 0. *)
Lemma euclidean_distance_positive (pattern1 pattern2 : list R) :
  euclidean_distance pattern1 pattern2 ≠ Fin 0 →
  xlt (Fin 0) (euclidean_distance pattern1 pattern2).
Proof.
  pose proof (euclidean_distance_nonneg pattern1 pattern2) as Hnn.
  destruct (euclidean_distance pattern1 pattern2) as [r |]; simpl in *; [| done].
  intros Hne. destruct (Rtotal_order 0 r) as [Hlt | [Heq | Hgt]]; [done | | lra].
  subst r. by destruct Hne.
Qed.

(** The guarded division of [cosine_similarity] never raises. *)
Lemma cosine_similarity_ok (pattern1 pattern2 : list R) :
  ∃ s : R, cosine_similarity pattern1 pattern2 = Ok s.
Proof.
  unfold cosine_similarity.
  case_decide; [by eexists |]. simpl.
  case_decide as Hnorm; [by eexists |].
  rewrite py_div_ok; [by eexists |].
  intros Hzero. apply Rmult_integral in Hzero. tauto.
Qed.

Lemma score_ok (current_pattern : list R) (entry : string * fingerprint) :
  score current_pattern entry = Ok (scored current_pattern entry).
Proof.
  destruct entry as [label data]. unfold score, scored. simpl.
  destruct (cosine_similarity_ok current_pattern (fp_pattern data)) as [s ->].
  reflexivity.
Qed.

Lemma mapM_score_ok (current_pattern : list R) (db : list (string * fingerprint)) :
  mapM (score current_pattern) db = Ok (map (scored current_pattern) db).
Proof.
  induction db as [| entry db IH]; simpl; [done |].
  rewrite score_ok. simpl. by rewrite IH.
Qed.

Lemma confidence_of_exact : confidence_of (Fin 0) = 0.95.
Proof. unfold confidence_of. rewrite decide_True; [done | simpl; lra]. Qed.

(** The matcher never raises. *)
Lemma estimate_location_knn_ok (db : list (string * fingerprint))
    (current_pattern : list R) (k : Z) :
  ∃ r, estimate_location_knn db current_pattern k = Ok r.
Proof.
  unfold estimate_location_knn. case_decide; [by eexists |].
  rewrite mapM_score_ok. simpl.
  destruct (py_prefix k _); by eexists.
Qed.

(** The matcher returns the earliest record at distance 0 from the query. *)
Lemma knn_first_exact (db1 db2 : list (string * fingerprint))
    (label : string) (data : fingerprint) (query : list R) (k : Z) :
  (0 < k)%Z → ¬ empty_list query →
  euclidean_distance query (fp_pattern data) = Fin 0 →
  (∀ e, e ∈ db1 → euclidean_distance query (fp_pattern e.2) ≠ Fin 0) →
  ∃ rest,
    estimate_location_knn (db1 ++ (label, data) :: db2) query k
    = Ok (Some label, 0.95, scored query (label, data) :: rest).
Proof.
  intros Hk Hquery Hexact Hbefore.
  unfold estimate_location_knn.
  rewrite decide_False.
  2: { unfold empty_list. rewrite length_app. simpl. intros [? | ?]; [lia | done]. }
  rewrite mapM_score_ok. simpl.
  rewrite map_app. simpl.
  destruct (sort_by_head distance xlt (map (scored query) db1)
              (scored query (label, data)) (map (scored query) db2)) as [rest ->].
  - intros c (e & -> & He)%list_elem_of_fmap. simpl. rewrite Hexact.
    apply euclidean_distance_positive. by apply Hbefore.
  - intros c (e & -> & He)%list_elem_of_fmap. simpl. rewrite Hexact.
    apply euclidean_distance_nonneg.
  - rewrite py_prefix_cons by done. simpl.
    rewrite Hexact, confidence_of_exact. by eexists.
Qed.

(** The confidence is the step function of the best candidate's distance. *)
Lemma knn_confidence_steps (db : list (string * fingerprint)) (query : list R) (k : Z) :
  estimate_location_knn db query k = Ok (None, 0, []) ∨
  ∃ best rest,
    estimate_location_knn db query k
    = Ok (Some (location best),
          match distance best with
          | Fin d => if decide (d < 5) then 0.95
                     else if decide (d < 10) then 0.8
                     else if decide (d < 20) then 0.6
                     else 0.3
          | PInf => 0.3
          end,
          best :: rest).
Proof.
  unfold estimate_location_knn. case_decide; [by left |].
  rewrite mapM_score_ok. simpl.
  destruct (py_prefix k _) as [| best rest]; [by left |].
  right. exists best, rest. do 3 f_equal.
  unfold confidence_of. destruct (distance best) as [d |]; simpl; [| done].
  repeat case_decide; simpl in *; try lra; reflexivity.
Qed.

(** C3 (as the matcher behaves).  For a store that holds a label with
    its record, and at least one candidate asked for:
    - when the signature of the record is empty, a query with it is
      answered with no match, [(None, 0, [])];
    - when it is not empty, a query with it is answered with confidence
      0.95 by a best candidate at Euclidean distance 0, which is the
      earliest record of the store at distance 0 from the signature: the
      label itself when no record stored before it is at distance 0,
      and otherwise a record stored before it;
    - for every query, the confidence is the step function of the best
      candidate's distance: below 5 gives 0.95, below 10 gives 0.8,
      below 20 gives 0.6, anything else 0.3. *)
Theorem knn_stored_signature (db1 db2 : list (string * fingerprint))
    (label : string) (data : fingerprint) (k : Z) :
  (0 < k)%Z →
  (empty_list (fp_pattern data) →
   estimate_location_knn (db1 ++ (label, data) :: db2) (fp_pattern data) k
   = Ok (None, 0, [])) ∧
  (¬ empty_list (fp_pattern data) →
   ∃ pre first post best rest,
     db1 ++ (label, data) :: db2 = pre ++ first :: post ∧
     euclidean_distance (fp_pattern data) (fp_pattern first.2) = Fin 0 ∧
     (∀ e, e ∈ pre → euclidean_distance (fp_pattern data) (fp_pattern e.2) ≠ Fin 0) ∧
     estimate_location_knn (db1 ++ (label, data) :: db2) (fp_pattern data) k
     = Ok (Some first.1, 0.95, best :: rest) ∧
     location best = first.1 ∧ distance best = Fin 0 ∧
     pattern best = fp_pattern first.2 ∧
     ((∀ e, e ∈ db1 → euclidean_distance (fp_pattern data) (fp_pattern e.2) ≠ Fin 0) →
      pre = db1 ∧ first = (label, data)) ∧
     ((∃ e, e ∈ db1 ∧ euclidean_distance (fp_pattern data) (fp_pattern e.2) = Fin 0) →
      first ∈ db1)) ∧
  (∀ query,
     estimate_location_knn (db1 ++ (label, data) :: db2) query k = Ok (None, 0, []) ∨
     ∃ best rest,
       estimate_location_knn (db1 ++ (label, data) :: db2) query k
       = Ok (Some (location best),
             match distance best with
             | Fin d => if decide (d < 5) then 0.95
                        else if decide (d < 10) then 0.8
                        else if decide (d < 20) then 0.6
                        else 0.3
             | PInf => 0.3
             end,
             best :: rest)).
Proof.
  intros Hk. split; [| split; [| intros query; apply knn_confidence_steps]].
  { intros Hempty. unfold estimate_location_knn. by rewrite decide_True by (by right). }
  intros Hne.
  pose proof (euclidean_distance_self _ Hne) as Hself.
  set (exact := λ e : string * fingerprint,
         euclidean_distance (fp_pattern data) (fp_pattern e.2) = Fin 0).
  destruct (decide (Exists exact db1)) as [Hex | Hnone].
  - apply first_match_split in Hex as (pre & [l0 d0] & post & -> & Hexact & Hpre);
      [| apply _].
    destruct (knn_first_exact pre (post ++ (label, data) :: db2) l0 d0
                (fp_pattern data) k Hk Hne Hexact Hpre) as [rest Hknn].
    exists pre, (l0, d0), (post ++ (label, data) :: db2),
           (scored (fp_pattern data) (l0, d0)), rest.
    rewrite <- app_assoc. simpl.
    split; [done |]. split; [exact Hexact |]. split; [exact Hpre |].
    split; [exact Hknn |]. split; [done |]. split; [exact Hexact |]. split; [done |].
    split.
    + intros Hbefore. exfalso. apply (Hbefore (l0, d0)); [| exact Hexact].
      apply elem_of_app. right. left.
    + intros _. apply elem_of_app. right. left.
  - assert (Hbefore : ∀ e, e ∈ db1 →
              euclidean_distance (fp_pattern data) (fp_pattern e.2) ≠ Fin 0).
    { intros e He Hexact. apply Hnone, Exists_exists. by exists e. }
    destruct (knn_first_exact db1 db2 label data (fp_pattern data) k Hk Hne Hself Hbefore)
      as [rest Hknn].
    exists db1, (label, data), db2, (scored (fp_pattern data) (label, data)), rest.
    split; [done |]. split; [exact Hself |]. split; [exact Hbefore |].
    split; [exact Hknn |]. split; [done |]. split; [exact Hself |]. split; [done |].
    split; [done |].
    intros (e & He & Hexact). exfalso. by apply (Hbefore e).
Qed.
End PatternMatcher.

Section PatternMatcherExamples.
Import Fingerprint Samples.
Local Open Scope R_scope.

Lemma room_pattern_not_empty : ¬ empty_list (fp_pattern room_b).
Proof. unfold empty_list. simpl. lia. Qed.

(** The store [twin_db] queried with the signature stored for 7412, which
    7411 shares: the earlier record is the answer. *)
Lemma knn_stored_signature_witness :
  (empty_list (fp_pattern room_b) →
   estimate_location_knn ([("7411", room_a)] ++ ("7412", room_b) :: [])
     (fp_pattern room_b) 3
   = Ok (None, 0, [])) ∧
  (¬ empty_list (fp_pattern room_b) →
   ∃ pre first post best rest,
     [("7411", room_a)] ++ ("7412", room_b) :: [] = pre ++ first :: post ∧
     euclidean_distance (fp_pattern room_b) (fp_pattern first.2) = Fin 0 ∧
     (∀ e, e ∈ pre →
        euclidean_distance (fp_pattern room_b) (fp_pattern e.2) ≠ Fin 0) ∧
     estimate_location_knn ([("7411", room_a)] ++ ("7412", room_b) :: [])
       (fp_pattern room_b) 3
     = Ok (Some first.1, 0.95, best :: rest) ∧
     location best = first.1 ∧ distance best = Fin 0 ∧
     pattern best = fp_pattern first.2 ∧
     ((∀ e, e ∈ [("7411", room_a)] →
         euclidean_distance (fp_pattern room_b) (fp_pattern e.2) ≠ Fin 0) →
      pre = [("7411", room_a)] ∧ first = ("7412"%string, room_b)) ∧
     ((∃ e, e ∈ [("7411", room_a)] ∧
            euclidean_distance (fp_pattern room_b) (fp_pattern e.2) = Fin 0) →
      first ∈ [("7411", room_a)])) ∧
  (∀ query,
     estimate_location_knn ([("7411", room_a)] ++ ("7412", room_b) :: []) query 3
     = Ok (None, 0, []) ∨
     ∃ best rest,
       estimate_location_knn ([("7411", room_a)] ++ ("7412", room_b) :: []) query 3
       = Ok (Some (location best),
             match distance best with
             | Fin d => if decide (d < 5) then 0.95
                        else if decide (d < 10) then 0.8
                        else if decide (d < 20) then 0.6
                        else 0.3
             | PInf => 0.3
             end,
             best :: rest)).
Proof.
  apply (knn_stored_signature [("7411", room_a)] [] "7412" room_b 3). lia.
Defined.

(** C3 as stated fails: the signature stored for 7412 is answered with 7411. *)
Lemma knn_stored_signature_counterexample :
  ("7412", room_b) ∈ twin_db ∧
  ∃ best rest,
    estimate_location_knn twin_db (fp_pattern room_b) 3
    = Ok (Some "7411", 0.95, best :: rest).
Proof.
  split; [right; left |].
  destruct (knn_first_exact [] [("7412", room_b)] "7411" room_a (fp_pattern room_b) 3)
    as [rest Hknn].
  - lia.
  - apply room_pattern_not_empty.
  - apply (euclidean_distance_self (fp_pattern room_b)), room_pattern_not_empty.
  - intros e He. by apply elem_of_nil in He.
  - by eexists _, _.
Qed.

(** A stored signature that is empty is answered with no match at all. *)
Lemma knn_empty_signature (db : list (string * fingerprint)) (k : Z) :
  estimate_location_knn db [] k = Ok (None, 0, []).
Proof.
  unfold estimate_location_knn. rewrite decide_True; [done |].
  right. reflexivity.
Qed.
End PatternMatcherExamples.

(** ** The smoothing and fusion layer *)

Section Fusion.
Import Fingerprint WebTrack.
Local Open Scope R_scope.

Lemma push_bounded_length (size : nat) (buffer : list R) (x : R) :
  (0 < size)%nat → (0 < length (push_bounded size buffer x))%nat.
Proof.
  intros Hsize. unfold push_bounded.
  case_decide as Hlong; [rewrite length_drop | rewrite length_app; simpl]; lia.
Qed.

Lemma smooth_ok (size : nat) (buffer : list R) (x : R) :
  (0 < size)%nat →
  smooth size buffer x
  = Ok (push_bounded size buffer x,
        py_sum (push_bounded size buffer x) / INR (length (push_bounded size buffer x))).
Proof.
  intros Hsize. unfold smooth.
  rewrite py_div_ok; [done |].
  apply not_0_INR. pose proof (push_bounded_length size buffer x Hsize). lia.
Qed.

(** While tracking, the cycle's point goes to the end of the trajectory. *)
Lemma record_point_ok (st : state) (now smoothed_rssi final_pos : R)
    (final_room : option string) (method : string) (fp_confidence : R) :
  (active st = true → is_Some (start_time st)) →
  ∃ trajectory' current',
    record_point st now smoothed_rssi final_pos final_room method fp_confidence
    = Ok (trajectory', current') ∧
    (active st = true →
     ∃ pt, trajectory' = trajectory st ++ [pt] ∧ current' = Some pt ∧
           p_method pt = method ∧ p_position pt = py_round_n final_pos 1).
Proof.
  intros Hwf. unfold record_point.
  destruct (active st); [| eexists _, _; split; [done | discriminate]].
  destruct (Hwf eq_refl) as [t0 ->].
  eexists _, _. split; [done |]. intros _. by eexists.
Qed.

(** One cycle always answers; its answer is the decision of [fuse] on
    the outcome of the fingerprint step and the hysteresis position,
    which comes from the interpolation of the smoothed RSSI. *)
Lemma get_status_fuse (avail : bool) (db : list (string * fingerprint))
    (wifi_rssi : option R) (scan : list R) (now : R) (st : state) :
  (active st = true → is_Some (start_time st)) →
  ∃ out st' raw_pos rssi_pos final_pos,
    get_status avail db wifi_rssi scan now st = Ok (out, st') ∧
    rssi_to_position
      (mean (push_bounded RSSI_BUFFER_SIZE (rssi_buffer st) (default (-50) wifi_rssi)))
    = Ok raw_pos ∧
    rssi_pos
    = (stabilise (mean (push_bounded POSITION_BUFFER_SIZE (position_buffer st) raw_pos))
                 (last_reported_position st)).1 ∧
    fuse (fingerprint_step avail db scan).1.1 (fingerprint_step avail db scan).1.2
         (s_fallback_room out) rssi_pos
    = (s_room out, final_pos, s_method out) ∧
    s_position out = py_round_n final_pos 1 ∧
    s_fallback_position out = py_round_n rssi_pos 1 ∧
    (active st = true →
     ∃ pt, trajectory st' = trajectory st ++ [pt] ∧ current st' = Some pt ∧
           p_method pt = s_method out ∧ p_position pt = s_position out).
Proof.
  intros Hwf. unfold get_status.
  rewrite smooth_ok by (unfold RSSI_BUFFER_SIZE; lia).
  fold (mean (push_bounded RSSI_BUFFER_SIZE (rssi_buffer st) (default (-50) wifi_rssi))).
  simpl.
  destruct (fingerprint_step avail db scan) as [[fp_location fp_confidence] fp_candidates].
  destruct (rssi_to_position_cases
              (mean (push_bounded RSSI_BUFFER_SIZE (rssi_buffer st)
                       (default (-50) wifi_rssi))))
    as (raw_pos & Hraw & _).
  rewrite Hraw.
  simpl. rewrite smooth_ok by (unfold POSITION_BUFFER_SIZE; lia).
  fold (mean (push_bounded POSITION_BUFFER_SIZE (position_buffer st) raw_pos)).
  simpl.
  destruct (stabilise _ _) as [rssi_pos last_reported] eqn:Hstab.
  destruct (fuse _ _ _ _) as [[final_room final_pos] method] eqn:Hfuse.
  destruct (detect_direction _ _) as [direction last_stable].
  match goal with
  | |- context [record_point st now ?r final_pos final_room method fp_confidence] =>
      destruct (record_point_ok st now r final_pos final_room method fp_confidence Hwf)
        as (trajectory' & current' & -> & Hpoint)
  end.
  simpl. eexists _, _, raw_pos, rssi_pos, final_pos. split; [reflexivity |]. simpl.
  split; [done |]. split; [by rewrite Hstab |].
  split; [exact Hfuse |]. split; [done |]. split; [done |]. exact Hpoint.
Qed.

(** The fingerprint step hands on what the matcher says, and nothing when
    the step is skipped. *)
Lemma fingerprint_step_knn (avail : bool) (db : list (string * fingerprint))
    (scan : list R) (label : option string) (conf : R) (cands : list candidate) :
  estimate_location_knn db scan 3 = Ok (label, conf, cands) →
  (fingerprint_step avail db scan).1
  = if decide (avail = true ∧ (3 ≤ length db)%nat) then (label, conf) else (None, 0).
Proof.
  intros Hknn. unfold fingerprint_step.
  case_decide as Hgate; [| done].
  case_decide as Hscan.
  - by rewrite Hknn.
  - revert Hknn. unfold estimate_location_knn.
    rewrite decide_True by (right; by destruct (decide (empty_list scan))).
    by intros [= <- <- <-].
Qed.

(** The decision of a cycle, given what the matcher answers. *)
Lemma get_status_decision (avail : bool) (db : list (string * fingerprint))
    (wifi_rssi : option R) (scan : list R) (now : R) (st : state)
    (label : option string) (conf : R) (cands : list candidate) :
  (active st = true → is_Some (start_time st)) →
  estimate_location_knn db scan 3 = Ok (label, conf, cands) →
  ∃ out st',
    get_status avail db wifi_rssi scan now st = Ok (out, st') ∧
    (if decide (avail = true ∧ (3 ≤ length db)%nat ∧ truthy label ∧ conf >= 0.75)
     then s_method out = "fingerprint"%string ∧ s_room out = label ∧
          s_position out
          = match l ← label; dict_get l ROOM_POSITIONS with
            | Some room_pos => py_round_n room_pos 1
            | None => s_fallback_position out
            end
     else s_method out = "rssi"%string ∧ s_room out = Some (s_fallback_room out) ∧
          s_position out = s_fallback_position out) ∧
    (active st = true →
     ∃ pt, trajectory st' = trajectory st ++ [pt] ∧ current st' = Some pt ∧
           p_method pt = s_method out ∧ p_position pt = s_position out).
Proof.
  intros Hwf Hknn.
  destruct (get_status_fuse avail db wifi_rssi scan now st Hwf)
    as (out & st' & raw_pos & rssi_pos & final_pos
        & Hstatus & _ & _ & Hfuse & Hpos & Hfallback & Hpoint).
  exists out, st'.
  split; [exact Hstatus |]. split; [| exact Hpoint].
  pose proof (fingerprint_step_knn avail db scan label conf cands Hknn) as Hstep.
  destruct (fingerprint_step avail db scan) as [[fp_location fp_confidence] fp_candidates].
  cbn [fst snd] in Hstep, Hfuse. revert Hfuse. unfold fuse.
  case_decide as Hgate; injection Hstep as -> ->.
  - generalize (label ≫= λ l, dict_get l ROOM_POSITIONS). intros room_pos.
    case_decide as Hhigh.
    + rewrite decide_True by tauto.
      intros [= <- <- <-]. split; [done |]. split; [done |].
      rewrite Hpos, Hfallback. by destruct room_pos.
    + rewrite decide_False by tauto.
      intros [= <- <- <-]. by rewrite Hpos, Hfallback.
  - rewrite decide_False by (simpl; tauto).
    rewrite decide_False by tauto.
    intros [= <- <- <-]. by rewrite Hpos, Hfallback.
Qed.

(** C4 (as the cycle behaves): the answer of a cycle uses the
    fingerprint (method "fingerprint", the matcher's label as room, the
    label's entry of [ROOM_POSITIONS] as position, or the interpolation
    position when the label has no entry) exactly when the fingerprint
    engine is loaded, at least 3 records exist, the matcher's best label
    is a non-empty string and its confidence is at least 0.75; otherwise
    it is the calibrated interpolation's room and position with method
    "rssi".  The method is part of the answer and, while tracking, of the
    trajectory point of the cycle. *)
Theorem get_status_fusion (avail : bool) (db : list (string * fingerprint))
    (wifi_rssi : option R) (scan : list R) (now : R) (st : state) :
  (active st = true → is_Some (start_time st)) →
  ∃ label conf cands out st',
    estimate_location_knn db scan 3 = Ok (label, conf, cands) ∧
    get_status avail db wifi_rssi scan now st = Ok (out, st') ∧
    (if decide (avail = true ∧ (3 ≤ length db)%nat ∧ truthy label ∧ conf >= 0.75)
     then s_method out = "fingerprint"%string ∧ s_room out = label ∧
          s_position out
          = match l ← label; dict_get l ROOM_POSITIONS with
            | Some room_pos => py_round_n room_pos 1
            | None => s_fallback_position out
            end
     else s_method out = "rssi"%string ∧ s_room out = Some (s_fallback_room out) ∧
          s_position out = s_fallback_position out) ∧
    (active st = true →
     ∃ pt, trajectory st' = trajectory st ++ [pt] ∧ current st' = Some pt ∧
           p_method pt = s_method out ∧ p_position pt = s_position out).
Proof.
  intros Hwf.
  destruct (estimate_location_knn_ok db scan 3) as [[[label conf] cands] Hknn].
  destruct (get_status_decision avail db wifi_rssi scan now st label conf cands Hwf Hknn)
    as (out & st' & Hdecision).
  by exists label, conf, cands, out, st'.
Qed.
End Fusion.

Section FusionExamples.
Import Config Fingerprint WebTrack Samples.
Local Open Scope R_scope.

Lemma mean_first_sample (size : nat) (x : R) :
  (0 < size)%nat → mean (push_bounded size [] x) = x.
Proof.
  intros Hsize. unfold push_bounded. simpl.
  rewrite decide_False by lia.
  unfold mean, py_sum. simpl. lra.
Qed.

Lemma stabilise_moved (smoothed_pos last_reported : R) :
  1 <= smoothed_pos - last_reported →
  stabilise smoothed_pos last_reported = (smoothed_pos, smoothed_pos).
Proof.
  intros Hmoved. unfold stabilise, MIN_POSITION_CHANGE.
  rewrite decide_False; [done |].
  rewrite Rabs_right by lra. lra.
Qed.

Lemma get_status_fusion_witness :
  ∃ label conf cands out st',
    estimate_location_knn corridor_db [50; 60] 3 = Ok (label, conf, cands) ∧
    get_status true corridor_db (Some (-60)) [50; 60] 0 (start_tracking 0 initial_state)
    = Ok (out, st') ∧
    (if decide (true = true ∧ (3 ≤ length corridor_db)%nat ∧ truthy label ∧ conf >= 0.75)
     then s_method out = "fingerprint"%string ∧ s_room out = label ∧
          s_position out
          = match l ← label; dict_get l ROOM_POSITIONS with
            | Some room_pos => py_round_n room_pos 1
            | None => s_fallback_position out
            end
     else s_method out = "rssi"%string ∧ s_room out = Some (s_fallback_room out) ∧
          s_position out = s_fallback_position out) ∧
    (active (start_tracking 0 initial_state) = true →
     ∃ pt, trajectory st' = trajectory (start_tracking 0 initial_state) ++ [pt] ∧
           current st' = Some pt ∧
           p_method pt = s_method out ∧ p_position pt = s_position out).
Proof.
  apply (get_status_fusion true corridor_db (Some (-60)) [50; 60] 0
           (start_tracking 0 initial_state)).
  simpl. intros _. by eexists.
Defined.

Lemma knn_corridor_db :
  ∃ cands, estimate_location_knn corridor_db [50; 60] 3 = Ok (Some "7411"%string, 0.95, cands).
Proof.
  assert (Hquery : ¬ empty_list [50; 60]) by (unfold empty_list; simpl; lia).
  destruct (knn_first_exact [] (tail corridor_db) "7411"
              {| fp_location := "7411"; fp_pattern := [50; 60]; fp_samples := 10 |}
              [50; 60] 3) as [rest Hknn].
  - lia.
  - exact Hquery.
  - by apply euclidean_distance_self.
  - intros e He. by apply elem_of_nil in He.
  - by eexists.
Qed.

(** A cycle that trusts the fingerprint: room 7411 at 20 m, whatever the
    RSSI of the cycle says. *)
Lemma get_status_uses_fingerprint (wifi_rssi : option R) :
  ∃ out st',
    get_status true corridor_db wifi_rssi [50; 60] 0 initial_state = Ok (out, st') ∧
    s_method out = "fingerprint"%string ∧ s_room out = Some "7411"%string ∧
    s_position out = 20.
Proof.
  destruct knn_corridor_db as [cands Hknn].
  destruct (get_status_decision true corridor_db wifi_rssi [50; 60] 0 initial_state
              (Some "7411"%string) 0.95 cands) as (out & st' & Hstatus & Hdecision & _).
  - simpl. discriminate.
  - exact Hknn.
  - exists out, st'. split; [exact Hstatus |].
    rewrite decide_True in Hdecision.
    2: { split; [done |]. split; [simpl; lia |]. split; [simpl; done | lra]. }
    destruct Hdecision as (Hmethod & Hroom & Hpos).
    split; [exact Hmethod |]. split; [exact Hroom |].
    rewrite Hpos. simpl. unfold py_round_n.
    replace (20.0 * 10 ^ 1) with (IZR 200) by (simpl; lra).
    rewrite py_round_IZR. simpl. lra.
Qed.

Lemma knn_unnamed_db :
  ∃ cands, estimate_location_knn unnamed_db [50; 60] 3 = Ok (Some ""%string, 0.95, cands).
Proof.
  assert (Hquery : ¬ empty_list [50; 60]) by (unfold empty_list; simpl; lia).
  destruct (knn_first_exact [] (tail unnamed_db) ""
              {| fp_location := ""; fp_pattern := [50; 60]; fp_samples := 10 |}
              [50; 60] 3) as [rest Hknn].
  - lia.
  - exact Hquery.
  - by apply euclidean_distance_self.
  - intros e He. by apply elem_of_nil in He.
  - by eexists.
Qed.

(** C4 as stated fails: three records exist and the matcher is 0.95
    confident, yet the cycle falls back, because the best label is the
    empty string. *)
Lemma get_status_fusion_counterexample :
  ∃ cands out st',
    estimate_location_knn unnamed_db [50; 60] 3 = Ok (Some ""%string, 0.95, cands) ∧
    (3 ≤ length unnamed_db)%nat ∧ 0.95 >= 0.75 ∧
    get_status true unnamed_db (Some (-60)) [50; 60] 0 initial_state = Ok (out, st') ∧
    s_method out = "rssi"%string.
Proof.
  destruct knn_unnamed_db as [cands Hknn].
  destruct (get_status_decision true unnamed_db (Some (-60)) [50; 60] 0 initial_state
              (Some ""%string) 0.95 cands) as (out & st' & Hstatus & Hdecision & _).
  - simpl. discriminate.
  - exact Hknn.
  - exists cands, out, st'.
    split; [exact Hknn |]. split; [simpl; lia |]. split; [lra |].
    split; [exact Hstatus |].
    rewrite decide_False in Hdecision by (simpl; tauto). tauto.
Qed.

(** C1 as stated fails for the fusion layer: on a first cycle with an
    RSSI of -100 dBm and no fingerprints the reported position is 91,
    beyond [max_x = 75]. *)
Lemma fused_position_out_of_bounds :
  ∃ out st',
    get_status true [] (Some (-100)) [] 0 initial_state = Ok (out, st') ∧
    s_position out = 91 ∧
    ¬ (min_x MAP_BOUNDS <= s_position out <= max_x MAP_BOUNDS).
Proof.
  destruct (get_status_fuse true [] (Some (-100)) [] 0 initial_state)
    as (out & st' & raw_pos & rssi_pos & final_pos
        & Hstatus & Hraw & Hrssi & Hfuse & Hpos & _).
  { simpl. discriminate. }
  exists out, st'. split; [exact Hstatus |].
  simpl in Hraw. rewrite mean_first_sample in Hraw by (unfold RSSI_BUFFER_SIZE; lia).
  rewrite rssi_to_position_weak in Hraw by lra. injection Hraw as <-.
  simpl in Hrssi. rewrite mean_first_sample in Hrssi by (unfold POSITION_BUFFER_SIZE; lia).
  rewrite stabilise_moved in Hrssi by lra. simpl in Hrssi. subst rssi_pos.
  revert Hfuse. unfold fingerprint_step.
  rewrite decide_False by (simpl; lia). cbn [fst snd]. unfold fuse.
  rewrite decide_False by (simpl; tauto). intros [= _ <- _].
  assert (H91 : s_position out = 91).
  { rewrite Hpos. unfold py_round_n.
    replace ((65.0 + (-74 - -100) * 1.0) * 10 ^ 1) with (IZR 910) by (simpl; lra).
    rewrite py_round_IZR. simpl. lra. }
  split; [exact H91 |].
  rewrite H91. unfold MAP_BOUNDS, MAP_WIDTH. simpl. lra.
Qed.
End FusionExamples.

(* ===================================================================== *)
(** * Further properties of the code *)
(* ===================================================================== *)

(** ** The geometric estimator, continued *)

Section EstimatorFurther.
Import Config Estimator Geometry.
Local Open Scope R_scope.

Variable minimize : (position → result R) → position → result position.

Lemma dict_set_keys_NoDup {V} (k : string) (v : V) (d : list (string * V)) :
  NoDup d.*1 → NoDup (dict_set k v d).*1.
Proof.
  intros Hnodup.
  destruct (decide (k ∈ d.*1)) as [Hin | Hnew].
  - enough (Hkeys : (dict_set k v d).*1 = d.*1) by (by rewrite Hkeys).
    clear Hnodup. induction d as [| [k' v'] d IH]; [by apply elem_of_nil in Hin |].
    simpl. case_decide as Hk; [by subst k' |].
    simpl. f_equal. apply IH.
    rewrite fmap_cons in Hin. apply elem_of_cons in Hin as [-> | Hin]; done.
  - rewrite dict_set_fresh by done. rewrite fmap_app. simpl.
    apply NoDup_app. split; [done |]. split; [| apply NoDup_singleton].
    intros x Hx ->%list_elem_of_singleton. done.
Qed.

(** What [estimate] keeps in its distance table, for any reading. *)
Lemma compute_distances_entries (rssi_dict : list (string * R)) :
  NoDup (compute_distances rssi_dict).*1 ∧
  Forall (λ item : string * R,
            is_Some (AP_POSITIONS !! item.1) ∧ 0 < item.2 < MAX_DISTANCE)
         (compute_distances rssi_dict).
Proof.
  unfold compute_distances.
  set (entry_ok := λ item : string * R,
         is_Some (AP_POSITIONS !! item.1) ∧ 0 < item.2 < MAX_DISTANCE).
  enough (Hgen : ∀ acc, NoDup acc.*1 ∧ Forall entry_ok acc →
            NoDup (foldl distance_step acc rssi_dict).*1 ∧
            Forall entry_ok (foldl distance_step acc rssi_dict)).
  { apply Hgen. split; [apply NoDup_nil_2 | apply Forall_nil_2]. }
  induction rssi_dict as [| item rest IH]; intros acc Hacc; [done |].
  change (foldl distance_step acc (item :: rest))
    with (foldl distance_step (distance_step acc item) rest).
  apply IH. rewrite distance_step_valid.
  case_decide as Hvalid; [| done].
  destruct Hacc as [Hnodup Hall]. split; [by apply dict_set_keys_NoDup |].
  apply dict_set_Forall; [| done].
  destruct Hvalid as (_ & Hknown & Hnear).
  split; [done |]. split; [apply rssi_to_distance_pos | done].
Qed.

Lemma AP_POSITIONS_names (ap_name : string) :
  is_Some (AP_POSITIONS !! ap_name) →
  ap_name ∈ ["AP-12"; "AP-11"; "AP-XX"; "AP-09"; "AP-07"; "AP-13"; "AP-7413"]%string.
Proof.
  intros [p Hp]. unfold AP_POSITIONS in Hp.
  apply elem_of_list_to_map_2 in Hp.
  apply (list_elem_of_fmap_2 fst) in Hp. exact Hp.
Qed.

(** X1: whatever the reading, the distance table of [estimate] has one
    entry per access point at most (so never more than the 7 known access
    points), and every entry is a known access point at a distance
    strictly between 0 and [MAX_DISTANCE]. *)
Theorem compute_distances_table (rssi_dict : list (string * R)) :
  NoDup (compute_distances rssi_dict).*1 ∧
  (length (compute_distances rssi_dict) ≤ 7)%nat ∧
  ∀ ap_name d, (ap_name, d) ∈ compute_distances rssi_dict →
    is_Some (AP_POSITIONS !! ap_name) ∧ 0 < d < MAX_DISTANCE.
Proof.
  destruct (compute_distances_entries rssi_dict) as [Hnodup Hall].
  split; [exact Hnodup |]. split.
  - rewrite <- (length_fmap fst).
    change 7%nat with (length ["AP-12"; "AP-11"; "AP-XX"; "AP-09"; "AP-07"; "AP-13";
                               "AP-7413"]%string).
    apply submseteq_length, NoDup_submseteq; [exact Hnodup |].
    intros k (item & -> & Hitem)%list_elem_of_fmap.
    apply AP_POSITIONS_names.
    rewrite Forall_forall in Hall. by destruct (Hall item Hitem).
  - intros ap_name d Hin. rewrite Forall_forall in Hall. apply (Hall _ Hin).
Qed.

(** The loop of [_weighted_centroid] keeps the weighted sums inside the
    box of the access points seen so far, scaled by the total weight. *)
Lemma centroid_loop_box (lo_x hi_x lo_y hi_y : R) (distances : list (string * R)) :
  Forall (λ item : string * R, ∃ q : position,
            AP_POSITIONS !! item.1 = Some q ∧
            lo_x <= q.1 <= hi_x ∧ lo_y <= q.2 <= hi_y) distances →
  ∀ tw wx wy tw' wx' wy',
    0 <= tw →
    lo_x * tw <= wx <= hi_x * tw → lo_y * tw <= wy <= hi_y * tw →
    foldM centroid_step (tw, wx, wy) distances = Ok (tw', wx', wy') →
    0 <= tw' ∧ lo_x * tw' <= wx' <= hi_x * tw' ∧ lo_y * tw' <= wy' <= hi_y * tw'.
Proof.
  induction 1 as [| [ap_name d] distances (q & Hq & Hqx & Hqy) Hrest IH];
    intros tw wx wy tw' wx' wy' Htw Hx Hy Hfold.
  - simpl in Hfold. injection Hfold as <- <- <-. done.
  - simpl in Hq.
    destruct (decide (d > 0)) as [Hd | Hd].
    + rewrite (foldM_cons_ok _ _ _ _ _ (centroid_step_ok tw wx wy ap_name d q Hd Hq))
        in Hfold.
      assert (Hw : 0 < 1 / d ^ 2).
      { apply Rdiv_lt_0_compat; [lra | apply pow_lt; lra]. }
      apply (IH _ _ _ _ _ _) in Hfold; [done | lra | nra | nra].
    + rewrite (foldM_cons_ok _ (tw, wx, wy) (tw, wx, wy)) in Hfold.
      * by apply (IH _ _ _ _ _ _) in Hfold.
      * unfold centroid_step. by rewrite decide_False.
Qed.

Lemma weighted_centroid_box (lo_x hi_x lo_y hi_y : R)
    (distances : list (string * R)) (p : position) :
  Forall (λ item : string * R, ∃ q : position,
            AP_POSITIONS !! item.1 = Some q ∧
            lo_x <= q.1 <= hi_x ∧ lo_y <= q.2 <= hi_y) distances →
  _weighted_centroid distances = Ok (Some p) →
  lo_x <= p.1 <= hi_x ∧ lo_y <= p.2 <= hi_y.
Proof.
  intros Hbox. unfold _weighted_centroid.
  destruct (foldM centroid_step (0, 0, 0) distances) as [[[tw wx] wy] | e] eqn:Hfold;
    [| discriminate].
  apply (centroid_loop_box lo_x hi_x lo_y hi_y distances Hbox) in Hfold as (_ & Hx & Hy);
    [| lra | lra | lra].
  simpl. case_decide as Htw; [| discriminate].
  rewrite !py_div_ok by lra. simpl. intros [= <-]. simpl.
  assert (Hinv : 0 <= / tw) by (apply Rlt_le, Rinv_0_lt_compat; lra).
  assert (Hone : ∀ a, a * tw * / tw = a).
  { intros a. rewrite Rmult_assoc, Rinv_r by lra. ring. }
  unfold Rdiv.
  split; split.
  - rewrite <- (Hone lo_x). apply Rmult_le_compat_r; lra.
  - rewrite <- (Hone hi_x). apply Rmult_le_compat_r; lra.
  - rewrite <- (Hone lo_y). apply Rmult_le_compat_r; lra.
  - rewrite <- (Hone hi_y). apply Rmult_le_compat_r; lra.
Qed.

(** X2: the weighted centroid is a convex combination: it lies in every
    box that contains the positions of the access points of the table. *)
Theorem weighted_centroid_in_box (lo_x hi_x lo_y hi_y : R)
    (distances : list (string * R)) (p : position) :
  Forall (λ item : string * R, ∃ q : position,
            AP_POSITIONS !! item.1 = Some q ∧
            lo_x <= q.1 <= hi_x ∧ lo_y <= q.2 <= hi_y) distances →
  _weighted_centroid distances = Ok (Some p) →
  lo_x <= p.1 <= hi_x ∧ lo_y <= p.2 <= hi_y.
Proof. apply weighted_centroid_box. Qed.

Lemma AP_POSITIONS_box (ap_name : string) (q : position) :
  AP_POSITIONS !! ap_name = Some q →
  5 <= q.1 <= 67 ∧ 3.1 <= q.2 <= 16.5.
Proof.
  intros Hq. unfold AP_POSITIONS in Hq. apply elem_of_list_to_map_2 in Hq.
  repeat (apply elem_of_cons in Hq as [[= _ ->] | Hq]; [simpl; split; lra |]).
  by apply elem_of_nil in Hq.
Qed.

(** X3: with the weighted-centroid method (or an unknown method name) and
    at least [MIN_AP_FOR_TRILATERATION] entries in the distance table,
    [estimate] never raises and returns the centroid unchanged: it lies
    in the box [5, 67] x [3.1, 16.5] of the access points, well inside
    [MAP_BOUNDS], so the clamp does not move it. *)
Theorem estimate_centroid_unclamped (self : PositionEstimator)
    (rssi_dict : list (string * R)) :
  method self ≠ "trilateration"%string → method self ≠ "least_squares"%string →
  (MIN_AP_FOR_TRILATERATION ≤ length (compute_distances rssi_dict))%nat →
  ∃ c : position,
    _weighted_centroid (compute_distances rssi_dict) = Ok (Some c) ∧
    estimate minimize self rssi_dict = Ok (Some c, set_last_position self (Some c)) ∧
    5 <= c.1 <= 67 ∧ 3.1 <= c.2 <= 16.5.
Proof.
  intros Htri Hls Henough.
  pose proof (compute_distances_ok rssi_dict) as Hok.
  assert (Hne : compute_distances rssi_dict ≠ []).
  { intros Hnil. rewrite Hnil in Henough. unfold MIN_AP_FOR_TRILATERATION in Henough.
    simpl in Henough. lia. }
  destruct (weighted_centroid_returns _ Hok Hne) as [c Hc].
  assert (Hbox : 5 <= c.1 <= 67 ∧ 3.1 <= c.2 <= 16.5).
  { apply (weighted_centroid_box 5 67 3.1 16.5 (compute_distances rssi_dict) c); [| exact Hc].
    eapply Forall_impl; [exact Hok |].
    intros item [[q Hq] _]. exists q. split; [exact Hq |].
    by apply (AP_POSITIONS_box item.1). }
  exists c. split; [exact Hc |]. split; [| exact Hbox].
  assert (Hclamp : clamp c = c).
  { destruct c as [cx cy]. unfold clamp, MAP_BOUNDS, MAP_WIDTH, MAP_HEIGHT. simpl in *.
    rewrite !Rmin_left by lra. rewrite !Rmax_right by lra. reflexivity. }
  unfold estimate. rewrite decide_False by lia.
  repeat case_decide; try done; rewrite Hc; simpl; by rewrite Hclamp.
Qed.
End EstimatorFurther.

Section TrilaterationFurther.
Import Config Estimator Geometry.
Local Open Scope R_scope.

Lemma mapM_result_Forall2 {A B} (f : A → result B) (g : A → B) (l : list A) :
  Forall (λ x, f x = Ok (g x)) l → mapM f l = Ok (g <$> l).
Proof.
  induction 1 as [| x l Hx Hl IH]; simpl; [done |].
  rewrite Hx. simpl. by rewrite IH.
Qed.

(** The points of the three selected access points, when all are known. *)
Lemma trilateration_points (sorted_aps : list (string * R)) (pos_of : string → position) :
  Forall (λ item : string * R, AP_POSITIONS !! item.1 = Some (pos_of item.1)) sorted_aps →
  mapM (λ '(ap_name, dist), p ← lookup_ap ap_name; mret (p, dist)) sorted_aps
  = Ok ((λ item : string * R, (pos_of item.1, item.2)) <$> sorted_aps).
Proof.
  intros Hknown. apply mapM_result_Forall2.
  eapply Forall_impl; [exact Hknown |].
  intros [ap_name d] Hp. simpl in *. by rewrite (lookup_ap_known _ _ Hp).
Qed.

(** X4: trilateration is exact.  When the three nearest entries of the
    table are known access points that are not on one line, and their
    distances are the true distances to a point, [_trilateration] returns
    that point. *)
Theorem trilateration_exact (distances : list (string * R))
    (n1 n2 n3 : string) (r1 r2 r3 : R) (p1 p2 p3 : position) (x y : R) :
  take 3 (sort_by snd Rlt distances) = [(n1, r1); (n2, r2); (n3, r3)] →
  AP_POSITIONS !! n1 = Some p1 →
  AP_POSITIONS !! n2 = Some p2 →
  AP_POSITIONS !! n3 = Some p3 →
  r1 ^ 2 = (x - p1.1) ^ 2 + (y - p1.2) ^ 2 →
  r2 ^ 2 = (x - p2.1) ^ 2 + (y - p2.2) ^ 2 →
  r3 ^ 2 = (x - p3.1) ^ 2 + (y - p3.2) ^ 2 →
  (p2.1 - p1.1) * (p3.2 - p1.2) - (p2.2 - p1.2) * (p3.1 - p1.1) ≠ 0 →
  _trilateration distances = Ok (Some (x, y)).
Proof.
  intros Hsel Hp1 Hp2 Hp3 Hr1 Hr2 Hr3 Hcross.
  unfold _trilateration. rewrite Hsel.
  rewrite decide_False by (simpl; lia).
  simpl. rewrite (lookup_ap_known _ _ Hp1), (lookup_ap_known _ _ Hp2),
    (lookup_ap_known _ _ Hp3). simpl.
  destruct p1 as [x1 y1], p2 as [x2 y2], p3 as [x3 y3]. cbn [fst snd] in *.
  unfold solve_circles.
  set (a11 := 2 * (x2 - x1)). set (a12 := 2 * (y2 - y1)).
  set (a21 := 2 * (x3 - x1)). set (a22 := 2 * (y3 - y1)).
  simpl in Hr1, Hr2, Hr3.
  assert (Hb1 : r1 * (r1 * 1) - r2 * (r2 * 1) - x1 * (x1 * 1) + x2 * (x2 * 1)
                - y1 * (y1 * 1) + y2 * (y2 * 1) = a11 * x + a12 * y)
    by (rewrite Hr1, Hr2; unfold a11, a12; ring).
  assert (Hb2 : r1 * (r1 * 1) - r3 * (r3 * 1) - x1 * (x1 * 1) + x3 * (x3 * 1)
                - y1 * (y1 * 1) + y3 * (y3 * 1) = a21 * x + a22 * y)
    by (rewrite Hr1, Hr3; unfold a21, a22; ring).
  rewrite Hb1, Hb2.
  assert (Hdet : a11 * a22 - a12 * a21 ≠ 0).
  { unfold a11, a12, a21, a22. intros Hzero. apply Hcross. lra. }
  rewrite decide_False by exact Hdet.
  rewrite !py_div_ok by exact Hdet. simpl.
  do 2 f_equal. f_equal; field; exact Hdet.
Qed.

(** X5: on one line trilateration cannot solve: when every access point of
    the table has the same y coordinate (as the five of the lower corridor
    do), [_trilateration] gives exactly what [_weighted_centroid] gives. *)
Theorem trilateration_colinear_fallback (distances : list (string * R)) (c : R) :
  Forall (λ item : string * R, ∃ q : position,
            AP_POSITIONS !! item.1 = Some q ∧ q.2 = c) distances →
  _trilateration distances = _weighted_centroid distances.
Proof.
  intros Hline. unfold _trilateration.
  case_decide as Hshort; [reflexivity |].
  set (pos_of := λ ap_name : string, default (0, 0) (AP_POSITIONS !! ap_name)).
  assert (Hsel : Forall (λ item : string * R,
                   AP_POSITIONS !! item.1 = Some (pos_of item.1) ∧ (pos_of item.1).2 = c)
                   (take 3 (sort_by snd Rlt distances))).
  { apply Forall_take. rewrite (sort_by_perm snd Rlt distances).
    eapply Forall_impl; [exact Hline |].
    intros [ap_name d] (q & Hq & Hy). unfold pos_of, position in *. simpl in *.
    rewrite Hq. done. }
  rewrite (trilateration_points _ pos_of).
  2: { eapply Forall_impl; [exact Hsel |]. by intros item [? _]. }
  simpl.
  destruct (take 3 (sort_by snd Rlt distances)) as [| i1 [| i2 [| i3 rest]]];
    simpl in Hshort; try lia.
  apply Forall_cons in Hsel as [[_ Hy1] Hsel].
  apply Forall_cons in Hsel as [[_ Hy2] Hsel].
  apply Forall_cons in Hsel as [[_ Hy3] _].
  simpl. destruct (pos_of i1.1) as [x1 y1], (pos_of i2.1) as [x2 y2],
    (pos_of i3.1) as [x3 y3]. simpl in *. subst y1 y2 y3.
  unfold solve_circles.
  rewrite decide_True by lra. simpl.
  by destruct (_weighted_centroid distances).
Qed.
End TrilaterationFurther.

Section EstimatorFurtherExamples.
Import Config Estimator Geometry Samples MoreSamples.
Local Open Scope R_scope.

Lemma weighted_centroid_in_box_witness :
  5 <= (68.5 / 3, 3.5).1 <= 38.2 ∧ 3.5 <= (68.5 / 3, 3.5).2 <= 3.5.
Proof.
  apply (weighted_centroid_in_box 5 38.2 3.5 3.5
           [("AP-12", 1); ("AP-11", 1); ("AP-XX", 1)] (68.5 / 3, 3.5)).
  - repeat apply Forall_cons_2; [| | | apply Forall_nil_2];
      eexists; (split; [reflexivity | simpl; lra]).
  - apply centroid_three_beacons.
Defined.

Lemma estimate_centroid_unclamped_witness :
  ∃ c : position,
    _weighted_centroid (compute_distances three_beacons) = Ok (Some c) ∧
    estimate seed_minimizer fresh_estimator three_beacons
    = Ok (Some c, set_last_position fresh_estimator (Some c)) ∧
    5 <= c.1 <= 67 ∧ 3.1 <= c.2 <= 16.5.
Proof.
  apply (estimate_centroid_unclamped seed_minimizer fresh_estimator three_beacons).
  - discriminate.
  - discriminate.
  - rewrite compute_distances_three_beacons. unfold MIN_AP_FOR_TRILATERATION. simpl. lia.
Defined.

Lemma corner_table_sorted :
  take 3 (sort_by snd Rlt corner_table) = corner_table.
Proof.
  assert (Hfar : 4.1 <= sqrt 412.25).
  { rewrite <- (sqrt_square 4.1) by lra. apply sqrt_le_1; lra. }
  unfold corner_table. simpl.
  rewrite (decide_False (P := sqrt 412.25 < 4.1)) by lra. simpl.
  rewrite (decide_False (P := 4.1 < 0.4)) by lra.
  reflexivity.
Qed.

Lemma trilateration_exact_witness :
  _trilateration corner_table = Ok (Some (5, 3.1)).
Proof.
  apply (trilateration_exact corner_table "AP-12" "AP-7413" "AP-11"
           0.4 4.1 (sqrt 412.25) (5.0, 3.5) (9.1, 3.1) (25.3, 3.5) 5 3.1).
  - apply corner_table_sorted.
  - reflexivity.
  - reflexivity.
  - reflexivity.
  - simpl. lra.
  - simpl. lra.
  - simpl. rewrite Rmult_1_r, sqrt_sqrt by lra. lra.
  - simpl. lra.
Defined.

Lemma trilateration_colinear_fallback_witness :
  _trilateration [("AP-12", 1); ("AP-11", 1); ("AP-XX", 1)]
  = _weighted_centroid [("AP-12", 1); ("AP-11", 1); ("AP-XX", 1)].
Proof.
  apply (trilateration_colinear_fallback [("AP-12", 1); ("AP-11", 1); ("AP-XX", 1)] 3.5).
  repeat apply Forall_cons_2; [| | | apply Forall_nil_2];
    eexists; (split; [reflexivity | reflexivity]).
Defined.
End EstimatorFurtherExamples.

(** ** The history and the distance helper *)

Section HistoryFurther.
Import Config Estimator Geometry.
Local Open Scope R_scope.

(** X6: the history is a log.  [get_trajectory] after [add_to_history]
    returns a new list holding the old items followed by the new entry;
    after [clear_history] it returns an empty list, the cached position is
    forgotten, and the list object that held the history before is not
    touched. *)
Theorem history_log (self : PositionEstimator) (h : heap)
    (items : list history_entry) (x y timestamp : R) :
  h !! position_history self = Some items →
  (∃ l h', get_trajectory self (add_to_history self x y timestamp h) = Some (l, h') ∧
           l ≠ position_history self ∧
           h' !! l = Some (items ++ [(x, y, timestamp)])) ∧
  (∃ l h', get_trajectory (clear_history self h).1 (clear_history self h).2 = Some (l, h') ∧
           h' !! l = Some [] ∧
           last_position (clear_history self h).1 = None ∧
           method (clear_history self h).1 = method self ∧
           h' !! position_history self = Some items).
Proof.
  intros Hitems. split.
  - unfold get_trajectory, add_to_history.
    rewrite lookup_alter_eq, Hitems. simpl.
    eexists _, _. split; [reflexivity |]. split.
    + intros Heq.
      assert (Halloc : is_Some (alter (λ items0, items0 ++ [(x, y, timestamp)])
                                  (position_history self) h !! position_history self)).
      { rewrite lookup_alter_eq, Hitems. by eexists. }
      apply fresh_not_allocated in Halloc. apply Halloc. symmetry. exact Heq.
    + by rewrite lookup_insert_eq.
  - unfold get_trajectory, clear_history. simpl.
    rewrite lookup_insert_eq. simpl.
    assert (Hold : position_history self ≠ fresh (dom h)).
    { apply fresh_not_allocated. rewrite Hitems. by eexists. }
    assert (Hold2 : position_history self ≠ fresh (dom (<[fresh (dom h) := []]> h))).
    { apply fresh_not_allocated. rewrite lookup_insert_ne by done.
      rewrite Hitems. by eexists. }
    eexists _, _. split; [reflexivity |].
    split; [by rewrite lookup_insert_eq |].
    split; [done |]. split; [done |].
    rewrite lookup_insert_ne by done. by rewrite lookup_insert_ne.
Qed.

Lemma history_log_witness :
  (∃ l h', get_trajectory Samples.fresh_estimator
             (add_to_history Samples.fresh_estimator 4 5 6 Samples.sample_heap)
           = Some (l, h') ∧
           l ≠ position_history Samples.fresh_estimator ∧
           h' !! l = Some ([(1, 2, 3)] ++ [(4, 5, 6)])) ∧
  (∃ l h', get_trajectory (clear_history Samples.fresh_estimator Samples.sample_heap).1
             (clear_history Samples.fresh_estimator Samples.sample_heap).2 = Some (l, h') ∧
           h' !! l = Some [] ∧
           last_position (clear_history Samples.fresh_estimator Samples.sample_heap).1 = None ∧
           method (clear_history Samples.fresh_estimator Samples.sample_heap).1
           = method Samples.fresh_estimator ∧
           h' !! position_history Samples.fresh_estimator = Some [(1, 2, 3)]).
Proof.
  apply (history_log Samples.fresh_estimator Samples.sample_heap [(1, 2, 3)] 4 5 6).
  apply sample_heap_history.
Defined.

Lemma calculate_distance_dist_euc (pos1 pos2 : position) :
  calculate_distance pos1 pos2 = dist_euc pos1.1 pos1.2 pos2.1 pos2.2.
Proof. unfold calculate_distance, dist_euc. by rewrite !Rsqr_pow2. Qed.

(** X7: [calculate_distance] is a metric on positions: never negative,
    zero exactly between equal points, symmetric, and it satisfies the
    triangle inequality. *)
Theorem calculate_distance_metric (p q r : position) :
  0 <= calculate_distance p q ∧
  (calculate_distance p q = 0 ↔ p = q) ∧
  calculate_distance p q = calculate_distance q p ∧
  calculate_distance p r <= calculate_distance p q + calculate_distance q r.
Proof.
  split; [apply sqrt_pos |]. split; [| split].
  - split.
    + intros Hzero. unfold calculate_distance in Hzero.
      apply sqrt_eq_0 in Hzero; [| apply Rplus_le_le_0_compat; apply pow2_ge_0].
      rewrite <- !Rsqr_pow2 in Hzero. apply Rplus_sqr_eq_0 in Hzero as [Hx Hy].
      destruct p as [px py], q as [qx qy]. simpl in *.
      f_equal; lra.
    + intros ->. rewrite calculate_distance_dist_euc. apply distance_refl.
  - rewrite !calculate_distance_dist_euc. apply distance_symm.
  - rewrite !calculate_distance_dist_euc. apply triangle.
Qed.
End HistoryFurther.

(** ** Sorting, continued *)

Section StableSortSorted.
Context {A K : Type} (key : A → K) (lt : K → K → Prop) `{!RelDecision lt}.
Hypothesis lt_asym : ∀ a b, lt a b → ¬ lt b a.
Hypothesis lt_ntrans : ∀ a b c, ¬ lt b a → ¬ lt c b → ¬ lt c a.

Lemma insert_sorted_sorted (x : A) (l : list A) :
  StronglySorted (λ x y : A, ¬ lt (key y) (key x)) l →
  StronglySorted (λ x y : A, ¬ lt (key y) (key x)) (insert_sorted key lt x l).
Proof.
  induction 1 as [| y l Hl IH Hy]; simpl.
  - apply SSorted_cons; [apply SSorted_nil | apply Forall_nil_2].
  - case_decide as Hlt.
    + apply SSorted_cons; [exact IH |].
      rewrite (insert_sorted_perm key lt x l).
      apply Forall_cons_2; [by apply lt_asym | exact Hy].
    + apply SSorted_cons; [by apply SSorted_cons |].
      apply Forall_cons_2; [exact Hlt |].
      eapply Forall_impl; [exact Hy |]. intros z Hz. by apply (lt_ntrans _ (key y)).
Qed.

Lemma sort_by_sorted (l : list A) :
  StronglySorted (λ x y : A, ¬ lt (key y) (key x)) (sort_by key lt l).
Proof.
  induction l as [| x l IH]; simpl; [apply SSorted_nil |].
  by apply insert_sorted_sorted.
Qed.

(** The head of a sorted arrangement is not beaten by any element. *)
Lemma sort_by_head_minimal (l : list A) (x : A) (rest : list A) :
  sort_by key lt l = x :: rest → ∀ y, y ∈ l → ¬ lt (key y) (key x).
Proof.
  intros Hsort y Hy. pose proof (sort_by_sorted l) as Hsorted.
  rewrite Hsort in Hsorted. apply StronglySorted_inv in Hsorted as [_ Hall].
  rewrite <- (sort_by_perm key lt l), Hsort in Hy.
  apply elem_of_cons in Hy as [-> | Hy].
  - intros Hxx. by apply (lt_asym _ _ Hxx).
  - rewrite Forall_forall in Hall. by apply Hall.
Qed.
End StableSortSorted.

Lemma xlt_asym (a b : xreal) : xlt a b → ¬ xlt b a.
Proof. destruct a, b; simpl; try tauto. lra. Qed.

Lemma xlt_ntrans (a b c : xreal) : ¬ xlt b a → ¬ xlt c b → ¬ xlt c a.
Proof. destruct a, b, c; simpl; try tauto. lra. Qed.

(** ** The pattern matcher, continued *)

Section PatternMatcherFurther.
Import Fingerprint.
Local Open Scope R_scope.

Lemma py_prefix_length {A} (k : Z) (l : list A) :
  (0 < k)%Z → length (py_prefix k l) = Nat.min (Z.to_nat k) (length l).
Proof.
  intros Hk. unfold py_prefix. rewrite decide_True by lia. apply length_take.
Qed.

Lemma py_prefix_sublist {A} (k : Z) (l : list A) : py_prefix k l `sublist_of` l.
Proof. unfold py_prefix. case_decide; apply sublist_take. Qed.

(** X8: the matcher gives no match exactly when it has nothing to compare:
    for [k >= 1] the answer is [(None, 0, [])] if and only if the store or
    the query is empty; it never raises. *)
Theorem knn_no_match_iff (db : list (string * fingerprint)) (query : list R) (k : Z) :
  (0 < k)%Z →
  (∃ r, estimate_location_knn db query k = Ok r) ∧
  (estimate_location_knn db query k = Ok (None, 0, [])
   ↔ empty_list db ∨ empty_list query).
Proof.
  intros Hk. split; [apply estimate_location_knn_ok |].
  unfold estimate_location_knn. case_decide as Hempty; [tauto |].
  rewrite mapM_score_ok. simpl.
  change (map (scored query) db) with (scored query <$> db).
  split; [| tauto].
  pose proof (sort_by_perm distance xlt (scored query <$> db)) as Hperm.
  destruct (sort_by distance xlt (scored query <$> db)) as [| c s].
  - apply Permutation_length in Hperm. rewrite length_fmap in Hperm.
    simpl in Hperm. intros _. left. unfold empty_list. lia.
  - rewrite py_prefix_cons by done. discriminate.
Qed.

(** X9: the ranking of the matcher.  With a store and a query that are not
    empty and [k >= 1], the candidates are [min(k, len(store))] scored
    records of the store in ascending order of Euclidean distance, the
    best label is the label of the first, the confidence is the step
    function of its distance, and no record of the store is nearer to the
    query than the best candidate. *)
Theorem knn_ranking (db : list (string * fingerprint)) (query : list R) (k : Z) :
  (0 < k)%Z → ¬ empty_list db → ¬ empty_list query →
  ∃ best rest,
    estimate_location_knn db query k
    = Ok (Some (location best), confidence_of (distance best), best :: rest) ∧
    length (best :: rest) = Nat.min (Z.to_nat k) (length db) ∧
    best :: rest ⊆ scored query <$> db ∧
    StronglySorted (λ c1 c2, ¬ xlt (distance c2) (distance c1)) (best :: rest) ∧
    location best ∈ db.*1 ∧
    ∀ entry, entry ∈ db →
      ¬ xlt (euclidean_distance query (fp_pattern entry.2)) (distance best).
Proof.
  intros Hk Hdb Hquery.
  unfold estimate_location_knn. rewrite decide_False by tauto.
  rewrite mapM_score_ok. simpl.
  change (map (scored query) db) with (scored query <$> db).
  pose proof (sort_by_perm distance xlt (scored query <$> db)) as Hperm.
  pose proof (sort_by_sorted distance xlt xlt_asym xlt_ntrans (scored query <$> db))
    as Hsorted.
  destruct (sort_by distance xlt (scored query <$> db)) as [| best s] eqn:Hsort.
  { apply Permutation_length in Hperm. rewrite length_fmap in Hperm.
    simpl in Hperm. exfalso. apply Hdb. unfold empty_list. lia. }
  assert (Hbest : best ∈ scored query <$> db) by (rewrite <- Hperm; left).
  assert (Htop : py_prefix k (best :: s) = best :: take (Z.to_nat (k - 1)) s)
    by (by apply py_prefix_cons).
  assert (Hsub : best :: take (Z.to_nat (k - 1)) s `sublist_of` best :: s)
    by apply sublist_skip, sublist_take.
  exists best, (take (Z.to_nat (k - 1)) s).
  split; [by rewrite Htop |].
  split.
  { apply Permutation_length in Hperm. rewrite length_fmap in Hperm.
    simpl in *. rewrite length_take. lia. }
  split.
  { intros c Hc. rewrite <- Hperm. eapply elem_of_sublist; [exact Hc | exact Hsub]. }
  split.
  { apply StronglySorted_inv in Hsorted as [Hs Hall].
    apply SSorted_cons; [| by apply Forall_take].
    rewrite <- (take_drop (Z.to_nat (k - 1)) s) in Hs.
    by apply StronglySorted_app_1_l in Hs. }
  split.
  { apply list_elem_of_fmap in Hbest as (entry & -> & Hentry).
    apply list_elem_of_fmap. by exists entry. }
  intros entry Hentry.
  apply (sort_by_head_minimal distance xlt xlt_asym xlt_ntrans
           (scored query <$> db) best s Hsort (scored query entry)).
  apply list_elem_of_fmap. by exists entry.
Qed.
End PatternMatcherFurther.

(** ** The two similarity measures *)

Section SimilarityMeasures.
Import Fingerprint.
Local Open Scope R_scope.

Lemma foldl_ext_in {A B} (f g : A → B → A) (l : list B) (a : A) :
  (∀ acc x, x ∈ l → f acc x = g acc x) → foldl f a l = foldl g a l.
Proof.
  revert a. induction l as [| x l IH]; intros a Hext; [done |].
  simpl. rewrite Hext by left. apply IH. intros acc y Hy. apply Hext. by right.
Qed.

(** A sum of terms that are not negative, accumulated from the left. *)
Lemma sum_nonneg (g : nat → R) (indices : list nat) (acc : R) :
  (∀ i, 0 <= g i) →
  acc <= foldl (λ s i, s + g i) acc indices ∧
  (foldl (λ s i, s + g i) acc indices = acc ↔ Forall (λ i, g i = 0) indices).
Proof.
  intros Hg. revert acc. induction indices as [| i indices IH]; intros acc; simpl.
  - split; [lra |]. split; [intros _; apply Forall_nil_2 | done].
  - destruct (IH (acc + g i)) as [Hle Hiff]. specialize (Hg i). split; [lra |].
    rewrite Forall_cons. split.
    + intros Heq. assert (g i = 0) by lra. split; [done |].
      apply Hiff. lra.
    + intros [Hi Hrest]. apply Hiff in Hrest. lra.
Qed.

Lemma sq_diff_zero (a b : R) : (a - b) ^ 2 = 0 ↔ a = b.
Proof.
  split; [| intros ->; simpl; lra].
  intros Hsq. simpl in Hsq. assert (a - b = 0) by nra. lra.
Qed.

Lemma nth_eq_take (pattern1 pattern2 : list R) (n : nat) :
  (n ≤ length pattern1)%nat → (n ≤ length pattern2)%nat →
  (∀ i, (0 <= i < 0 + n)%nat → (nth i pattern1 0 - nth i pattern2 0) ^ 2 = 0)
  ↔ take n pattern1 = take n pattern2.
Proof.
  intros Hn1 Hn2. split.
  - intros Hall. apply list_eq. intros i. rewrite !lookup_take.
    case_decide as Hi; [| done].
    specialize (Hall i ltac:(lia)). apply (proj1 (sq_diff_zero _ _)) in Hall.
    rewrite !nth_lookup in Hall.
    destruct (lookup_lt_is_Some_2 pattern1 i ltac:(lia)) as [a Ha].
    destruct (lookup_lt_is_Some_2 pattern2 i ltac:(lia)) as [b Hb].
    rewrite Ha, Hb in Hall. simpl in Hall. rewrite Ha, Hb. by subst.
  - intros Heq i Hi. apply (proj2 (sq_diff_zero _ _)).
    rewrite !nth_lookup.
    assert (Hlook : take n pattern1 !! i = take n pattern2 !! i) by (by rewrite Heq).
    rewrite !lookup_take in Hlook. rewrite !decide_True in Hlook by lia.
    by rewrite Hlook.
Qed.

(** X10: the Euclidean distance of two patterns that are not empty is 0
    exactly when they agree on their common prefix (the shorter length). *)
Theorem euclidean_distance_zero_iff (pattern1 pattern2 : list R) :
  ¬ empty_list pattern1 → ¬ empty_list pattern2 →
  euclidean_distance pattern1 pattern2 = Fin 0
  ↔ take (Nat.min (length pattern1) (length pattern2)) pattern1
    = take (Nat.min (length pattern1) (length pattern2)) pattern2.
Proof.
  intros H1 H2. unfold euclidean_distance. rewrite decide_False by tauto. cbv zeta.
  set (n := Nat.min (length pattern1) (length pattern2)).
  destruct (sum_nonneg (λ i, (nth i pattern1 0 - nth i pattern2 0) ^ 2) (seq 0 n) 0)
    as [Hle Hiff].
  { intros i. apply pow2_ge_0. }
  rewrite <- (nth_eq_take pattern1 pattern2 n) by (unfold n; lia).
  rewrite <- Forall_seq, <- Hiff.
  split.
  - intros [= Hsqrt]. by apply sqrt_eq_0 in Hsqrt.
  - intros ->. by rewrite sqrt_0.
Qed.

(** X11: only the common prefix counts: what the longer pattern holds
    beyond the length of the shorter one does not change the distance. *)
Theorem euclidean_distance_ignores_tail (pattern1 pattern2 extra : list R) :
  ¬ empty_list pattern1 → (length pattern1 ≤ length pattern2)%nat →
  euclidean_distance pattern1 (pattern2 ++ extra) = euclidean_distance pattern1 pattern2 ∧
  euclidean_distance (pattern2 ++ extra) pattern1 = euclidean_distance pattern2 pattern1.
Proof.
  intros H1 Hlen. unfold empty_list in H1.
  assert (H2 : ¬ empty_list pattern2) by (unfold empty_list; lia).
  assert (H3 : ¬ empty_list (pattern2 ++ extra))
    by (unfold empty_list; rewrite length_app; unfold empty_list in H2; lia).
  unfold euclidean_distance. rewrite !decide_False by (unfold empty_list in *; tauto).
  cbv zeta. rewrite length_app.
  replace (Nat.min (length pattern1) (length pattern2 + length extra))
    with (length pattern1) by lia.
  replace (Nat.min (length pattern2 + length extra) (length pattern1))
    with (length pattern1) by lia.
  replace (Nat.min (length pattern1) (length pattern2)) with (length pattern1) by lia.
  replace (Nat.min (length pattern2) (length pattern1)) with (length pattern1) by lia.
  split; do 2 f_equal; apply foldl_ext_in; intros acc i Hi;
    apply elem_of_seq in Hi; rewrite app_nth1 by lia; reflexivity.
Qed.

Lemma map_nth_seq (pattern1 : list R) :
  map (λ i, nth i pattern1 0) (seq 0 (length pattern1)) = pattern1.
Proof.
  induction pattern1 as [| x l IH]; [done |].
  simpl. f_equal. rewrite <- seq_shift, map_map. exact IH.
Qed.

Lemma py_sum_shift (l : list R) (acc : R) : foldl Rplus acc l = acc + py_sum l.
Proof.
  unfold py_sum. revert acc. induction l as [| x l IH]; intros acc; simpl; [lra |].
  rewrite (IH (acc + x)), (IH (0 + x)). lra.
Qed.

Lemma py_sum_cons (x : R) (l : list R) : py_sum (x :: l) = x + py_sum l.
Proof. unfold py_sum at 1. simpl. rewrite py_sum_shift. lra. Qed.

Lemma py_sum_squares (l : list R) :
  0 <= py_sum (map (λ x, x ^ 2) l) ∧
  (py_sum (map (λ x, x ^ 2) l) = 0 ↔ Forall (λ x, x = 0) l).
Proof.
  induction l as [| x l [Hle Hiff]].
  - unfold py_sum. simpl. split; [lra |]. split; [intros _; apply Forall_nil_2 | done].
  - change (map (λ x0, x0 ^ 2) (x :: l)) with (x ^ 2 :: map (λ x0, x0 ^ 2) l).
    rewrite py_sum_cons.
    pose proof (pow2_ge_0 x) as Hx.
    split; [lra |]. rewrite Forall_cons. split.
    + intros Hsum. assert (Hx0 : x ^ 2 = 0) by lra.
      split; [simpl in Hx0; nra |]. apply Hiff. lra.
    + intros [-> Hrest]. apply Hiff in Hrest. rewrite Hrest. simpl. lra.
Qed.

(** X12: the cosine similarity of a pattern with itself is 1, unless all
    its entries are 0 (or it is empty), when it is 0; it never raises. *)
Theorem cosine_similarity_self (pattern1 : list R) :
  cosine_similarity pattern1 pattern1
  = Ok (if decide (Forall (λ x, x = 0) pattern1) then 0 else 1).
Proof.
  unfold cosine_similarity. case_decide as Hempty.
  - rewrite decide_True; [done |].
    assert (pattern1 = []) as -> by (destruct Hempty as [H | H]; by destruct pattern1).
    apply Forall_nil_2.
  - cbv zeta. rewrite Nat.min_id, take_ge by lia.
    replace (map (λ i, nth i pattern1 0 * nth i pattern1 0) (seq 0 (length pattern1)))
      with (map (λ x, x ^ 2) pattern1).
    2: { rewrite <- (map_nth_seq pattern1) at 1. rewrite map_map.
         apply map_ext. intros i. simpl. lra. }
    destruct (py_sum_squares pattern1) as [Hle Hiff].
    set (S := py_sum (map (λ x, x ^ 2) pattern1)) in *.
    case_decide as Hnorm.
    + rewrite decide_True; [done |].
      apply Hiff. destruct Hnorm as [H | H]; by apply sqrt_eq_0 in H.
    + rewrite decide_False by (intros Hzero; apply Hiff in Hzero; apply Hnorm; left;
                               rewrite Hzero; apply sqrt_0).
      assert (HS : S ≠ 0).
      { intros Hzero. apply Hnorm. left. rewrite Hzero. apply sqrt_0. }
      rewrite py_div_ok by (rewrite sqrt_sqrt by lra; exact HS).
      rewrite sqrt_sqrt by lra. f_equal. by field.
Qed.

(** X13: both measures are symmetric in their arguments. *)
Theorem similarity_symmetric (pattern1 pattern2 : list R) :
  euclidean_distance pattern1 pattern2 = euclidean_distance pattern2 pattern1 ∧
  cosine_similarity pattern1 pattern2 = cosine_similarity pattern2 pattern1.
Proof.
  split.
  - unfold euclidean_distance.
    destruct (decide (empty_list pattern1 ∨ empty_list pattern2)) as [He | He].
    + by rewrite decide_True by tauto.
    + rewrite decide_False by tauto. cbv zeta.
      rewrite (Nat.min_comm (length pattern2)). do 2 f_equal.
      apply foldl_ext_in. intros acc i _. simpl. lra.
  - unfold cosine_similarity.
    destruct (decide (empty_list pattern1 ∨ empty_list pattern2)) as [He | He].
    + by rewrite decide_True by tauto.
    + rewrite (decide_False (P := empty_list pattern2 ∨ empty_list pattern1)) by tauto.
      cbv zeta.
      rewrite (Nat.min_comm (length pattern2)).
      set (n := Nat.min (length pattern1) (length pattern2)).
      replace (map (λ i, nth i pattern2 0 * nth i pattern1 0) (seq 0 n))
        with (map (λ i, nth i pattern1 0 * nth i pattern2 0) (seq 0 n))
        by (apply map_ext; intros i; lra).
      repeat case_decide; try tauto; try done.
      by rewrite Rmult_comm.
Qed.
End SimilarityMeasures.

(** ** Worked examples for the pattern matcher and its measures *)

Section PatternMatcherFurtherExamples.
Import Fingerprint Samples.
Local Open Scope R_scope.

Lemma knn_no_match_iff_witness :
  (∃ r, estimate_location_knn corridor_db [50; 60] 3 = Ok r) ∧
  (estimate_location_knn corridor_db [50; 60] 3 = Ok (None, 0, [])
   ↔ empty_list corridor_db ∨ empty_list [50; 60]).
Proof. apply knn_no_match_iff. lia. Defined.

Lemma knn_ranking_witness :
  ∃ best rest,
    estimate_location_knn corridor_db [50; 60] 2
    = Ok (Some (location best), confidence_of (distance best), best :: rest) ∧
    length (best :: rest) = Nat.min (Z.to_nat 2) (length corridor_db) ∧
    best :: rest ⊆ scored [50; 60] <$> corridor_db ∧
    StronglySorted (λ c1 c2, ¬ xlt (distance c2) (distance c1)) (best :: rest) ∧
    location best ∈ corridor_db.*1 ∧
    ∀ entry, entry ∈ corridor_db →
      ¬ xlt (euclidean_distance [50; 60] (fp_pattern entry.2)) (distance best).
Proof.
  apply knn_ranking; [lia | |]; unfold empty_list; simpl; lia.
Defined.

Lemma euclidean_distance_zero_iff_witness :
  euclidean_distance [50; 60] [50; 60; 70] = Fin 0
  ↔ take (Nat.min (length [50; 60]) (length [50; 60; 70])) [50; 60]
    = take (Nat.min (length [50; 60]) (length [50; 60; 70])) [50; 60; 70].
Proof.
  apply euclidean_distance_zero_iff; unfold empty_list; simpl; lia.
Defined.

Lemma euclidean_distance_ignores_tail_witness :
  euclidean_distance [50; 60] ([55; 62] ++ [70; 80]) = euclidean_distance [50; 60] [55; 62] ∧
  euclidean_distance ([55; 62] ++ [70; 80]) [50; 60] = euclidean_distance [55; 62] [50; 60].
Proof.
  apply euclidean_distance_ignores_tail; unfold empty_list; simpl; lia.
Defined.
End PatternMatcherFurtherExamples.

(** ** The nearest room *)

Section NearestRoom.
Local Open Scope R_scope.

(** The linear scan of the three [get_nearest_room]: the running minimum
    is replaced only by a strictly smaller distance.  Either no entry
    beat the start value, or the result is an entry that is strictly
    nearer than all entries before it and at least as near as all entries
    after it. *)
Lemma nearest_scan {K L : Type} (dist : K → R) (label : string → L)
    (f : xreal * L → string * K → xreal * L) (table : list (string * K))
    (m0 : xreal) (n0 : L) :
  (∀ m n room k,
     f (m, n) (room, k)
     = if decide (xlt (Fin (dist k)) m) then (Fin (dist k), label room) else (m, n)) →
  (foldl f (m0, n0) table = (m0, n0) ∧
   Forall (λ e, ¬ xlt (Fin (dist e.2)) m0) table) ∨
  (∃ t1 room k t2,
     table = t1 ++ (room, k) :: t2 ∧
     foldl f (m0, n0) table = (Fin (dist k), label room) ∧
     xlt (Fin (dist k)) m0 ∧
     Forall (λ e, dist k < dist e.2) t1 ∧
     Forall (λ e, dist k <= dist e.2) t2).
Proof.
  intros Hf. induction table as [| [room k] table IH] using rev_ind.
  - left. split; [done | apply Forall_nil_2].
  - rewrite foldl_snoc.
    destruct IH as [[-> Hnone] | (t1 & room0 & k0 & t2 & -> & -> & Hbeat & H1 & H2)];
      rewrite Hf; case_decide as Hlt.
    + right. exists table, room, k, []. split; [done |]. split; [done |].
      split; [done |]. split; [| apply Forall_nil_2].
      eapply Forall_impl; [exact Hnone |]. intros e He.
      destruct m0 as [r |]; simpl in *; [lra | tauto].
    + left. split; [done |]. apply Forall_app. split; [exact Hnone |].
      by apply Forall_singleton.
    + right. exists (t1 ++ (room0, k0) :: t2), room, k, []. simpl in Hlt.
      split; [done |]. split; [done |].
      split; [destruct m0; simpl in *; [lra | done] |].
      split; [| apply Forall_nil_2].
      apply Forall_app. split; [| apply Forall_cons; split; [done |]].
      * eapply Forall_impl; [exact H1 |]. simpl. intros e He. lra.
      * eapply Forall_impl; [exact H2 |]. simpl. intros e He. lra.
    + right. exists t1, room0, k0, (t2 ++ [(room, k)]). simpl in Hlt.
      split; [by rewrite <- app_assoc |]. split; [done |]. split; [done |].
      split; [done |]. apply Forall_app. split; [done |].
      apply Forall_singleton. simpl. lra.
Qed.

(** From a start value of [inf], the scan of a table that is not empty
    ends at an entry of the table. *)
Lemma nearest_scan_inf {K L : Type} (dist : K → R) (label : string → L)
    (f : xreal * L → string * K → xreal * L) (table : list (string * K)) (n0 : L) :
  (∀ m n room k,
     f (m, n) (room, k)
     = if decide (xlt (Fin (dist k)) m) then (Fin (dist k), label room) else (m, n)) →
  table ≠ [] →
  ∃ t1 room k t2,
    table = t1 ++ (room, k) :: t2 ∧
    foldl f (PInf, n0) table = (Fin (dist k), label room) ∧
    Forall (λ e, dist k < dist e.2) t1 ∧
    Forall (λ e, dist k <= dist e.2) t2.
Proof.
  intros Hf Hne.
  destruct (nearest_scan dist label f table PInf n0 Hf)
    as [[_ Hnone] | (t1 & room & k & t2 & Htable & Hfold & _ & H1 & H2)].
  - destruct table as [| e table]; [done |].
    apply Forall_cons in Hnone as [Hnone _]. simpl in Hnone. tauto.
  - by exists t1, room, k, t2.
Qed.

(** X14 (web_track.py): the room returned for a position is a room of
    [ROOM_POSITIONS] at the least distance from the position; of several
    rooms at that distance it is the first of the table. *)
Theorem web_nearest_room_is_nearest (pos : R) :
  ∃ t1 room_pos t2,
    WebTrack.ROOM_POSITIONS = t1 ++ (WebTrack.get_nearest_room pos, room_pos) :: t2 ∧
    Forall (λ e, Rabs (pos - room_pos) < Rabs (pos - e.2)) t1 ∧
    Forall (λ e, Rabs (pos - room_pos) <= Rabs (pos - e.2)) t2.
Proof.
  unfold WebTrack.get_nearest_room.
  match goal with
  | |- context [foldl ?f (PInf, ?n0) WebTrack.ROOM_POSITIONS] =>
      destruct (nearest_scan_inf (λ room_pos, Rabs (pos - room_pos)) (λ room, room)
                  f WebTrack.ROOM_POSITIONS n0)
        as (t1 & room & room_pos & t2 & Htable & Hfold & H1 & H2);
      [done | done |]
  end.
  exists t1, room_pos, t2. rewrite Hfold. simpl. by rewrite <- Htable.
Qed.

(** X15 (realtime_track.py): the same scan over that file's table; the
    second component is the distance to the room returned. *)
Theorem realtime_nearest_room_is_nearest (pos : R) :
  ∃ t1 room room_pos t2,
    RealtimeTrack.get_nearest_room pos = (room, Fin (Rabs (pos - room_pos))) ∧
    RealtimeTrack.ROOM_POSITIONS = t1 ++ (room, room_pos) :: t2 ∧
    Forall (λ e, Rabs (pos - room_pos) < Rabs (pos - e.2)) t1 ∧
    Forall (λ e, Rabs (pos - room_pos) <= Rabs (pos - e.2)) t2.
Proof.
  unfold RealtimeTrack.get_nearest_room.
  match goal with
  | |- context [foldl ?f (PInf, ?n0) RealtimeTrack.ROOM_POSITIONS] =>
      destruct (nearest_scan_inf (λ room_pos, Rabs (pos - room_pos)) (λ room, room)
                  f RealtimeTrack.ROOM_POSITIONS n0)
        as (t1 & room & room_pos & t2 & Htable & Hfold & H1 & H2);
      [done | done |]
  end.
  exists t1, room, room_pos, t2. by rewrite Hfold.
Qed.

(** X16 (config.py): over any table of room centroids, the answer is
    [None] exactly when the table is empty, and otherwise the first of
    the rooms whose centroid is at the least distance from the point. *)
Theorem config_nearest_room_is_nearest
    (ROOM_CENTROIDS : list (string * Estimator.position)) (x y : R) :
  (Rooms.get_nearest_room ROOM_CENTROIDS x y = None ↔ ROOM_CENTROIDS = []) ∧
  (ROOM_CENTROIDS ≠ [] →
   ∃ t1 room centroid t2,
     Rooms.get_nearest_room ROOM_CENTROIDS x y = Some room ∧
     ROOM_CENTROIDS = t1 ++ (room, centroid) :: t2 ∧
     Forall (λ e, Geometry.calculate_distance (x, y) centroid
                  < Geometry.calculate_distance (x, y) e.2) t1 ∧
     Forall (λ e, Geometry.calculate_distance (x, y) centroid
                  <= Geometry.calculate_distance (x, y) e.2) t2).
Proof.
  assert (Hscan : ROOM_CENTROIDS ≠ [] →
     ∃ t1 room centroid t2,
     Rooms.get_nearest_room ROOM_CENTROIDS x y = Some room ∧
     ROOM_CENTROIDS = t1 ++ (room, centroid) :: t2 ∧
     Forall (λ e, Geometry.calculate_distance (x, y) centroid
                  < Geometry.calculate_distance (x, y) e.2) t1 ∧
     Forall (λ e, Geometry.calculate_distance (x, y) centroid
                  <= Geometry.calculate_distance (x, y) e.2) t2).
  { intros Hne. unfold Rooms.get_nearest_room.
    rewrite decide_False by (by destruct ROOM_CENTROIDS).
    match goal with
    | |- context [foldl ?f (PInf, ?n0) ROOM_CENTROIDS] =>
        destruct (nearest_scan_inf (Geometry.calculate_distance (x, y)) Some
                    f ROOM_CENTROIDS n0)
          as (t1 & room & centroid & t2 & Htable & Hfold & H1 & H2);
        [by intros m n room [cx cy] | done |]
    end.
    exists t1, room, centroid, t2. unfold Estimator.position in *. by rewrite Hfold. }
  split; [| exact Hscan]. split.
  - intros Hnone. destruct ROOM_CENTROIDS as [| e table]; [done |].
    destruct Hscan as (t1 & room & centroid & t2 & Hsome & _); [done |].
    by rewrite Hsome in Hnone.
  - intros ->. done.
Qed.
End NearestRoom.

(** ** The calibrated interpolation, continued *)

Section InterpolationFurther.
Local Open Scope R_scope.

Ltac next_segment :=
  match goal with
  | H : ¬ (?hi >= ?r ∧ ?r >= ?lo) |- _ =>
      assert (r < lo) by (apply Rnot_ge_lt; intro; apply H; split; lra); clear H
  end.

(** The interpolation of web_track.py, branch by branch: the segments
    of width 0 (at -65 and at -68) are never taken, and the position
    jumps there. *)
Lemma web_rssi_to_position_piecewise (rssi : R) :
  ∃ pos : R, WebTrack.rssi_to_position rssi = Ok pos ∧
    ((-44 <= rssi ∧ pos = 0) ∨
     (-54 <= rssi < -44 ∧ pos = (-44 - rssi) * 0.8) ∨
     (-60 <= rssi < -54 ∧ pos = 8 + (-54 - rssi) * (4 / 6)) ∨
     (-65 <= rssi < -60 ∧ pos = 12 + (-60 - rssi) * (6 / 5)) ∨
     (-68 <= rssi < -65 ∧ pos = 28 + (-65 - rssi) * (10 / 3)) ∨
     (-69 <= rssi < -68 ∧ pos = 48 + (-68 - rssi) * 7) ∨
     (-74 < rssi < -69 ∧ pos = 55 + (-69 - rssi) * 2) ∨
     (rssi <= -74 ∧ pos = 65 + (-74 - rssi))).
Proof.
  unfold WebTrack.rssi_to_position, WebTrack.CALIBRATION. simpl.
  case_decide as Hfirst; [eexists; split; [reflexivity | left; lra] |].
  case_decide as Hlast;
    [eexists; split; [reflexivity | do 7 right; split; lra] |].
  apply Rnot_ge_lt in Hfirst. apply Rnot_le_lt in Hlast.
  repeat case_decide; repeat next_segment; try lra;
    rewrite py_div_ok by lra; simpl; eexists; (split; [reflexivity |]).
  - right; left. split; [lra | lra].
  - do 2 right; left. split; [lra | lra].
  - do 3 right; left. split; [lra | lra].
  - do 4 right; left. split; [lra | lra].
  - do 5 right; left. split; [lra | lra].
  - do 6 right; left. split; [lra | lra].
Qed.

(** X17: in web_track.py a weaker signal never gives a smaller position:
    the interpolation returns for every RSSI and is antitone in it. *)
Theorem web_rssi_to_position_antitone (rssi1 rssi2 : R) :
  rssi1 <= rssi2 →
  ∃ pos1 pos2 : R,
    WebTrack.rssi_to_position rssi1 = Ok pos1 ∧
    WebTrack.rssi_to_position rssi2 = Ok pos2 ∧
    pos2 <= pos1.
Proof.
  intros Hle.
  destruct (web_rssi_to_position_piecewise rssi1) as (pos1 & H1 & Hcase1).
  destruct (web_rssi_to_position_piecewise rssi2) as (pos2 & H2 & Hcase2).
  exists pos1, pos2. split; [exact H1 |]. split; [exact H2 |].
  destruct Hcase1
    as [[? ->] | [[? ->] | [[? ->] | [[? ->] | [[? ->] | [[? ->] | [[? ->] | [? ->]]]]]]]];
  destruct Hcase2
    as [[? ->] | [[? ->] | [[? ->] | [[? ->] | [[? ->] | [[? ->] | [[? ->] | [? ->]]]]]]]];
  lra.
Qed.

(** X18: the calibration table of web_track.py lists -65 dBm and -68 dBm
    twice, so the interpolation jumps there: no RSSI is mapped to a
    position in (18, 28] or in (38, 48]. *)
Theorem web_rssi_to_position_gaps (rssi : R) :
  ∃ pos : R,
    WebTrack.rssi_to_position rssi = Ok pos ∧
    ¬ (18 < pos <= 28) ∧ ¬ (38 < pos <= 48).
Proof.
  destruct (web_rssi_to_position_piecewise rssi) as (pos & Hpos & Hcase).
  exists pos. split; [exact Hpos |].
  destruct Hcase
    as [[? ->] | [[? ->] | [[? ->] | [[? ->] | [[? ->] | [[? ->] | [[? ->] | [? ->]]]]]]]];
    split; lra.
Qed.

(** The interpolation of realtime_track.py, branch by branch. *)
Lemma realtime_rssi_to_position_piecewise (rssi : R) :
  ∃ pos : R, RealtimeTrack.rssi_to_position rssi = Ok pos ∧
    ((-38 <= rssi ∧ pos = 0) ∨
     (-56 <= rssi < -38 ∧ pos = (-38 - rssi) * (16.2 / 18)) ∨
     (-58 <= rssi < -56 ∧ pos = 16.2 + (-56 - rssi) * (11 / 2)) ∨
     (-63 <= rssi < -58 ∧ pos = 27.2 + (-58 - rssi) * (11 / 5)) ∨
     (-68 < rssi < -63 ∧ pos = 38.2 + (-63 - rssi) * (13.5 / 5)) ∨
     (rssi <= -68 ∧ pos = 51.7 + (-68 - rssi))).
Proof.
  unfold RealtimeTrack.rssi_to_position, RealtimeTrack.CALIBRATION. simpl.
  case_decide as Hfirst; [eexists; split; [reflexivity | left; lra] |].
  case_decide as Hlast;
    [eexists; split; [reflexivity | do 5 right; split; lra] |].
  apply Rnot_ge_lt in Hfirst. apply Rnot_le_lt in Hlast.
  repeat case_decide; repeat next_segment; try lra;
    rewrite py_div_ok by lra; simpl; eexists; (split; [reflexivity |]).
  - right; left. split; [lra | lra].
  - do 2 right; left. split; [lra | lra].
  - do 3 right; left. split; [lra | lra].
  - do 4 right; left. split; [lra | lra].
Qed.

(** X19: the interpolation of realtime_track.py returns for every RSSI a
    position that is not negative, is antitone in the RSSI, and is
    continuous where its branches meet: two RSSI values that are [d]
    apart give positions at most [5.5 * d] apart. *)
Theorem realtime_rssi_to_position_antitone (rssi1 rssi2 : R) :
  rssi1 <= rssi2 →
  ∃ pos1 pos2 : R,
    RealtimeTrack.rssi_to_position rssi1 = Ok pos1 ∧
    RealtimeTrack.rssi_to_position rssi2 = Ok pos2 ∧
    0 <= pos2 <= pos1 ∧
    pos1 - pos2 <= 5.5 * (rssi2 - rssi1).
Proof.
  intros Hle.
  destruct (realtime_rssi_to_position_piecewise rssi1) as (pos1 & H1 & Hcase1).
  destruct (realtime_rssi_to_position_piecewise rssi2) as (pos2 & H2 & Hcase2).
  exists pos1, pos2. split; [exact H1 |]. split; [exact H2 |].
  destruct Hcase1 as [[? ->] | [[? ->] | [[? ->] | [[? ->] | [[? ->] | [? ->]]]]]];
  destruct Hcase2 as [[? ->] | [[? ->] | [[? ->] | [[? ->] | [[? ->] | [? ->]]]]]];
  lra.
Qed.

(** X20: in realtime_track.py every calibration point is reproduced: the
    RSSI measured at a room is mapped to that room's position. *)
Theorem realtime_calibration_round_trip (room : string) (rssi pos : R) :
  (room, rssi, pos) ∈ RealtimeTrack.CALIBRATION →
  RealtimeTrack.rssi_to_position rssi = Ok pos.
Proof.
  intros Hin. destruct (realtime_rssi_to_position_piecewise rssi) as (p & -> & Hcase).
  f_equal. unfold RealtimeTrack.CALIBRATION in Hin.
  repeat (apply elem_of_cons in Hin as [[= -> -> ->] | Hin]);
    [.. | by apply elem_of_nil in Hin];
    destruct Hcase as [[? ->] | [[? ->] | [[? ->] | [[? ->] | [[? ->] | [? ->]]]]]];
    lra.
Qed.
End InterpolationFurther.

Section InterpolationFurtherExamples.
Local Open Scope R_scope.

Lemma web_rssi_to_position_antitone_witness :
  ∃ pos1 pos2 : R,
    WebTrack.rssi_to_position (-70) = Ok pos1 ∧
    WebTrack.rssi_to_position (-50) = Ok pos2 ∧
    pos2 <= pos1.
Proof. apply web_rssi_to_position_antitone. lra. Defined.

Lemma realtime_rssi_to_position_antitone_witness :
  ∃ pos1 pos2 : R,
    RealtimeTrack.rssi_to_position (-70) = Ok pos1 ∧
    RealtimeTrack.rssi_to_position (-50) = Ok pos2 ∧
    0 <= pos2 <= pos1 ∧
    pos1 - pos2 <= 5.5 * (-50 - -70).
Proof. apply realtime_rssi_to_position_antitone. lra. Defined.

Lemma realtime_calibration_round_trip_witness :
  RealtimeTrack.rssi_to_position (-58) = Ok 27.2.
Proof.
  apply (realtime_calibration_round_trip "7408").
  unfold RealtimeTrack.CALIBRATION. do 2 right. left.
Defined.
End InterpolationFurtherExamples.

(** ** Sessions of the web tracker *)

Section SessionProperties.
Import Fingerprint WebTrack Session.
Local Open Scope R_scope.

Lemma push_bounded_bound (size : nat) (buffer : list R) (x : R) :
  (length buffer ≤ size)%nat → (length (push_bounded size buffer x) ≤ size)%nat.
Proof.
  intros Hlen. unfold push_bounded.
  case_decide as Hlong; [rewrite length_drop |]; rewrite length_app in *; simpl in *; lia.
Qed.

Lemma push_bounded_suffix (size : nat) (buffer : list R) (x : R) :
  push_bounded size buffer x `suffix_of` buffer ++ [x].
Proof. unfold push_bounded. case_decide; [apply suffix_drop | done]. Qed.

(** One cycle, step by step: what it returns and the globals it leaves. *)
Lemma get_status_run (avail : bool) (db : list (string * fingerprint))
    (wifi_rssi : option R) (scan : list R) (now : R) (st : state) :
  (active st = true → is_Some (start_time st)) →
  ∃ out st' raw_pos,
    get_status avail db wifi_rssi scan now st = Ok (out, st') ∧
    let rb := push_bounded RSSI_BUFFER_SIZE (rssi_buffer st) (default (-50) wifi_rssi) in
    let pb := push_bounded POSITION_BUFFER_SIZE (position_buffer st) raw_pos in
    let stab := stabilise (mean pb) (last_reported_position st) in
    let fp := fingerprint_step avail db scan in
    let fused := fuse fp.1.1 fp.1.2 (get_nearest_room stab.1) stab.1 in
    let dir := detect_direction fused.1.2 (last_stable_position st) in
    rssi_to_position (mean rb) = Ok raw_pos ∧ 0 <= raw_pos ∧
    rssi_buffer st' = rb ∧ position_buffer st' = pb ∧
    last_reported_position st' = stab.2 ∧ last_stable_position st' = dir.2 ∧
    active st' = active st ∧ start_time st' = start_time st ∧
    s_direction out = dir.1 ∧ s_position out = py_round_n fused.1.2 1 ∧
    s_fallback_position out = py_round_n stab.1 1 ∧
    s_fallback_room out = get_nearest_room stab.1 ∧
    s_room out = fused.1.1 ∧ s_method out = fused.2 ∧
    s_rssi out = py_round (mean rb) ∧ s_tracking out = active st ∧
    s_trajectory_count out = length (trajectory st') ∧
    (active st = false → trajectory st' = trajectory st ∧ current st' = current st) ∧
    (active st = true →
     ∃ pt, trajectory st' = trajectory st ++ [pt] ∧ current st' = Some pt ∧
           p_position pt = s_position out ∧ p_rssi pt = s_rssi out ∧
           p_room pt = s_room out ∧ p_method pt = s_method out).
Proof.
  intros Hwf. unfold get_status.
  rewrite smooth_ok by (unfold RSSI_BUFFER_SIZE; lia).
  fold (mean (push_bounded RSSI_BUFFER_SIZE (rssi_buffer st) (default (-50) wifi_rssi))).
  simpl.
  destruct (fingerprint_step avail db scan) as [[fp_location fp_confidence] fp_candidates].
  destruct (rssi_to_position_cases
              (mean (push_bounded RSSI_BUFFER_SIZE (rssi_buffer st)
                       (default (-50) wifi_rssi))))
    as (raw_pos & Hraw & Hpos).
  rewrite Hraw.
  simpl. rewrite smooth_ok by (unfold POSITION_BUFFER_SIZE; lia).
  fold (mean (push_bounded POSITION_BUFFER_SIZE (position_buffer st) raw_pos)).
  simpl.
  destruct (stabilise _ _) as [rssi_pos last_reported] eqn:Hstab.
  destruct (fuse _ _ _ _) as [[final_room final_pos] method] eqn:Hfuse.
  destruct (detect_direction _ _) as [direction last_stable] eqn:Hdir.
  unfold record_point.
  destruct (active st) eqn:Hactive.
  - destruct (Hwf eq_refl) as [t0 ->]. simpl.
    eexists _, _, raw_pos. split; [reflexivity |]. cbv zeta. rewrite Hstab. simpl.
    rewrite Hfuse. simpl. rewrite Hdir. simpl.
    do 17 (split; [done |]). split; [discriminate |]. intros _. eexists. repeat split; reflexivity.
  - simpl. eexists _, _, raw_pos. split; [reflexivity |]. cbv zeta. rewrite Hstab. simpl.
    rewrite Hfuse. simpl. rewrite Hdir. simpl.
    do 17 (split; [done |]). split; [done | discriminate].
Qed.

(** What holds of the globals in every state of a session. *)
Lemma reachable_state_invariant (st : state) :
  reachable_state st →
  (length (rssi_buffer st) ≤ RSSI_BUFFER_SIZE)%nat ∧
  (length (position_buffer st) ≤ POSITION_BUFFER_SIZE)%nat ∧
  (active st = true → is_Some (start_time st)).
Proof.
  induction 1 as [| avail db wifi_rssi scan now st out st' Hreach (Hr & Hp & Hwf) Hstatus
                  | now st Hreach (Hr & Hp & Hwf) | st Hreach (Hr & Hp & Hwf)
                  | st Hreach (Hr & Hp & Hwf)].
  - simpl. unfold RSSI_BUFFER_SIZE, POSITION_BUFFER_SIZE. split; [lia |]. split; [lia | done].
  - destruct (get_status_run avail db wifi_rssi scan now st Hwf)
      as (out0 & st0 & raw_pos & Hrun & Hfacts).
    rewrite Hrun in Hstatus. injection Hstatus as <- <-.
    cbv zeta in Hfacts.
    destruct Hfacts as (_ & _ & -> & -> & _ & _ & -> & -> & _).
    split; [by apply push_bounded_bound |]. split; [by apply push_bounded_bound | done].
  - simpl. split; [done |]. split; [done |]. intros _. by eexists.
  - simpl. split; [done |]. split; [done | discriminate].
  - simpl. done.
Qed.

(** X21: whatever requests a session has served (status, start, stop,
    clear, in any order and with any readings), the RSSI buffer holds at
    most 10 and the position buffer at most 8 values, a session that is
    tracking has its start time set, and the next status request returns
    an answer: it does not raise. *)
Theorem session_status_never_fails (st : state) :
  reachable_state st →
  (length (rssi_buffer st) ≤ 10)%nat ∧
  (length (position_buffer st) ≤ 8)%nat ∧
  (active st = true → is_Some (start_time st)) ∧
  ∀ avail db wifi_rssi scan now,
    ∃ out st', get_status avail db wifi_rssi scan now st = Ok (out, st') ∧
               reachable_state st'.
Proof.
  intros Hreach.
  destruct (reachable_state_invariant st Hreach) as (Hr & Hp & Hwf).
  split; [exact Hr |]. split; [exact Hp |]. split; [exact Hwf |].
  intros avail db wifi_rssi scan now.
  destruct (get_status_run avail db wifi_rssi scan now st Hwf)
    as (out & st' & raw_pos & Hrun & _).
  exists out, st'. split; [exact Hrun |]. by eapply reach_status.
Qed.

(** X22: the direction of a cycle.  The answer is "stay" and the anchor
    [last_stable_position] is kept, or it is "forward" and the anchor
    moves up by at least 5 m, or "backward" and it moves down by at least
    5 m; in each case the position of the answer is the rounding of a
    position less than 5 m from the new anchor. *)
Theorem get_status_direction (avail : bool) (db : list (string * fingerprint))
    (wifi_rssi : option R) (scan : list R) (now : R) (st : state) :
  (active st = true → is_Some (start_time st)) →
  ∃ out st' final_pos,
    get_status avail db wifi_rssi scan now st = Ok (out, st') ∧
    s_position out = py_round_n final_pos 1 ∧
    Rabs (final_pos - last_stable_position st') < 5 ∧
    ((s_direction out = "stay"%string ∧
      last_stable_position st' = last_stable_position st) ∨
     (s_direction out = "forward"%string ∧ last_stable_position st' = final_pos ∧
      last_stable_position st + 5 <= last_stable_position st') ∨
     (s_direction out = "backward"%string ∧ last_stable_position st' = final_pos ∧
      last_stable_position st' <= last_stable_position st - 5)).
Proof.
  intros Hwf.
  destruct (get_status_run avail db wifi_rssi scan now st Hwf)
    as (out & st' & raw_pos & Hrun & Hfacts).
  cbv zeta in Hfacts.
  destruct Hfacts as (_ & _ & _ & _ & _ & Hanchor & _ & _ & Hdir & Hpos & _).
  revert Hanchor Hdir Hpos.
  generalize (fuse (fingerprint_step avail db scan).1.1 (fingerprint_step avail db scan).1.2
    (get_nearest_room
       (stabilise (mean (push_bounded POSITION_BUFFER_SIZE (position_buffer st) raw_pos))
          (last_reported_position st)).1)
    (stabilise (mean (push_bounded POSITION_BUFFER_SIZE (position_buffer st) raw_pos))
       (last_reported_position st)).1).1.2.
  intros final_pos Hanchor Hdir Hpos.
  exists out, st', final_pos. split; [exact Hrun |]. split; [exact Hpos |].
  revert Hanchor Hdir. unfold detect_direction, DIRECTION_THRESHOLD.
  case_decide as Hfar; [case_decide as Hsign |]; simpl; intros -> ->.
  - split; [rewrite Rminus_diag, Rabs_R0; lra |]. right; left.
    split; [done |]. split; [done |].
    rewrite Rabs_right in Hfar by lra. lra.
  - split; [rewrite Rminus_diag, Rabs_R0; lra |]. right; right.
    split; [done |]. split; [done |].
    assert (final_pos - last_stable_position st <= 0) as Hneg by lra.
    rewrite Rabs_left1 in Hfar by exact Hneg. lra.
  - split; [lra |]. by left.
Qed.

(** X23: the minimum-change filter of a cycle.  The fallback position of
    the answer is the rounding of [last_reported_position] as the cycle
    leaves it, and that variable either keeps its value or moves by at
    least 1 m. *)
Theorem get_status_min_change (avail : bool) (db : list (string * fingerprint))
    (wifi_rssi : option R) (scan : list R) (now : R) (st : state) :
  (active st = true → is_Some (start_time st)) →
  ∃ out st',
    get_status avail db wifi_rssi scan now st = Ok (out, st') ∧
    s_fallback_position out = py_round_n (last_reported_position st') 1 ∧
    s_fallback_room out = get_nearest_room (last_reported_position st') ∧
    (last_reported_position st' = last_reported_position st ∨
     1 <= Rabs (last_reported_position st' - last_reported_position st)).
Proof.
  intros Hwf.
  destruct (get_status_run avail db wifi_rssi scan now st Hwf)
    as (out & st' & raw_pos & Hrun & Hfacts).
  cbv zeta in Hfacts.
  destruct Hfacts as (_ & _ & _ & _ & Hreported & _ & _ & _ & _ & _ & Hpos & Hroom & _).
  exists out, st'. split; [exact Hrun |].
  revert Hreported Hpos Hroom. unfold stabilise, MIN_POSITION_CHANGE.
  case_decide as Hnear; simpl; intros -> -> ->.
  - split; [done |]. split; [done |]. by left.
  - split; [done |]. split; [done |]. right. lra.
Qed.

(** X24: the trajectory of a cycle.  While the session is not tracking a
    status request leaves the trajectory and the current point as they
    are; while it is tracking it appends exactly one point, which becomes
    the current point and repeats the position, RSSI, room and method of
    the answer.  The count of the answer is the new length. *)
Theorem get_status_trajectory (avail : bool) (db : list (string * fingerprint))
    (wifi_rssi : option R) (scan : list R) (now : R) (st : state) :
  (active st = true → is_Some (start_time st)) →
  ∃ out st',
    get_status avail db wifi_rssi scan now st = Ok (out, st') ∧
    s_tracking out = active st ∧
    s_trajectory_count out
    = (length (trajectory st) + (if active st then 1 else 0))%nat ∧
    (active st = false → trajectory st' = trajectory st ∧ current st' = current st) ∧
    (active st = true →
     ∃ pt, trajectory st' = trajectory st ++ [pt] ∧ current st' = Some pt ∧
           p_position pt = s_position out ∧ p_rssi pt = s_rssi out ∧
           p_room pt = s_room out ∧ p_method pt = s_method out).
Proof.
  intros Hwf.
  destruct (get_status_run avail db wifi_rssi scan now st Hwf)
    as (out & st' & raw_pos & Hrun & Hfacts).
  cbv zeta in Hfacts.
  destruct Hfacts as (_ & _ & _ & _ & _ & _ & _ & _ & _ & _ & _ & _ & _ & _ & _
                      & Htracking & Hcount & Hidle & Htrack).
  exists out, st'. split; [exact Hrun |]. split; [exact Htracking |].
  split; [| by split].
  rewrite Hcount. destruct (active st).
  - destruct (Htrack eq_refl) as (pt & -> & _). rewrite length_app. simpl. lia.
  - destruct (Hidle eq_refl) as [-> _]. lia.
Qed.
End SessionProperties.

(** ** Smoothing and the statistics of a trajectory *)

Section Smoothing.
Import Fingerprint WebTrack Session.
Local Open Scope R_scope.

Lemma py_sum_bounds (lo hi : R) (l : list R) :
  Forall (λ v, lo <= v <= hi) l →
  INR (length l) * lo <= py_sum l <= INR (length l) * hi.
Proof.
  induction 1 as [| v l Hv Hl IH].
  - unfold py_sum. simpl. lra.
  - rewrite py_sum_cons. change (length (v :: l)) with (S (length l)).
    rewrite S_INR. lra.
Qed.

Lemma mean_bounds (lo hi : R) (l : list R) :
  l ≠ [] → Forall (λ v, lo <= v <= hi) l → lo <= mean l <= hi.
Proof.
  intros Hne Hall. pose proof (py_sum_bounds lo hi l Hall) as [Hlo Hhi].
  assert (Hn : 0 < INR (length l)).
  { apply lt_0_INR. destruct l; [done | simpl; lia]. }
  unfold mean. split.
  - apply Rmult_le_reg_r with (INR (length l)); [exact Hn |].
    unfold Rdiv. rewrite Rmult_assoc, Rinv_l by lra. lra.
  - apply Rmult_le_reg_r with (INR (length l)); [exact Hn |].
    unfold Rdiv. rewrite Rmult_assoc, Rinv_l by lra. lra.
Qed.

Lemma suffix_snoc_last {A} (l1 l : list A) (x : A) :
  l1 `suffix_of` l ++ [x] → l1 ≠ [] → last l1 = Some x.
Proof.
  intros [k Hk] Hne. destruct l1 as [| y l1 _] using rev_ind; [done |].
  rewrite app_assoc in Hk. apply app_inj_tail in Hk as [_ ->]. apply last_snoc.
Qed.

(** X25: the moving average of a cycle.  A reading pushed on a buffer
    that holds at most [size] values leaves the last [min(size, n + 1)]
    readings, the new one at the end, and the smoothed value lies between
    any bounds that the readings kept. *)
Theorem smooth_moving_average (size : nat) (buffer : list R) (x lo hi : R) :
  (0 < size)%nat → (length buffer ≤ size)%nat →
  Forall (λ v, lo <= v <= hi) buffer → lo <= x <= hi →
  ∃ buffer' smoothed,
    smooth size buffer x = Ok (buffer', smoothed) ∧
    buffer' `suffix_of` buffer ++ [x] ∧
    length buffer' = Nat.min size (length buffer + 1) ∧
    last buffer' = Some x ∧
    lo <= smoothed <= hi.
Proof.
  intros Hsize Hlen Hall Hx.
  exists (push_bounded size buffer x), (mean (push_bounded size buffer x)).
  split; [by apply smooth_ok |].
  split; [apply push_bounded_suffix |].
  assert (Hall' : Forall (λ v, lo <= v <= hi) (buffer ++ [x]))
    by (apply Forall_app; split; [done | by apply Forall_singleton]).
  pose proof (push_bounded_length size buffer x Hsize) as Hpos.
  assert (Hne : push_bounded size buffer x ≠ []).
  { intros Hnil. rewrite Hnil in Hpos. simpl in Hpos. lia. }
  split.
  { unfold push_bounded. case_decide as Hlong;
      [rewrite length_drop |]; rewrite length_app in *; simpl in *; lia. }
  split; [apply (suffix_snoc_last _ buffer); [apply push_bounded_suffix | exact Hne] |].
  apply mean_bounds; [exact Hne |].
  unfold push_bounded. case_decide; [by apply Forall_drop | done].
Qed.

Lemma py_min_spec (x : R) (l : list R) :
  let m := foldl (λ m y, if decide (y < m) then y else m) x l in
  m ∈ x :: l ∧ Forall (λ y, m <= y) (x :: l).
Proof.
  cbv zeta. revert x. induction l as [| y l IH]; intros x; simpl.
  - split; [left |]. apply Forall_singleton. lra.
  - case_decide as Hlt.
    + destruct (IH y) as [Hin Hall]. split; [by right |].
      apply Forall_cons in Hall as Hall'. destruct Hall' as [Hy _].
      apply Forall_cons. split; [lra | exact Hall].
    + destruct (IH x) as [Hin Hall]. split.
      * apply elem_of_cons in Hin as [-> | Hin]; [left | right; by right].
      * apply Forall_cons in Hall as [Hx Hl].
        apply Forall_cons. split; [exact Hx |]. apply Forall_cons. split; [lra | exact Hl].
Qed.

Lemma py_max_spec (x : R) (l : list R) :
  let m := foldl (λ m y, if decide (y > m) then y else m) x l in
  m ∈ x :: l ∧ Forall (λ y, y <= m) (x :: l).
Proof.
  cbv zeta. revert x. induction l as [| y l IH]; intros x; simpl.
  - split; [left |]. apply Forall_singleton. lra.
  - case_decide as Hlt.
    + destruct (IH y) as [Hin Hall]. split; [by right |].
      apply Forall_cons in Hall as Hall'. destruct Hall' as [Hy _].
      apply Forall_cons. split; [lra | exact Hall].
    + destruct (IH x) as [Hin Hall]. split.
      * apply elem_of_cons in Hin as [-> | Hin]; [left | right; by right].
      * apply Forall_cons in Hall as [Hx Hl].
        apply Forall_cons. split; [exact Hx |]. apply Forall_cons. split; [lra | exact Hl].
Qed.

Lemma py_fromkeys_spec {A} `{EqDecision A} (l keys : list A) :
  NoDup keys →
  let keys' := foldl (λ keys k, if decide (k ∈ keys) then keys else keys ++ [k]) keys l in
  NoDup keys' ∧ ∀ k, k ∈ keys' ↔ k ∈ keys ∨ k ∈ l.
Proof.
  cbv zeta. revert keys. induction l as [| x l IH]; intros keys Hnd; simpl.
  - split; [done |]. intros k. rewrite elem_of_nil. tauto.
  - case_decide as Hin.
    + destruct (IH keys Hnd) as [Hnd' Hiff]. split; [done |].
      intros k. rewrite Hiff, elem_of_cons. split; [tauto |].
      intros [Hk | [-> | Hk]]; tauto.
    + destruct (IH (keys ++ [x])) as [Hnd' Hiff].
      { apply NoDup_app. split; [done |]. split; [| apply NoDup_singleton].
        intros k Hk Hx. apply list_elem_of_singleton in Hx as ->. done. }
      split; [done |]. intros k.
      rewrite Hiff, elem_of_app, list_elem_of_singleton, elem_of_cons. tauto.
Qed.

(** X26: the statistics stored with a saved trajectory.  A trajectory
    that is not empty has statistics: the minimum and the maximum are
    positions of the trajectory that bound all of its positions,
    [total_distance] is their difference (the extent covered, not the
    length of the path walked) and is not negative, [rooms_visited]
    lists every room of the trajectory exactly once, and [point_count]
    is the number of points.  The empty trajectory has none. *)
Theorem trajectory_stats_spec (traj : list point) :
  trajectory_stats [] = None ∧
  (traj ≠ [] →
   ∃ stats, trajectory_stats traj = Some stats ∧
     min_position stats ∈ p_position <$> traj ∧
     max_position stats ∈ p_position <$> traj ∧
     Forall (λ p, min_position stats <= p_position p <= max_position stats) traj ∧
     total_distance stats = max_position stats - min_position stats ∧
     0 <= total_distance stats ∧
     NoDup (rooms_visited stats) ∧
     (∀ room, room ∈ rooms_visited stats ↔ room ∈ p_room <$> traj) ∧
     point_count stats = length traj).
Proof.
  split; [done |]. intros Hne.
  destruct traj as [| p traj]; [done |].
  unfold trajectory_stats. rewrite decide_False by (unfold empty_list; simpl; lia).
  cbv zeta. rewrite !fmap_cons. unfold py_min, py_max, py_fromkeys.
  pose proof (py_min_spec (p_position p) (p_position <$> traj)) as [Hmin_in Hmin].
  pose proof (py_max_spec (p_position p) (p_position <$> traj)) as [Hmax_in Hmax].
  cbv zeta in Hmin_in, Hmin, Hmax_in, Hmax.
  destruct (py_fromkeys_spec (p_room p :: (p_room <$> traj)) []) as [Hnd Hiff];
    [apply NoDup_nil_2 |].
  revert Hmin_in Hmin Hmax_in Hmax Hnd Hiff.
  generalize (foldl (λ m y, if decide (y < m) then y else m) (p_position p)
                    (p_position <$> traj)).
  generalize (foldl (λ m y, if decide (y > m) then y else m) (p_position p)
                    (p_position <$> traj)).
  generalize (foldl (λ keys k, if decide (k ∈ keys) then keys else keys ++ [k]) []
                    (p_room p :: (p_room <$> traj))).
  intros rooms hi lo Hmin_in Hmin Hmax_in Hmax Hnd Hiff.
  eexists. split; [reflexivity |].
  cbn [min_position max_position total_distance rooms_visited point_count].
  split; [exact Hmin_in |]. split; [exact Hmax_in |].
  rewrite <- fmap_cons in Hmin, Hmax. rewrite Forall_fmap in Hmin, Hmax.
  rewrite Forall_forall in Hmin, Hmax.
  split.
  { apply Forall_forall. intros q Hq.
    specialize (Hmin q Hq). specialize (Hmax q Hq). simpl in Hmin, Hmax. lra. }
  split; [done |].
  split.
  { specialize (Hmin p ltac:(left)). specialize (Hmax p ltac:(left)).
    simpl in Hmin, Hmax. lra. }
  split; [exact Hnd |]. split; [| done].
  intros room. rewrite Hiff, elem_of_nil. tauto.
Qed.
End Smoothing.

Section SessionExamples.
Import Fingerprint WebTrack Session Samples.
Local Open Scope R_scope.

Lemma session_status_never_fails_witness :
  (length (rssi_buffer (start_tracking 0 initial_state)) ≤ 10)%nat ∧
  (length (position_buffer (start_tracking 0 initial_state)) ≤ 8)%nat ∧
  (active (start_tracking 0 initial_state) = true
   → is_Some (start_time (start_tracking 0 initial_state))) ∧
  ∀ avail db wifi_rssi scan now,
    ∃ out st',
      get_status avail db wifi_rssi scan now (start_tracking 0 initial_state)
      = Ok (out, st') ∧
      reachable_state st'.
Proof. apply session_status_never_fails. apply reach_start, reach_initial. Defined.

Lemma get_status_direction_witness :
  ∃ out st' final_pos,
    get_status true corridor_db (Some (-50)) [50; 60] 1 initial_state = Ok (out, st') ∧
    s_position out = py_round_n final_pos 1 ∧
    Rabs (final_pos - last_stable_position st') < 5 ∧
    ((s_direction out = "stay"%string ∧
      last_stable_position st' = last_stable_position initial_state) ∨
     (s_direction out = "forward"%string ∧ last_stable_position st' = final_pos ∧
      last_stable_position initial_state + 5 <= last_stable_position st') ∨
     (s_direction out = "backward"%string ∧ last_stable_position st' = final_pos ∧
      last_stable_position st' <= last_stable_position initial_state - 5)).
Proof. apply get_status_direction. simpl. discriminate. Defined.

Lemma get_status_min_change_witness :
  ∃ out st',
    get_status true corridor_db (Some (-50)) [50; 60] 1 initial_state = Ok (out, st') ∧
    s_fallback_position out = py_round_n (last_reported_position st') 1 ∧
    s_fallback_room out = get_nearest_room (last_reported_position st') ∧
    (last_reported_position st' = last_reported_position initial_state ∨
     1 <= Rabs (last_reported_position st' - last_reported_position initial_state)).
Proof. apply get_status_min_change. simpl. discriminate. Defined.

Lemma get_status_trajectory_witness :
  ∃ out st',
    get_status true corridor_db (Some (-50)) [50; 60] 1 (start_tracking 0 initial_state)
    = Ok (out, st') ∧
    s_tracking out = active (start_tracking 0 initial_state) ∧
    s_trajectory_count out
    = (length (trajectory (start_tracking 0 initial_state))
       + (if active (start_tracking 0 initial_state) then 1 else 0))%nat ∧
    (active (start_tracking 0 initial_state) = false →
     trajectory st' = trajectory (start_tracking 0 initial_state) ∧
     current st' = current (start_tracking 0 initial_state)) ∧
    (active (start_tracking 0 initial_state) = true →
     ∃ pt, trajectory st' = trajectory (start_tracking 0 initial_state) ++ [pt] ∧
           current st' = Some pt ∧
           p_position pt = s_position out ∧ p_rssi pt = s_rssi out ∧
           p_room pt = s_room out ∧ p_method pt = s_method out).
Proof. apply get_status_trajectory. simpl. intros _. by eexists. Defined.

Lemma smooth_moving_average_witness :
  ∃ buffer' smoothed,
    smooth 2 [-50; -60] (-70) = Ok (buffer', smoothed) ∧
    buffer' `suffix_of` [-50; -60] ++ [-70] ∧
    length buffer' = Nat.min 2 (length [-50; -60] + 1) ∧
    last buffer' = Some (-70) ∧
    -70 <= smoothed <= -50.
Proof.
  apply smooth_moving_average; [lia | simpl; lia | | lra].
  apply Forall_cons; split; [lra |]. apply Forall_cons; split; [lra |]. apply Forall_nil_2.
Defined.
End SessionExamples.

(** ** Scanning and the fingerprint store *)

Section FingerprintStoreProperties.
Import Fingerprint FingerprintStore.
Local Open Scope Z_scope.

Lemma stronger_asym (a b : Z) : stronger a b → ¬ stronger b a.
Proof. unfold stronger. lia. Qed.

Lemma stronger_ntrans (a b c : Z) : ¬ stronger b a → ¬ stronger c b → ¬ stronger c a.
Proof. unfold stronger. lia. Qed.

Lemma StronglySorted_weaken {A} (R1 R2 : A → A → Prop) (l : list A) :
  (∀ x y, R1 x y → R2 x y) → StronglySorted R1 l → StronglySorted R2 l.
Proof.
  intros Himpl. induction 1 as [| x l Hl IH Hx]; [apply SSorted_nil |].
  apply SSorted_cons; [exact IH |]. eapply Forall_impl; [exact Hx |]. apply Himpl.
Qed.

(** X27: what a scan returns.  Without an interface the pattern is
    empty.  Otherwise, for [top_n >= 0], the pattern holds the [top_n]
    strongest usable readings (not 0 and above -100 dBm) of the networks
    listed, or all of them when there are fewer, in descending order:
    together with the readings left out it is a rearrangement of the
    usable readings, and no reading left out is stronger than one kept. *)
Theorem scan_rssi_pattern_top (networks : list Z) (top_n : Z) :
  0 ≤ top_n →
  scan_rssi_pattern None top_n = [] ∧
  ∃ rest,
    scan_rssi_pattern (Some networks) top_n ++ rest ≡ₚ filter usable networks ∧
    length (scan_rssi_pattern (Some networks) top_n)
    = Nat.min (Z.to_nat top_n) (length (filter usable networks)) ∧
    StronglySorted (λ a b, b ≤ a) (scan_rssi_pattern (Some networks) top_n) ∧
    Forall (λ rssi, rssi ≠ 0 ∧ -100 < rssi) (scan_rssi_pattern (Some networks) top_n) ∧
    Forall (λ r, Forall (λ p, r ≤ p) (scan_rssi_pattern (Some networks) top_n)) rest.
Proof.
  intros Htop. split; [done |].
  unfold scan_rssi_pattern, py_prefix. rewrite decide_True by done.
  set (usable_list := filter usable networks).
  pose proof (sort_by_perm (λ rssi : Z, rssi) stronger usable_list) as Hperm.
  pose proof (sort_by_sorted (λ rssi : Z, rssi) stronger stronger_asym stronger_ntrans
                usable_list) as Hsorted.
  apply (StronglySorted_weaken _ (λ a b, b ≤ a)) in Hsorted;
    [| unfold stronger; intros; lia].
  set (sorted := sort_by (λ rssi : Z, rssi) stronger usable_list) in *.
  exists (drop (Z.to_nat top_n) sorted).
  rewrite take_drop. split; [exact Hperm |].
  split; [rewrite length_take, <- (Permutation_length Hperm); lia |].
  rewrite <- (take_drop (Z.to_nat top_n) sorted) in Hsorted.
  split; [by apply StronglySorted_app_1_l in Hsorted |].
  split.
  - apply Forall_take. rewrite Hperm. apply Forall_forall.
    intros rssi Hin. by apply list_elem_of_filter in Hin as [Husable _].
  - apply Forall_forall. intros r Hr. apply Forall_forall. intros p Hp.
    by apply (StronglySorted_app_1_elem_of _ _ _ p r Hsorted).
Qed.

Lemma dict_get_set {V} (k l : string) (v : V) (d : list (string * V)) :
  dict_get l (dict_set k v d) = if decide (l = k) then Some v else dict_get l d.
Proof.
  induction d as [| [k' v'] d IH]; simpl.
  - by case_decide.
  - destruct (decide (k = k')) as [<- | Hne]; simpl.
    + by repeat case_decide.
    + rewrite IH. repeat case_decide; congruence.
Qed.

Lemma dict_set_keys {V} (k : string) (v : V) (d : list (string * V)) :
  (dict_set k v d).*1 = if decide (k ∈ d.*1) then d.*1 else d.*1 ++ [k].
Proof.
  induction d as [| [k' v'] d IH].
  - cbn [dict_set fmap list_fmap fst]. rewrite decide_False; [done | apply not_elem_of_nil].
  - cbn [dict_set]. rewrite fmap_cons. cbn [fst].
    destruct (decide (k = k')) as [<- | Hne].
    + rewrite fmap_cons. cbn [fst]. rewrite decide_True; [done | left].
    + rewrite fmap_cons, IH. cbn [fst]. destruct (decide (k ∈ d.*1)) as [Hin | Hout].
      * rewrite decide_True; [done | by right].
      * rewrite decide_False; [done |].
        intros Hin. apply elem_of_cons in Hin as [-> | Hin]; done.
Qed.

(** X28: storing a fingerprint.  In a store with one record per label,
    [add_fingerprint] makes [location] map to the new record and leaves
    every other label as it was; a label that was present keeps its
    place and is not listed twice, a new one goes to the end, and the
    statistics count one more record in that case only. *)
Theorem add_fingerprint_spec (db : list (string * fingerprint))
    (location : string) (fp : fingerprint) :
  NoDup db.*1 →
  dict_get location (add_fingerprint db location fp) = Some fp ∧
  (∀ other, other ≠ location →
     dict_get other (add_fingerprint db location fp) = dict_get other db) ∧
  NoDup (add_fingerprint db location fp).*1 ∧
  stats_locations (get_db_stats (add_fingerprint db location fp))
  = (if decide (location ∈ db.*1) then db.*1 else db.*1 ++ [location]) ∧
  stats_count (get_db_stats (add_fingerprint db location fp))
  = (if decide (location ∈ db.*1) then length db else S (length db)).
Proof.
  intros Hnodup. unfold add_fingerprint.
  split; [rewrite dict_get_set; by rewrite decide_True |].
  split; [intros other Hother; rewrite dict_get_set; by rewrite decide_False |].
  split; [by apply dict_set_keys_NoDup |].
  unfold get_db_stats.
  rewrite decide_False by (unfold empty_list; destruct db as [| [k v] db]; simpl;
                           [lia | case_decide; simpl; lia]).
  simpl. split; [apply dict_set_keys |].
  rewrite <- (length_fmap fst (dict_set location fp db)), dict_set_keys.
  case_decide; [by rewrite length_fmap |].
  rewrite length_app, length_fmap. simpl. lia.
Qed.
End FingerprintStoreProperties.

Section FingerprintStoreExamples.
Import Fingerprint FingerprintStore Samples.
Local Open Scope Z_scope.

Lemma scan_rssi_pattern_top_witness :
  scan_rssi_pattern None 2 = [] ∧
  ∃ rest,
    scan_rssi_pattern (Some [-70; 0; -40; -120; -55]) 2 ++ rest
    ≡ₚ filter usable [-70; 0; -40; -120; -55] ∧
    length (scan_rssi_pattern (Some [-70; 0; -40; -120; -55]) 2)
    = Nat.min (Z.to_nat 2) (length (filter usable [-70; 0; -40; -120; -55])) ∧
    StronglySorted (λ a b, b ≤ a) (scan_rssi_pattern (Some [-70; 0; -40; -120; -55]) 2) ∧
    Forall (λ rssi, rssi ≠ 0 ∧ -100 < rssi)
           (scan_rssi_pattern (Some [-70; 0; -40; -120; -55]) 2) ∧
    Forall (λ r, Forall (λ p, r ≤ p) (scan_rssi_pattern (Some [-70; 0; -40; -120; -55]) 2))
           rest.
Proof. apply scan_rssi_pattern_top. lia. Defined.

Lemma add_fingerprint_spec_witness :
  dict_get "7411" (add_fingerprint twin_db "7411" room_b) = Some room_b ∧
  (∀ other, other ≠ "7411"%string →
     dict_get other (add_fingerprint twin_db "7411" room_b) = dict_get other twin_db) ∧
  NoDup (add_fingerprint twin_db "7411" room_b).*1 ∧
  stats_locations (get_db_stats (add_fingerprint twin_db "7411" room_b))
  = (if decide ("7411"%string ∈ twin_db.*1) then twin_db.*1
     else twin_db.*1 ++ ["7411"%string]) ∧
  stats_count (get_db_stats (add_fingerprint twin_db "7411" room_b))
  = (if decide ("7411"%string ∈ twin_db.*1) then length twin_db else S (length twin_db)).
Proof.
  apply add_fingerprint_spec. unfold twin_db. simpl.
  apply NoDup_cons. split; [| apply NoDup_singleton].
  intros Hin. by apply list_elem_of_singleton in Hin.
Defined.
End FingerprintStoreExamples.

(** ** Collecting a fingerprint *)

Section CollectProperties.
Import Fingerprint FingerprintStore.

Lemma foldl_Zadd_bounds (lo hi : Z) (values : list Z) (acc : Z) :
  Forall (λ v, lo ≤ v ≤ hi)%Z values →
  (acc + Z.of_nat (length values) * lo ≤ foldl Z.add acc values
   ≤ acc + Z.of_nat (length values) * hi)%Z.
Proof.
  intros Hall. revert acc. induction Hall as [| v values Hv Hall IH]; intros acc.
  - simpl. lia.
  - change (foldl Z.add acc (v :: values)) with (foldl Z.add (acc + v)%Z values).
    specialize (IH (acc + v)%Z).
    change (length (v :: values)) with (S (length values)). lia.
Qed.

(** Rounding to the nearest integer stays between integer bounds. *)
Lemma py_round_between (lo hi : Z) (x : R) :
  (IZR lo <= x <= IZR hi)%R → (lo ≤ py_round x ≤ hi)%Z.
Proof.
  intros [Hlo Hhi]. unfold py_round.
  destruct (base_Int_part x) as [Hf1 Hf2].
  assert (Hflo : (lo ≤ Int_part x)%Z).
  { assert (IZR lo < IZR (Int_part x + 1))%R as Hlt by (rewrite plus_IZR; lra).
    apply lt_IZR in Hlt. lia. }
  assert (Hfhi : (Int_part x ≤ hi)%Z) by (apply le_IZR; lra).
  assert (Hstep : (0 < x - IZR (Int_part x))%R → (Int_part x + 1 ≤ hi)%Z).
  { intros Hd. destruct (Z.eq_dec (Int_part x) hi) as [Heq | Hne]; [| lia].
    rewrite Heq in Hd. lra. }
  cbv zeta. case_decide as Hlow; [lia |].
  case_decide as Hhigh; [split; [lia | apply Hstep; lra] |].
  destruct (Z.even (Int_part x)); [lia |]. split; [lia | apply Hstep; lra].
Qed.

Lemma foldM_snoc {A B} (f : B → A → result B) (acc : B) (l : list A) (x : A) :
  foldM f acc (l ++ [x]) = (acc' ← foldM f acc l; f acc' x).
Proof.
  revert acc. induction l as [| y l IH]; intros acc; simpl.
  - by destruct (f acc x).
  - destruct (f acc y) as [acc' | e]; simpl; [apply IH | done].
Qed.

(** One rank of the average: it exists when some pattern is long enough,
    and lies between any bounds that the readings of that rank keep. *)
Lemma average_rank_spec (all_patterns : list (list Z)) (i : nat) :
  ∃ r, average_rank all_patterns i = Ok r ∧
    (r = None ↔ ¬ Exists (λ p, (i < length p)%nat) all_patterns) ∧
    ∀ v lo hi, r = Some v →
      (∀ p x, p ∈ all_patterns → p !! i = Some x → lo ≤ x ≤ hi)%Z →
      (lo ≤ v ≤ hi)%Z.
Proof.
  unfold average_rank.
  set (values := omap (λ p : list Z, p !! i) all_patterns).
  assert (Hvalues : empty_list values ↔ ¬ Exists (λ p, (i < length p)%nat) all_patterns).
  { unfold empty_list. rewrite Exists_exists. split.
    - intros Hlen (p & Hp & Hi).
      destruct (lookup_lt_is_Some_2 p i Hi) as [x Hx].
      assert (Hin : x ∈ values) by (apply list_elem_of_omap; by exists p).
      destruct values; [by apply elem_of_nil in Hin | done].
    - intros Hnone. destruct values as [| x rest] eqn:Hv; [done |].
      assert (Hin : x ∈ values) by (rewrite Hv; left).
      apply list_elem_of_omap in Hin as (p & Hp & Hx).
      exfalso. apply Hnone. exists p. split; [done |].
      by apply lookup_lt_Some in Hx. }
  case_decide as Hempty.
  - exists None. split; [done |]. split; [by split; [intros _; apply Hvalues |] |].
    discriminate.
  - assert (Hlen : (0 < length values)%nat) by (unfold empty_list in Hempty; lia).
    rewrite py_div_ok by (apply not_0_INR; lia). simpl.
    eexists. split; [reflexivity |].
    split; [split; [discriminate | intros Hnone; by apply Hvalues in Hnone] |].
    intros v lo hi [= <-] Hbounds.
    assert (Hall : Forall (λ x, lo ≤ x ≤ hi)%Z values).
    { apply Forall_forall. intros x Hx.
      apply list_elem_of_omap in Hx as (p & Hp & Hx). by apply (Hbounds p). }
    pose proof (foldl_Zadd_bounds lo hi values 0 Hall) as [Hsum_lo Hsum_hi].
    apply py_round_between.
    assert (Hn : (0 < INR (length values))%R) by (apply lt_0_INR; lia).
    apply IZR_le in Hsum_lo, Hsum_hi.
    rewrite plus_IZR, mult_IZR, <- INR_IZR_INZ in Hsum_lo, Hsum_hi.
    split.
    + apply Rmult_le_reg_r with (INR (length values)); [exact Hn |].
      unfold Rdiv. rewrite Rmult_assoc, Rinv_l by lra. lra.
    + apply Rmult_le_reg_r with (INR (length values)); [exact Hn |].
      unfold Rdiv. rewrite Rmult_assoc, Rinv_l by lra. lra.
Qed.

(** The averaged pattern, rank by rank. *)
Lemma average_pattern_spec (all_patterns : list (list Z)) (n : nat) :
  ∃ avg_pattern,
    average_pattern all_patterns (Z.of_nat n) = Ok avg_pattern ∧
    (∀ i, (i < length avg_pattern)%nat
          ↔ (i < n)%nat ∧ Exists (λ p, (i < length p)%nat) all_patterns) ∧
    ∀ i v lo hi, avg_pattern !! i = Some v →
      (∀ p x, p ∈ all_patterns → p !! i = Some x → lo ≤ x ≤ hi)%Z →
      (lo ≤ v ≤ hi)%Z.
Proof.
  unfold average_pattern. rewrite Nat2Z.id.
  induction n as [| n (avg_pattern & Hrun & Hlen & Hbounds)].
  - exists []. split; [done |]. split.
    + intros i. simpl. lia.
    + intros i v lo hi Hi. by rewrite lookup_nil in Hi.
  - rewrite seq_S, foldM_snoc, Hrun. simpl.
    destruct (average_rank_spec all_patterns n) as (r & -> & Hnone & Hrank). simpl.
    assert (Hmono : ∀ i, (i ≤ n)%nat →
              Exists (λ p, (n < length p)%nat) all_patterns →
              Exists (λ p, (i < length p)%nat) all_patterns).
    { intros i Hi Hex. eapply Exists_impl; [exact Hex |]. simpl. intros p Hp. lia. }
    destruct r as [v |].
    + assert (Hex : Exists (λ p, (n < length p)%nat) all_patterns).
      { destruct (decide (Exists (λ p, (n < length p)%nat) all_patterns)) as [Hex | Hno];
          [done |]. by apply Hnone in Hno. }
      assert (Hfull : length avg_pattern = n).
      { destruct (decide (length avg_pattern < n)%nat) as [Hshort | Hlong].
        - assert (length avg_pattern < length avg_pattern)%nat; [| lia].
          apply Hlen. split; [done |]. apply Hmono; [lia | done].
        - destruct (decide (n < length avg_pattern)%nat) as [Hover | Hok]; [| lia].
          apply Hlen in Hover as [Hover _]. lia. }
      exists (avg_pattern ++ [v]). split; [done |]. split.
      * intros i. rewrite length_app. simpl. split.
        -- intros Hi. split; [lia |]. apply Hmono; [lia | done].
        -- lia.
      * intros i w lo hi Hi Hb.
        apply lookup_snoc_Some in Hi as [[Hi Hw] | [Hi <-]].
        -- by apply (Hbounds i w lo hi).
        -- rewrite Hfull in Hi. subst i. by apply (Hrank v lo hi).
    + assert (Hno : ¬ Exists (λ p, (n < length p)%nat) all_patterns) by (by apply Hnone).
      exists avg_pattern. split; [done |]. split; [| exact Hbounds].
      intros i. rewrite Hlen. split; [intros [Hi Hex]; split; [lia | done] |].
      intros [Hi Hex]. split; [| done].
      destruct (decide (i = n)) as [-> | Hne]; [done | lia].
Qed.

(** X29: collecting a fingerprint does not raise whatever the scans
    return.  It gives [None] exactly when every scan came back empty.
    Otherwise the record carries the label, the number of scans asked
    for (the empty ones included), and a pattern of integers with one
    entry for each rank below [top_n] that some scan reached; the entry
    of a rank lies between any bounds that the readings of the scans at
    that rank keep, so scans that agree at a rank are reproduced there. *)
Theorem collect_fingerprint_spec (location : string) (scans : list (list Z)) (top_n : Z) :
  ∃ r, collect_fingerprint location scans top_n = Ok r ∧
    (r = None ↔ Forall (λ p, p = []) scans) ∧
    ∀ fp, r = Some fp →
      fp_location fp = location ∧
      fp_samples fp = Z.of_nat (length scans) ∧
      (∀ i, (i < length (fp_pattern fp))%nat
            ↔ (i < Z.to_nat top_n)%nat ∧ Exists (λ p, (i < length p)%nat) scans) ∧
      ∀ i v, fp_pattern fp !! i = Some v →
        ∃ z : Z, v = IZR z ∧
          ∀ lo hi, (∀ p x, p ∈ scans → p !! i = Some x → lo ≤ x ≤ hi)%Z →
                   (lo ≤ z ≤ hi)%Z.
Proof.
  unfold collect_fingerprint.
  set (all_patterns := filter (λ p : list Z, ¬ empty_list p) scans).
  assert (Hempty : empty_list all_patterns ↔ Forall (λ p, p = []) scans).
  { unfold empty_list. split.
    - intros Hlen. apply Forall_forall. intros p Hp.
      destruct p as [| x p]; [done |]. exfalso.
      assert (Hin : (x :: p) ∈ all_patterns)
        by (apply list_elem_of_filter; split; [unfold empty_list; simpl; lia | done]).
      destruct all_patterns; [by apply elem_of_nil in Hin | done].
    - intros Hall. destruct all_patterns as [| p rest] eqn:Hp; [done |].
      assert (Hin : p ∈ all_patterns) by (rewrite Hp; left).
      apply list_elem_of_filter in Hin as [Hne Hin].
      rewrite Forall_forall in Hall. rewrite (Hall p Hin) in Hne.
      exfalso. by apply Hne. }
  case_decide as Hnone.
  - exists None. split; [done |]. split; [by split; [intros _; apply Hempty |] |].
    discriminate.
  - assert (Hsame : ∀ i, Exists (λ p, (i < length p)%nat) all_patterns
                         ↔ Exists (λ p, (i < length p)%nat) scans).
    { intros i. rewrite !Exists_exists. split.
      - intros (p & Hp & Hi). apply list_elem_of_filter in Hp as [_ Hp]. by exists p.
      - intros (p & Hp & Hi). exists p. split; [| done].
        apply list_elem_of_filter. split; [unfold empty_list; lia | done]. }
    destruct (Z_le_gt_dec 0 top_n) as [Htop | Htop].
    + destruct (average_pattern_spec all_patterns (Z.to_nat top_n))
        as (avg_pattern & Hrun & Hlen & Hbounds).
      rewrite Z2Nat.id in Hrun by done. rewrite Hrun. simpl.
      eexists. split; [reflexivity |].
      split; [split; [discriminate | intros Hall; by apply Hempty in Hall] |].
      intros fp [= <-]. simpl. split; [done |]. split; [done |]. split.
      * intros i. by rewrite length_fmap, Hlen, Hsame.
      * intros i v Hv. rewrite list_lookup_fmap in Hv.
        destruct (avg_pattern !! i) as [z |] eqn:Hz; [| done].
        injection Hv as <-. exists z. split; [done |].
        intros lo hi Hb. apply (Hbounds i z lo hi Hz).
        intros p x Hp. apply list_elem_of_filter in Hp as [_ Hp]. by apply Hb.
    + destruct (average_pattern_spec all_patterns 0) as (avg_pattern & Hrun & Hlen & _).
      unfold average_pattern in *. simpl in Hrun.
      replace (Z.to_nat top_n) with 0%nat by lia. simpl.
      eexists. split; [reflexivity |].
      split; [split; [discriminate | intros Hall; by apply Hempty in Hall] |].
      intros fp [= <-]. simpl. split; [done |]. split; [done |]. split.
      * intros i. lia.
      * intros i v Hv. by rewrite lookup_nil in Hv.
Qed.
End CollectProperties.

(** ** The simulated scanner and the distance model *)

Section SimulatorProperties.
Import Config Estimator Geometry Simulator.
Local Open Scope R_scope.

Lemma ln_10_pos : 0 < ln 10.
Proof. rewrite <- ln_1. apply ln_increasing; lra. Qed.

(** [log10] of a distance between 0.5 m and 30 m. *)
Lemma log10_bounds (d : R) : 0.5 <= d <= 30 → -29 / 25 <= log10 d <= 41 / 25.
Proof.
  intros [Hlo Hhi]. pose proof ln_10_pos as H10. unfold log10.
  assert (Hlow : - ln 10 <= ln d).
  { rewrite <- ln_Rinv by lra.
    destruct (Req_dec (/ 10) d) as [<- | Hne]; [lra |].
    left. apply ln_increasing; lra. }
  assert (Hhigh : 2 * ln d <= 3 * ln 10).
  { replace 2 with (INR 2) by (simpl; lra). replace 3 with (INR 3) by (simpl; lra).
    rewrite <- !ln_pow by lra.
    destruct (Req_dec (d ^ 2) (10 ^ 3)) as [-> | Hne]; [lra |].
    left. apply ln_increasing; [nra |]. simpl. nra. }
  split.
  - apply Rmult_le_reg_r with (ln 10); [exact H10 |].
    unfold Rdiv at 2. rewrite Rmult_assoc, Rinv_l by lra. lra.
  - apply Rmult_le_reg_r with (ln 10); [exact H10 |].
    unfold Rdiv at 1. rewrite Rmult_assoc, Rinv_l by lra. lra.
Qed.

Lemma Rpower_10_log10 (d : R) : 0 < d → Rpower 10 (log10 d) = d.
Proof.
  intros Hd. pose proof ln_10_pos as H10. unfold Rpower, log10.
  unfold Rdiv. rewrite Rmult_assoc, Rinv_l by lra. rewrite Rmult_1_r. by apply exp_ln.
Qed.

(** X30: the simulated scanner against the distance model.  Every
    simulated RSSI lies between -100 and -30 dBm whatever the noise, and
    without noise the distance model gives back the distance that the
    simulator used: the distance to the access point, or 0.5 m when the
    point is nearer than that, for access points up to 30 m away. *)
Theorem simulated_rssi_round_trip (current_position ap : position) (noise : R) :
  (RSSI_MIN <= simulated_rssi current_position ap noise <= -30) ∧
  (calculate_distance current_position ap <= MAX_DISTANCE →
   rssi_to_distance (simulated_rssi current_position ap 0)
   = Rmax (calculate_distance current_position ap) 0.5).
Proof.
  destruct current_position as [x y], ap as [ap_x ap_y].
  unfold simulated_rssi, calculate_distance, RSSI_MIN, MAX_DISTANCE. cbn [fst snd].
  set (d := sqrt ((x - ap_x) ^ 2 + (y - ap_y) ^ 2)).
  split.
  { split; [apply Rmax_r |]. apply Rmax_lub; [apply Rmin_r | lra]. }
  intros Hfar.
  set (d' := if decide (d < 0.5) then 0.5 else d).
  assert (Hd' : 0.5 <= d' <= 30 ∧ d' = Rmax d 0.5).
  { unfold d'. case_decide as Hnear.
    - split; [lra |]. rewrite Rmax_right; lra.
    - split; [lra |]. rewrite Rmax_left; lra. }
  destruct Hd' as [Hrange <-].
  pose proof (log10_bounds d' Hrange) as [Hlog_lo Hlog_hi].
  rewrite Rmin_left by lra. rewrite Rmax_left by lra.
  unfold rssi_to_distance, RSSI_MIN, TX_POWER, PATH_LOSS_EXPONENT, MAX_DISTANCE.
  rewrite decide_False by lra.
  replace ((-59 - (-59 - 10 * 2.5 * log10 d' + 0)) / (10 * 2.5)) with (log10 d') by lra.
  rewrite Rpower_10_log10 by lra. apply Rmin_left. lra.
Qed.
End SimulatorProperties.
